(** * Retrieval core of the insurance-document assistant (src/rag.py)

    A shallow embedding of the chunker ([PDFProcessor]), the embedding
    provider ([EmbeddingGenerator]) and the document store with its
    ingestion and similarity search ([PolicyWordingRAG]), followed by the
    properties of the specification that concern them.

    Conventions.
    - A Python [str] is a list of Unicode code points ([N]).
    - Python integers are [Z]; indices keep Python's meaning when negative.
    - numpy [float32] values are IEEE 754 binary32 numbers, given by the
      standard library's [spec_float] at precision 24 and emax 128.
    - The PostgreSQL database is a pair of tables with the constraints the
      schema of [_initialize_database] declares; a connection works on a
      private view that [commit] publishes and [rollback] drops.
    - The [while] loop of [chunk_text] is run with fuel: [None] is "the
      loop has not finished within that many iterations". *)

From Stdlib Require Import ZArith NArith List Bool Lia String Ascii.
From Stdlib Require Import Permutation Sorted.
From Stdlib Require Import Floats.SpecFloat.
Import ListNotations.

Local Open Scope Z_scope.

(* ===================================================================== *)
(** * Python strings                                                      *)
(* ===================================================================== *)

Definition char := N.
Definition text := list char.

(** A literal, for examples. *)
Definition str (s : string) : text := map N_of_ascii (list_ascii_of_string s).

Definition len {A} (l : list A) : Z := Z.of_nat (List.length l).

(** [str.isspace] on one code point, which is also what [\s] matches in a
    [str] pattern of [re]. *)
Definition isspace (c : char) : bool :=
  (((9 <=? c) && (c <=? 13)) || ((28 <=? c) && (c <=? 32))
   || (c =? 133) || (c =? 160) || (c =? 5760)
   || ((8192 <=? c) && (c <=? 8202))
   || (c =? 8232) || (c =? 8233) || (c =? 8239) || (c =? 8287)
   || (c =? 12288))%N.

(** [re.sub(r'\s+', ' ', text)]: every maximal run of whitespace becomes one
    space.  [in_run] tells that the previous character was whitespace. *)
Fixpoint collapse_from (in_run : bool) (t : text) : text :=
  match t with
  | [] => []
  | c :: r =>
      if isspace c
      then (if in_run then collapse_from true r else 32%N :: collapse_from true r)
      else c :: collapse_from false r
  end.

Definition re_sub_whitespace (t : text) : text := collapse_from false t.

Fixpoint lstrip (t : text) : text :=
  match t with
  | [] => []
  | c :: r => if isspace c then lstrip r else t
  end.

Definition rstrip (t : text) : text := rev (lstrip (rev t)).

(** [text.strip()] *)
Definition strip (t : text) : text := rstrip (lstrip t).

(** Index adjustment of a slice bound ([PySlice_AdjustIndices], step 1). *)
Definition slice_index (n i : Z) : Z :=
  if i <? 0 then Z.max 0 (i + n) else Z.min i n.

(** [text[start:stop]] *)
Definition slice {A} (t : list A) (start stop : Z) : list A :=
  let a := slice_index (len t) start in
  let b := slice_index (len t) stop in
  firstn (Z.to_nat (b - a)) (skipn (Z.to_nat a) t).

(** Index of the last [c] among the elements of [t], which sit at positions
    [i], [i+1], ...; [acc] when there is none. *)
Fixpoint last_index (c : char) (t : text) (i acc : Z) : Z :=
  match t with
  | [] => acc
  | x :: r => last_index c r (i + 1) (if (x =? c)%N then i else acc)
  end.

(** [text.rfind(c, start, stop)] for a one-character [c]: the bounds are
    adjusted as CPython's [ADJUST_INDICES] does, and [-1] means not found. *)
Definition rfind (t : text) (c : char) (start stop : Z) : Z :=
  let n := len t in
  let stop' := if n <? stop then n
               else if stop <? 0 then Z.max 0 (stop + n) else stop in
  let start' := if start <? 0 then Z.max 0 (start + n) else start in
  if stop' - start' <? 1 then -1
  else last_index c (firstn (Z.to_nat (stop' - start')) (skipn (Z.to_nat start') t))
                  start' (-1).

(** [sep.join(parts)] *)
Fixpoint join (sep : text) (parts : list text) : text :=
  match parts with
  | [] => []
  | [p] => p
  | p :: rest => p ++ sep ++ join sep rest
  end.

(* ===================================================================== *)
(** * PDFProcessor: the chunker                                           *)
(* ===================================================================== *)

Record PDFProcessor := {
  chunk_size : Z;
  chunk_overlap : Z
}.

(** [PDFProcessor()] *)
Definition default_processor : PDFProcessor :=
  {| chunk_size := 1500; chunk_overlap := 300 |}.

(** The dictionary [chunk_text] appends for a kept window. *)
Record chunk := {
  c_text : text;
  c_page_number : Z;
  c_chunk_index : Z;
  c_start_char : Z;
  c_end_char : Z
}.

Definition DOT : char := 46%N.
Definition BANG : char := 33%N.
Definition QUESTION : char := 63%N.

(** The three [rfind] calls and their [max]. *)
Definition sentence_end_of (t : text) (start stop : Z) : Z :=
  Z.max (Z.max (rfind t DOT start stop) (rfind t BANG start stop))
        (rfind t QUESTION start stop).

(** The value of [end] when the window that starts at [start] is cut. *)
Definition window_end (P : PDFProcessor) (t : text) (start : Z) : Z :=
  let stop := start + chunk_size P in
  if stop <? len t then
    let sentence_end := sentence_end_of t start stop in
    if start <? sentence_end then sentence_end + 1 else stop
  else stop.

(** The variables of the [while] loop. *)
Record loop_state := {
  ls_start : Z;
  ls_chunks : list chunk;
  ls_chunk_index : Z
}.

Definition initial_state : loop_state :=
  {| ls_start := 0; ls_chunks := []; ls_chunk_index := 0 |}.

(** One iteration of the loop body, on the normalized text [t]. *)
Definition chunk_step (P : PDFProcessor) (t : text) (page_number : Z)
    (st : loop_state) : loop_state :=
  let stop := window_end P t (ls_start st) in
  let body := strip (slice t (ls_start st) stop) in
  match body with
  | [] => {| ls_start := stop - chunk_overlap P;
             ls_chunks := ls_chunks st;
             ls_chunk_index := ls_chunk_index st |}
  | _ :: _ =>
      {| ls_start := stop - chunk_overlap P;
         ls_chunks := ls_chunks st ++
                      [ {| c_text := body;
                           c_page_number := page_number;
                           c_chunk_index := ls_chunk_index st;
                           c_start_char := ls_start st;
                           c_end_char := stop |} ];
         ls_chunk_index := ls_chunk_index st + 1 |}
  end.

(** [while start < len(text): ...], at most [fuel] iterations. *)
Fixpoint chunk_loop (fuel : nat) (P : PDFProcessor) (t : text)
    (page_number : Z) (st : loop_state) : option (list chunk) :=
  if ls_start st <? len t then
    match fuel with
    | O => None
    | S fuel' => chunk_loop fuel' P t page_number (chunk_step P t page_number st)
    end
  else Some (ls_chunks st).

(** The first statement of [chunk_text]. *)
Definition normalize (t : text) : text := strip (re_sub_whitespace t).

(** [PDFProcessor.chunk_text(text, page_number)] *)
Definition chunk_text (fuel : nat) (P : PDFProcessor) (t : text)
    (page_number : Z) : option (list chunk) :=
  chunk_loop fuel P (normalize t) page_number initial_state.

(** Python library functions that stay abstract: the Unicode tables behind
    [unicodedata.normalize('NFKD', _)] and [\w], and SHA-256 (the digest is
    taken as the number its hexadecimal form denotes). *)
Record Runtime := {
  nfkd : text -> text;
  isword : char -> bool;
  sha256 : text -> N
}.

(** What [page.extract_text()] gives for each page of a PDF that PyPDF2 can
    read; [Unreadable] is a file on which reading or extraction raises. *)
Inductive pdf :=
| Unreadable
| Pages (pages : list text).

(** The characters [_clean_text] keeps besides [\w] and [\s]. *)
Definition ispunct_kept (c : char) : bool :=
  existsb (N.eqb c) [46; 44; 33; 63; 59; 58; 40; 41; 45; 39; 34]%N.

(** [PDFProcessor._clean_text] *)
Definition clean_text (R : Runtime) (t : text) : text :=
  let t1 := nfkd R t in
  let t2 := re_sub_whitespace t1 in
  let t3 := filter (fun c => isword R c || isspace c || ispunct_kept c) t2 in
  strip t3.

(** The loop of [extract_text_from_pdf]; [page_num] is the index that
    [enumerate] has reached. *)
Fixpoint extract_pages (R : Runtime) (page_num : Z) (pages : list text)
    : list (text * Z) :=
  match pages with
  | [] => []
  | t :: rest =>
      match strip t with
      | [] => extract_pages R (page_num + 1) rest
      | _ :: _ => (clean_text R t, page_num + 1) :: extract_pages R (page_num + 1) rest
      end
  end.

(** [PDFProcessor.extract_text_from_pdf] *)
Definition extract_text_from_pdf (R : Runtime) (f : pdf) : list (text * Z) :=
  match f with
  | Unreadable => []
  | Pages pages => extract_pages R 0 pages
  end.

(** The loop of [process_pdf_bytes] over [pages_text]. *)
Fixpoint chunk_pages (fuel : nat) (P : PDFProcessor) (pages_text : list (text * Z))
    : option (list chunk) :=
  match pages_text with
  | [] => Some []
  | (t, page_num) :: rest =>
      match chunk_text fuel P t page_num with
      | None => None
      | Some chunks =>
          match chunk_pages fuel P rest with
          | None => None
          | Some more => Some (chunks ++ more)
          end
      end
  end.

(** [PDFProcessor.process_pdf_bytes] *)
Definition process_pdf_bytes (fuel : nat) (R : Runtime) (P : PDFProcessor) (f : pdf)
    : option (list chunk) :=
  chunk_pages fuel P (extract_text_from_pdf R f).

(* ===================================================================== *)
(** * numpy float32 vectors                                               *)
(* ===================================================================== *)

Definition float32 := spec_float.

Definition f32_zero : float32 := S754_zero false.
Definition f32_add : float32 -> float32 -> float32 := SFadd 24 128.
Definition f32_mul : float32 -> float32 -> float32 := SFmul 24 128.
Definition f32_div : float32 -> float32 -> float32 := SFdiv 24 128.
Definition f32_sqrt : float32 -> float32 := SFsqrt 24 128.
Definition f32_ltb : float32 -> float32 -> bool := SFltb.

Definition is_nan (x : float32) : bool :=
  match x with S754_nan => true | _ => false end.

Definition is_zero (x : float32) : bool :=
  match x with S754_zero _ => true | _ => false end.

Definition is_infinite (x : float32) : bool :=
  match x with S754_infinity _ => true | _ => false end.

Definition embedding := list float32.

(** [np.zeros(n, dtype=np.float32)] *)
Definition np_zeros (n : nat) : embedding := repeat f32_zero n.

(** The sum of products, accumulated from the left in float32 (a BLAS
    kernel may add the products in another order). *)
Fixpoint dot_from (acc : float32) (a b : embedding) : float32 :=
  match a, b with
  | x :: a', y :: b' => dot_from (f32_add acc (f32_mul x y)) a' b'
  | _, _ => acc
  end.

(** [np.dot(a, b)] on one-dimensional arrays; [None] is the [ValueError]
    for shapes that are not aligned. *)
Definition np_dot (a b : embedding) : option float32 :=
  if Nat.eqb (List.length a) (List.length b) then Some (dot_from f32_zero a b) else None.

(** [np.linalg.norm(x)]: [sqrt(x.dot(x))], in float32. *)
Definition np_linalg_norm (x : embedding) : float32 :=
  f32_sqrt (dot_from f32_zero x x).

(* ===================================================================== *)
(** * EmbeddingGenerator                                                  *)
(* ===================================================================== *)

(** [model_encode t] is [self.model.encode(t, convert_to_numpy=True)], with
    [None] when the call raises. *)
Record EmbeddingGenerator := {
  model_encode : text -> option embedding;
  embedding_dim : nat
}.

(** [EmbeddingGenerator()] around a loaded model. *)
Definition new_embedding_generator (encode : text -> option embedding)
    : EmbeddingGenerator :=
  {| model_encode := encode; embedding_dim := 384 |}.

(** [EmbeddingGenerator.generate_embedding] *)
Definition generate_embedding (G : EmbeddingGenerator) (t : text) : embedding :=
  match model_encode G t with
  | Some e => e
  | None => np_zeros (embedding_dim G)
  end.

(** [self.model.encode(batch, ...)]: one row per text, and the call raises
    when the model fails on one of them.  The model is taken to give a text
    the same row in a batch as alone. *)
Fixpoint encode_batch (G : EmbeddingGenerator) (batch : list text)
    : option (list embedding) :=
  match batch with
  | [] => Some []
  | t :: rest =>
      match model_encode G t, encode_batch G rest with
      | Some e, Some es => Some (e :: es)
      | _, _ => None
      end
  end.

(** The [for i in range(0, len(texts), batch_size)] loop; [n] bounds the
    number of batches. *)
Fixpoint encode_batches (n : nat) (G : EmbeddingGenerator) (batch_size : nat)
    (texts : list text) : option (list embedding) :=
  match texts, n with
  | [], _ => Some []
  | _ :: _, O => Some []
  | _ :: _, S n' =>
      match encode_batch G (firstn batch_size texts) with
      | None => None
      | Some es =>
          match encode_batches n' G batch_size (skipn batch_size texts) with
          | None => None
          | Some more => Some (es ++ more)
          end
      end
  end.

(** [EmbeddingGenerator.generate_embeddings_batch(texts)], [batch_size] 32 *)
Definition generate_embeddings_batch (G : EmbeddingGenerator) (texts : list text)
    : list embedding :=
  match encode_batches (List.length texts) G 32 texts with
  | Some es => es
  | None => map (fun _ => np_zeros (embedding_dim G)) texts
  end.

(* ===================================================================== *)
(** * The database                                                        *)
(* ===================================================================== *)

Definition json := list (text * text).

(** A row of [policy_documents]. *)
Record document_row := {
  d_id : Z;
  d_document_name : text;
  d_document_hash : N;
  d_upload_date : Z;
  d_total_chunks : Z;
  d_metadata : json
}.

(** A row of [policy_chunks]; [r_embedding] is the array whose bytes the
    BYTEA column holds ([tobytes] and [frombuffer] are inverse). *)
Record chunk_row := {
  r_id : Z;
  r_document_id : Z;
  r_chunk_index : Z;
  r_chunk_text : text;
  r_page_number : Z;
  r_start_char : Z;
  r_end_char : Z;
  r_embedding : embedding;
  r_created_at : Z
}.

(** Both tables, rows in the order of their insertion. *)
Record tables := {
  policy_documents : list document_row;
  policy_chunks : list chunk_row
}.

(** The committed tables and the two SERIAL sequences.  A sequence is not
    transactional: a value drawn by a transaction that rolls back is lost. *)
Record database := {
  stored : tables;
  documents_id_seq : Z;
  chunks_id_seq : Z
}.

(** What the server does during one call: which statements fail with a
    psycopg2 error, and the value of CURRENT_TIMESTAMP. *)
Record Server := {
  connect_fails : bool;
  select_fails : bool;
  insert_document_fails : bool;
  insert_chunks_fails : bool;
  commit_fails : bool;
  current_timestamp : Z
}.

Inductive exn :=
| OperationalError
| NotNullViolation
| StringDataRightTruncation
| UniqueViolation
| ForeignKeyViolation
| UnicodeEncodeError
| ValueError
| DataError
| PlainException (message : string).

(** The calls one operation makes, in order. *)
Inductive event :=
| EvChunk (chunks : nat)
| EvHash
| EvSelect
| EvEmbed (texts : nat)
| EvInsertDocument
| EvInsertChunks (rows : nat)
| EvCommit
| EvRollback.

(** The database, the view of the open connection and the calls so far. *)
Record world := {
  w_db : database;
  w_view : tables;
  w_trace : list event
}.

(** How a call ends: it returns, it raises, or it never comes back. *)
Inductive res (A : Type) :=
| Returned (a : A)
| Raised (e : exn)
| Diverged.

Arguments Returned {A} a.
Arguments Raised {A} e.
Arguments Diverged {A}.

Definition M (A : Type) : Type := world -> res A * world.

Definition ret {A} (a : A) : M A := fun w => (Returned a, w).

Definition bind {A B} (m : M A) (k : A -> M B) : M B :=
  fun w =>
    match m w with
    | (Returned a, w') => k a w'
    | (Raised e, w') => (Raised e, w')
    | (Diverged, w') => (Diverged, w')
    end.

Definition raise {A} (e : exn) : M A := fun w => (Raised e, w).

Definition diverge {A} : M A := fun w => (Diverged, w).

Definition emit (ev : event) : M unit :=
  fun w => (Returned tt, {| w_db := w_db w; w_view := w_view w;
                            w_trace := w_trace w ++ [ev] |}).

Declare Scope rag_scope.
Delimit Scope rag_scope with rag.
Notation "x <- m ;; k" := (bind m (fun x => k))
  (at level 61, m at next level, right associativity) : rag_scope.
Notation "m ;;; k" := (bind m (fun _ => k))
  (at level 61, right associativity) : rag_scope.
Local Open Scope rag_scope.

(** A chunker result inside a call: no result is a call that hangs. *)
Definition chunked {A} (r : option A) : M A :=
  match r with
  | Some a => ret a
  | None => diverge
  end.

(** [psycopg2.connect]: the connection sees the committed tables. *)
Definition open_connection (w : world) : world :=
  {| w_db := w_db w; w_view := stored (w_db w); w_trace := w_trace w |}.

(** [conn.commit()] *)
Definition commit (S : Server) : M unit :=
  fun w =>
    if commit_fails S then (Raised OperationalError, w)
    else (Returned tt,
          {| w_db := {| stored := w_view w;
                        documents_id_seq := documents_id_seq (w_db w);
                        chunks_id_seq := chunks_id_seq (w_db w) |};
             w_view := w_view w;
             w_trace := w_trace w ++ [EvCommit] |}).

(** [conn.rollback()], and what closing a connection does to changes that
    were not committed. *)
Definition rollback (w : world) : world :=
  {| w_db := w_db w; w_view := stored (w_db w); w_trace := w_trace w ++ [EvRollback] |}.

Definition close_connection (w : world) : world :=
  {| w_db := w_db w; w_view := stored (w_db w); w_trace := w_trace w |}.

(** [SELECT id, total_chunks FROM policy_documents WHERE document_hash = %s]
    and [fetchone]. *)
Definition select_document_by_hash (S : Server) (h : N) : M (option document_row) :=
  fun w =>
    if select_fails S then (Raised OperationalError, w)
    else (Returned (find (fun d => N.eqb (d_document_hash d) h) (policy_documents (w_view w))),
          {| w_db := w_db w; w_view := w_view w; w_trace := w_trace w ++ [EvSelect] |}).

(** Storing [s] in a VARCHAR([n]) column: characters beyond [n] must all be
    spaces, and are then cut off. *)
Definition varchar (n : nat) (s : text) : option text :=
  if forallb (N.eqb 32) (skipn n s) then Some (firstn n s) else None.

(** [text.encode('utf-8')] raises on a surrogate. *)
Definition utf8_encodable (t : text) : bool :=
  forallb (fun c => negb ((55296 <=? c) && (c <=? 57343))%N) t.

(** What psycopg2 does with a [str] parameter before a statement is sent:
    it encodes the string for the connection, which is UTF-8, and it
    refuses a string with a NUL character.  [None] is a string that goes
    through. *)
Definition adapt (s : text) : option exn :=
  if negb (utf8_encodable s) then Some UnicodeEncodeError
  else if existsb (N.eqb 0) s then Some ValueError
  else None.

Definition is_high_surrogate (c : char) : bool := ((55296 <=? c) && (c <=? 56319))%N.
Definition is_low_surrogate (c : char) : bool := ((56320 <=? c) && (c <=? 57343))%N.

(** What the input function of [jsonb] makes of a string of the document
    that [json.dumps] has written, with an escape for every character
    outside ASCII: it refuses the escape of NUL and a surrogate that is not
    half of a pair, and it reads a pair as the one character it stands
    for. *)
Fixpoint jsonb_string (s : text) : option text :=
  match s with
  | [] => Some []
  | c :: r =>
      if (c =? 0)%N then None
      else if is_high_surrogate c then
        match r with
        | l :: r' =>
            if is_low_surrogate l
            then option_map (cons (65536 + (c - 55296) * 1024 + (l - 56320))%N)
                            (jsonb_string r')
            else None
        | [] => None
        end
      else if is_low_surrogate c then None
      else option_map (cons c) (jsonb_string r)
  end.

Definition text_eqb (a b : text) : bool :=
  if list_eq_dec N.eq_dec a b then true else false.

(** The object that [jsonb] stores for a dictionary, [None] when it refuses
    one of the keys or values.  Of two entries that come under the same key
    it keeps the later one.  The list stands for the object: [jsonb] keeps
    the keys in an order of its own. *)
Fixpoint jsonb_object (m : json) : option json :=
  match m with
  | [] => Some []
  | (k, v) :: rest =>
      match jsonb_string k, jsonb_string v, jsonb_object rest with
      | Some k', Some v', Some rest' =>
          Some (if existsb (fun kv => text_eqb (fst kv) k') rest' then rest'
                else (k', v') :: rest')
      | _, _, _ => None
      end
  end.

(** [INSERT INTO policy_documents (...) VALUES (...) RETURNING id].  The
    name is adapted before the statement is sent.  The server reads the
    metadata and cuts the name while it prepares the statement; it draws the
    identifier when it runs it, and only then looks at NOT NULL and at the
    keys, so that an identifier drawn for a row that is refused is lost. *)
Definition insert_document (S : Server) (document_name : option text) (h : N)
    (total_chunks : Z) (metadata : json) : M Z :=
  fun w =>
    match match document_name with Some name => adapt name | None => None end with
    | Some e => (Raised e, w)
    | None =>
        if insert_document_fails S then (Raised OperationalError, w)
        else
          match jsonb_object metadata with
          | None => (Raised DataError, w)
          | Some metadata' =>
              let id := documents_id_seq (w_db w) in
              let db' := {| stored := stored (w_db w);
                            documents_id_seq := id + 1;
                            chunks_id_seq := chunks_id_seq (w_db w) |} in
              match document_name with
              | None =>
                  (Raised NotNullViolation,
                   {| w_db := db'; w_view := w_view w; w_trace := w_trace w |})
              | Some name =>
                  match varchar 255 name with
                  | None => (Raised StringDataRightTruncation, w)
                  | Some name' =>
                      if existsb (fun d => N.eqb (d_document_hash d) h || (d_id d =? id))
                                 (policy_documents (w_view w))
                      then (Raised UniqueViolation,
                            {| w_db := db'; w_view := w_view w; w_trace := w_trace w |})
                      else
                        let row := {| d_id := id; d_document_name := name';
                                      d_document_hash := h;
                                      d_upload_date := current_timestamp S;
                                      d_total_chunks := total_chunks;
                                      d_metadata := metadata' |} in
                        (Returned id,
                         {| w_db := db';
                            w_view := {| policy_documents :=
                                           policy_documents (w_view w) ++ [row];
                                         policy_chunks := policy_chunks (w_view w) |};
                            w_trace := w_trace w ++ [EvInsertDocument] |})
                  end
              end
          end
    end.

(** A tuple of [chunk_records]. *)
Record chunk_record := {
  k_document_id : Z;
  k_chunk_index : Z;
  k_text : text;
  k_page_number : Z;
  k_start_char : Z;
  k_end_char : Z;
  k_embedding : embedding
}.

(** One row of the batch goes into the view, under the constraints of
    [policy_chunks]. *)
Definition insert_chunk_row (S : Server) (k : chunk_record) : M unit :=
  fun w =>
    let id := chunks_id_seq (w_db w) in
    let db' := {| stored := stored (w_db w);
                  documents_id_seq := documents_id_seq (w_db w);
                  chunks_id_seq := id + 1 |} in
    let w' := {| w_db := db'; w_view := w_view w; w_trace := w_trace w |} in
    if existsb (fun r => ((r_document_id r =? k_document_id k)
                          && (r_chunk_index r =? k_chunk_index k))
                         || (r_id r =? id))
               (policy_chunks (w_view w))
    then (Raised UniqueViolation, w')
    else if negb (existsb (fun d => d_id d =? k_document_id k) (policy_documents (w_view w)))
    then (Raised ForeignKeyViolation, w')
    else
      let row := {| r_id := id; r_document_id := k_document_id k;
                    r_chunk_index := k_chunk_index k; r_chunk_text := k_text k;
                    r_page_number := k_page_number k;
                    r_start_char := k_start_char k; r_end_char := k_end_char k;
                    r_embedding := k_embedding k;
                    r_created_at := current_timestamp S |} in
      (Returned tt,
       {| w_db := db';
          w_view := {| policy_documents := policy_documents (w_view w);
                       policy_chunks := policy_chunks (w_view w) ++ [row] |};
          w_trace := w_trace w |}).

Fixpoint insert_chunk_rows (S : Server) (records : list chunk_record) : M unit :=
  match records with
  | [] => ret tt
  | k :: rest => insert_chunk_row S k ;;; insert_chunk_rows S rest
  end.

(** The first row of a page whose text psycopg2 cannot adapt. *)
Fixpoint refused (page : list chunk_record) : option exn :=
  match page with
  | [] => None
  | k :: rest =>
      match adapt (k_text k) with
      | Some e => Some e
      | None => refused rest
      end
  end.

(** The loop of [execute_values] over pages of 100 rows: every row of a
    page is adapted before the statement for the page is sent, so that a
    text that cannot be adapted stops the call before any row of its page
    is inserted.  [n] bounds the number of pages. *)
Fixpoint insert_pages (n : nat) (S : Server) (records : list chunk_record) : M unit :=
  match records, n with
  | [], _ => ret tt
  | _ :: _, O => ret tt
  | _ :: _, S n' =>
      match refused (firstn 100 records) with
      | Some e => raise e
      | None =>
          if insert_chunks_fails S then raise OperationalError
          else insert_chunk_rows S (firstn 100 records) ;;;
               insert_pages n' S (skipn 100 records)
      end
  end.

(** [execute_values(cur, "INSERT INTO policy_chunks ... VALUES %s", chunk_records)] *)
Definition insert_chunks (S : Server) (records : list chunk_record) : M unit :=
  insert_pages (List.length records) S records ;;;
  emit (EvInsertChunks (List.length records)).

(* ===================================================================== *)
(** * PolicyWordingRAG                                                    *)
(* ===================================================================== *)

Record PolicyWordingRAG := {
  runtime : Runtime;
  embedding_generator : EmbeddingGenerator;
  pdf_processor : PDFProcessor
}.

(** [PolicyWordingRAG()] once the model is loaded and the tables exist. *)
Definition new_rag (R : Runtime) (encode : text -> option embedding) : PolicyWordingRAG :=
  {| runtime := R;
     embedding_generator := new_embedding_generator encode;
     pdf_processor := default_processor |}.

(** [PolicyWordingRAG._compute_document_hash] *)
Definition compute_document_hash (R : Runtime) (t : text) : M N :=
  if utf8_encodable t then emit EvHash ;;; ret (sha256 R t)
  else raise UnicodeEncodeError.

(** Truth value of an optional string or bytes argument. *)
Definition given (document_text : option text) : option text :=
  match document_text with
  | Some (c :: r) => Some (c :: r)
  | _ => None
  end.

(** The loop that builds [chunk_records]: [zip] stops at the shorter list. *)
Fixpoint chunk_records (document_id : Z) (chunks_data : list chunk)
    (embeddings : list embedding) : list chunk_record :=
  match chunks_data, embeddings with
  | c :: cs, e :: es =>
      {| k_document_id := document_id;
         k_chunk_index := c_chunk_index c;
         k_text := c_text c;
         k_page_number := c_page_number c;
         k_start_char := c_start_char c;
         k_end_char := c_end_char c;
         k_embedding := e |} :: chunk_records document_id cs es
  | _, _ => []
  end.

(** The first branch of the [try] block: where the chunks and the hashed
    text come from. *)
Definition chunk_source (fuel : nat) (rag : PolicyWordingRAG)
    (document_text : option text) (pdf_bytes : option pdf) : M (list chunk * text) :=
  match pdf_bytes, given document_text with
  | Some f, None =>
      chunks_data <- chunked (process_pdf_bytes fuel (runtime rag) (pdf_processor rag) f) ;;
      emit (EvChunk (List.length chunks_data)) ;;;
      match chunks_data with
      | [] => raise (PlainException "Failed to extract text from PDF")
      | _ :: _ => ret (chunks_data, join [32%N] (map c_text chunks_data))
      end
  | _, Some t =>
      chunks_data <- chunked (chunk_text fuel (pdf_processor rag) t 1) ;;
      emit (EvChunk (List.length chunks_data)) ;;;
      ret (chunks_data, t)
  | None, None =>
      raise (PlainException "Either document_text or pdf_bytes must be provided")
  end.

(** The body of the [try] block of [add_policy_document]. *)
Definition add_policy_document_body (fuel : nat) (rag : PolicyWordingRAG) (S : Server)
    (document_text document_name : option text) (pdf_bytes : option pdf)
    (metadata : option json) : M (Z * Z) :=
  source <- chunk_source fuel rag document_text pdf_bytes ;;
  let chunks_data := fst source in
  doc_hash <- compute_document_hash (runtime rag) (snd source) ;;
  existing <- select_document_by_hash S doc_hash ;;
  match existing with
  | Some row => ret (d_id row, d_total_chunks row)
  | None =>
      let chunk_texts := map c_text chunks_data in
      let embeddings := generate_embeddings_batch (embedding_generator rag) chunk_texts in
      emit (EvEmbed (List.length chunk_texts)) ;;;
      document_id <- insert_document S document_name doc_hash (len chunks_data)
                       (match metadata with Some m => m | None => [] end) ;;
      insert_chunks S (chunk_records document_id chunks_data embeddings) ;;;
      commit S ;;;
      ret (document_id, len chunks_data)
  end.

(** [PolicyWordingRAG.add_policy_document]: the connection, the [try] block,
    [except: conn.rollback(); raise] and [finally: conn.close()]. *)
Definition add_policy_document (fuel : nat) (rag : PolicyWordingRAG) (S : Server)
    (document_text document_name : option text) (pdf_bytes : option pdf)
    (metadata : option json) : M (Z * Z) :=
  fun w =>
    if connect_fails S then (Raised OperationalError, w)
    else
      match add_policy_document_body fuel rag S document_text document_name
              pdf_bytes metadata (open_connection w) with
      | (Returned r, w') => (Returned r, close_connection w')
      | (Raised e, w') => (Raised e, close_connection (rollback w'))
      | (Diverged, w') => (Diverged, close_connection w')
      end.

(** A database as a world with no connection open. *)
Definition at_rest (db : database) : world :=
  {| w_db := db; w_view := stored db; w_trace := [] |}.

(** ** Similarity search *)

(** An entry of the list [search_similar_chunks] returns. *)
Record scored_chunk := {
  s_chunk_id : Z;
  s_document_id : Z;
  s_document_name : text;
  s_chunk_index : Z;
  s_chunk_text : text;
  s_page_number : Z;
  s_start_char : Z;
  s_end_char : Z;
  s_similarity_score : float32
}.

(** [policy_chunks pc JOIN policy_documents pd ON pc.document_id = pd.id]
    under the two optional conditions, rows in the order of [policy_chunks]. *)
Definition select_chunks (t : tables) (document_id : option Z) (min_page : Z)
    : list (chunk_row * document_row) :=
  flat_map
    (fun r =>
       if ((min_page <=? 0) || (min_page <? r_page_number r))
          && (match document_id with
              | Some d => (d =? 0) || (r_document_id r =? d)
              | None => true
              end)
       then map (fun d => (r, d))
                (filter (fun d => d_id d =? r_document_id r) (policy_documents t))
       else [])
    (policy_chunks t).

(** The cosine similarity of the loop body; [None] when [np.dot] raises.
    The score stays a float32 here: [float(similarity)] widens it to a
    Python float without changing its value or its order. *)
Definition similarity (query_embedding : embedding) (query_norm : float32)
    (stored_embedding : embedding) : option float32 :=
  let stored_norm := np_linalg_norm stored_embedding in
  if f32_ltb f32_zero stored_norm && f32_ltb f32_zero query_norm then
    match np_dot query_embedding stored_embedding with
    | Some d => Some (f32_div d (f32_mul query_norm stored_norm))
    | None => None
    end
  else Some f32_zero.

(** The [for row in results] loop; [None] when an iteration raises. *)
Fixpoint score_rows (query_embedding : embedding) (query_norm : float32)
    (results : list (chunk_row * document_row)) : option (list scored_chunk) :=
  match results with
  | [] => Some []
  | (r, d) :: rest =>
      match similarity query_embedding query_norm (r_embedding r),
            score_rows query_embedding query_norm rest with
      | Some s, Some more =>
          Some ({| s_chunk_id := r_id r;
                   s_document_id := r_document_id r;
                   s_document_name := d_document_name d;
                   s_chunk_index := r_chunk_index r;
                   s_chunk_text := r_chunk_text r;
                   s_page_number := r_page_number r;
                   s_start_char := r_start_char r;
                   s_end_char := r_end_char r;
                   s_similarity_score := s |} :: more)
      | _, _ => None
      end
  end.

(** [list.sort(key=..., reverse=True)] as a stable insertion sort that, like
    CPython, only asks whether one key is less than another.  An item goes
    in front of the first item whose key is not greater than its own.  With
    keys that can all be compared this is the order CPython gives; with a
    NaN among them the order depends on which pairs are compared, and
    CPython compares others. *)
Fixpoint insert_desc {A} (key : A -> float32) (x : A) (l : list A) : list A :=
  match l with
  | [] => [x]
  | y :: r => if f32_ltb (key x) (key y) then y :: insert_desc key x r else x :: l
  end.

Definition sort_desc {A} (key : A -> float32) (l : list A) : list A :=
  fold_right (insert_desc key) [] l.

(** [PolicyWordingRAG.search_similar_chunks]: every exception inside the
    [try] block becomes the empty list. *)
Definition search_similar_chunks (rag : PolicyWordingRAG) (S : Server)
    (query : text) (top_k : Z) (document_id : option Z) (min_page : Z)
    (db : database) : res (list scored_chunk) :=
  if connect_fails S then Raised OperationalError
  else
    let query_embedding := generate_embedding (embedding_generator rag) query in
    let query_norm := np_linalg_norm query_embedding in
    if select_fails S then Returned []
    else
      match select_chunks (stored db) document_id min_page with
      | [] => Returned []
      | results =>
          match score_rows query_embedding query_norm results with
          | None => Returned []
          | Some similarities =>
              Returned (slice (sort_desc s_similarity_score similarities) 0 top_k)
          end
      end.

(* ===================================================================== *)
(** * Concrete inputs                                                     *)
(* ===================================================================== *)

(** A runtime for examples: NFKD leaves ASCII text alone, [\w] is read on
    ASCII, and the digest is a polynomial stand-in. *)
Definition ascii_runtime : Runtime :=
  {| nfkd := fun t => t;
     isword := fun c => (((48 <=? c) && (c <=? 57)) || ((65 <=? c) && (c <=? 90))
                         || ((97 <=? c) && (c <=? 122)) || (c =? 95))%N;
     sha256 := fun t => fold_left (fun a c => (a * 131 + c + 1)%N) t 7%N |}.

(** A server on which every statement goes through. *)
Definition healthy : Server :=
  {| connect_fails := false; select_fails := false;
     insert_document_fails := false; insert_chunks_fails := false;
     commit_fails := false; current_timestamp := 0 |}.

(** The database right after [_initialize_database]. *)
Definition empty_database : database :=
  {| stored := {| policy_documents := []; policy_chunks := [] |};
     documents_id_seq := 1;
     chunks_id_seq := 1 |}.

(** The float32 nearest to [m * 2^e]. *)
Definition f32_of (m e : Z) : float32 := binary_normalize 24 128 m e false.

(** A heading, then two thousand letters without a sentence end. *)
Definition looping_text : text := str "A. " ++ repeat 98%N 2000.

(** A PDF of two short pages. *)
Definition two_page_pdf : pdf := Pages [str "A."; str "B."].

(** A model that maps a text to a vector of dimension 384 whose first
    component is the length of the text. *)
Definition length_model (t : text) : option embedding :=
  Some (f32_of (len t) 0 :: np_zeros 383).

(** A model that is out of order. *)
Definition broken_model (t : text) : option embedding := None.

(** A short policy text and a name for it. *)
Definition hello_text : text := str "Hello. World.".
Definition policy_name : text := str "policy".

(** The default system around [length_model]. *)
Definition example_rag : PolicyWordingRAG := new_rag ascii_runtime length_model.

(** The same system with a model that fails. *)
Definition degraded_rag : PolicyWordingRAG := new_rag ascii_runtime broken_model.

(** The world after "Hello. World." was ingested into the empty database,
    and the chunk row that this ingestion stores. *)
Definition hello_ingested : world :=
  snd (add_policy_document 1 example_rag healthy (Some hello_text)
         (Some policy_name) None None (at_rest empty_database)).

Definition hello_row : chunk_row :=
  {| r_id := 1; r_document_id := 1; r_chunk_index := 0;
     r_chunk_text := hello_text; r_page_number := 1;
     r_start_char := 0; r_end_char := 1500;
     r_embedding := f32_of 13 0 :: np_zeros 383;
     r_created_at := 0 |}.

(** The chunk of "Hello. World." as the chunker makes it. *)
Definition hello_chunk : chunk :=
  {| c_text := hello_text; c_page_number := 1; c_chunk_index := 0;
     c_start_char := 0; c_end_char := 1500 |}.



(** Two vectors of dimension 384 with one large component each: [2^63] and
    [2^127]. *)
Definition large_query : embedding := f32_of 1 63 :: np_zeros 383.
Definition huge_stored : embedding := f32_of 1 127 :: np_zeros 383.

(** Two unit-scale vectors: [(1, 1, 0, ...)] and [(1, 0, 0, ...)]. *)
Definition diagonal_stored : embedding := f32_of 1 0 :: f32_of 1 0 :: np_zeros 382.
Definition axis_stored : embedding := f32_of 1 0 :: np_zeros 383.

(** A stored chunk with a given id, index and embedding, in document 1. *)
Definition stored_chunk (id index : Z) (e : embedding) : chunk_row :=
  {| r_id := id; r_document_id := 1; r_chunk_index := index;
     r_chunk_text := str "clause"; r_page_number := 1;
     r_start_char := 0; r_end_char := 1500;
     r_embedding := e; r_created_at := 0 |}.

Definition one_document : list document_row :=
  [ {| d_id := 1; d_document_name := policy_name; d_document_hash := 0%N;
       d_upload_date := 0; d_total_chunks := 3; d_metadata := [] |} ].

(** A database of two chunks, retrieved in the order diagonal, axis. *)
Definition small_database : database :=
  {| stored := {| policy_documents := one_document;
                  policy_chunks := [stored_chunk 1 0 diagonal_stored;
                                    stored_chunk 2 1 axis_stored] |};
     documents_id_seq := 2;
     chunks_id_seq := 3 |}.

(** A database of three chunks, retrieved in the order diagonal, huge, axis. *)
Definition overflow_database : database :=
  {| stored := {| policy_documents := one_document;
                  policy_chunks := [stored_chunk 1 0 diagonal_stored;
                                    stored_chunk 2 1 huge_stored;
                                    stored_chunk 3 2 axis_stored] |};
     documents_id_seq := 2;
     chunks_id_seq := 4 |}.

(** A model that embeds every query as [large_query], and one that embeds
    every query as [axis_stored]. *)
Definition large_query_rag : PolicyWordingRAG :=
  new_rag ascii_runtime (fun _ => Some large_query).

Definition axis_query_rag : PolicyWordingRAG :=
  new_rag ascii_runtime (fun _ => Some axis_stored).

(* ===================================================================== *)
(** * Notions used in the statements                                      *)
(* ===================================================================== *)

(** The world after some more calls were recorded. *)
Definition logged (evs : list event) (w : world) : world :=
  {| w_db := w_db w; w_view := w_view w; w_trace := w_trace w ++ evs |}.

(** What [chunk_source] computes, apart from the record of the call. *)
Definition source_chunks (fuel : nat) (rag : PolicyWordingRAG)
    (document_text : option text) (pdf_bytes : option pdf) : res (list chunk * text) :=
  match pdf_bytes, given document_text with
  | Some f, None =>
      match process_pdf_bytes fuel (runtime rag) (pdf_processor rag) f with
      | None => Diverged
      | Some [] => Raised (PlainException "Failed to extract text from PDF")
      | Some (c :: cs) => Returned (c :: cs, join [32%N] (map c_text (c :: cs)))
      end
  | _, Some t =>
      match chunk_text fuel (pdf_processor rag) t 1 with
      | None => Diverged
      | Some cs => Returned (cs, t)
      end
  | None, None =>
      Raised (PlainException "Either document_text or pdf_bytes must be provided")
  end.

(** The calls [chunk_source] records. *)
Definition source_events (fuel : nat) (rag : PolicyWordingRAG)
    (document_text : option text) (pdf_bytes : option pdf) : list event :=
  match pdf_bytes, given document_text with
  | Some f, None =>
      match process_pdf_bytes fuel (runtime rag) (pdf_processor rag) f with
      | None => []
      | Some cs => [EvChunk (List.length cs)]
      end
  | _, Some t =>
      match chunk_text fuel (pdf_processor rag) t 1 with
      | None => []
      | Some cs => [EvChunk (List.length cs)]
      end
  | None, None => []
  end.

(** The rows a batch of [chunk_records] becomes, ids drawn from [first_id]. *)
Fixpoint rows_of (S : Server) (first_id : Z) (records : list chunk_record)
    : list chunk_row :=
  match records with
  | [] => []
  | k :: rest =>
      {| r_id := first_id; r_document_id := k_document_id k;
         r_chunk_index := k_chunk_index k; r_chunk_text := k_text k;
         r_page_number := k_page_number k;
         r_start_char := k_start_char k; r_end_char := k_end_char k;
         r_embedding := k_embedding k;
         r_created_at := current_timestamp S |} :: rows_of S (first_id + 1) rest
  end.

(** The document with digest [h] that the SELECT of the ingestion finds. *)
Definition document_with_hash (h : N) (t : tables) : option document_row :=
  find (fun d => N.eqb (d_document_hash d) h) (policy_documents t).

(** The object that is stored for the [metadata] of a call. *)
Definition stored_metadata (metadata : option json) : json :=
  match jsonb_object (match metadata with Some m => m | None => [] end) with
  | Some m => m
  | None => []
  end.

(** The ways a call of [add_policy_document] on [w] can end in [(r, w')]. *)

(** Nothing was returned and the committed tables are as before. *)
Definition ends_failed (w : world) (r : res (Z * Z)) (w' : world) : Prop :=
  (forall v, r <> Returned v) /\
  stored (w_db w') = stored (w_db w) /\
  exists evs, w_trace w' = w_trace w ++ evs /\ ~ In EvCommit evs.

(** The digest was found: the stored identifier and count come back, and
    nothing at all changes in the database. *)
Definition ends_reused (fuel : nat) (rag : PolicyWordingRAG)
    (document_text : option text) (pdf_bytes : option pdf)
    (w : world) (r : res (Z * Z)) (w' : world) : Prop :=
  exists cs txt row,
    source_chunks fuel rag document_text pdf_bytes = Returned (cs, txt) /\
    utf8_encodable txt = true /\
    document_with_hash (sha256 (runtime rag) txt) (stored (w_db w)) = Some row /\
    r = Returned (d_id row, d_total_chunks row) /\
    w_db w' = w_db w /\
    w_trace w' = w_trace w ++ [EvChunk (List.length cs); EvHash; EvSelect].

(** The digest was new: one document row and one chunk row per chunk were
    committed together. *)
Definition ends_inserted (fuel : nat) (rag : PolicyWordingRAG) (S : Server)
    (document_text : option text) (pdf_bytes : option pdf) (metadata : option json)
    (w : world) (r : res (Z * Z)) (w' : world) : Prop :=
  exists cs txt name,
    source_chunks fuel rag document_text pdf_bytes = Returned (cs, txt) /\
    utf8_encodable txt = true /\
    document_with_hash (sha256 (runtime rag) txt) (stored (w_db w)) = None /\
    let id := documents_id_seq (w_db w) in
    let embeddings := generate_embeddings_batch (embedding_generator rag) (map c_text cs) in
    let records := chunk_records id cs embeddings in
    r = Returned (id, len cs) /\
    NoDup (map c_chunk_index cs) /\
    policy_documents (stored (w_db w')) =
      policy_documents (stored (w_db w)) ++
      [ {| d_id := id; d_document_name := name;
           d_document_hash := sha256 (runtime rag) txt;
           d_upload_date := current_timestamp S;
           d_total_chunks := len cs;
           d_metadata := stored_metadata metadata |} ] /\
    policy_chunks (stored (w_db w')) =
      policy_chunks (stored (w_db w)) ++ rows_of S (chunks_id_seq (w_db w)) records /\
    w_trace w' = w_trace w ++
      [EvChunk (List.length cs); EvHash; EvSelect; EvEmbed (List.length cs);
       EvInsertDocument; EvInsertChunks (List.length records); EvCommit].


(** A finite float32 does not go below the least exponent of the format. *)
Definition exponent_in_range (x : float32) : Prop :=
  match x with
  | S754_finite _ _ e => -149 <= e
  | _ => True
  end.

(** A float32 that is greater than zero: positive and finite, or [+inf]. *)
Definition is_positive (x : float32) : Prop :=
  match x with
  | S754_finite false _ _ | S754_infinity false => True
  | _ => False
  end.

(** The norm of the least positive float32, [2^-149]. *)
Definition least_norm : float32 := f32_sqrt (S754_finite false 1 (-149)).

(** What the norm of a vector is when it is greater than zero: [+inf], the
    least norm, or a float32 of magnitude [2^-74] or more. *)
Definition positive_norm (x : float32) : Prop :=
  x = S754_infinity false \/
  x = least_norm \/
  exists m e, x = S754_finite false m e /\ -73 <= Zpos (digits2_pos m) + e.

(** A position on the number line for every float32 that is not NaN (the
    two zeros share theirs): the class of the number, then exponent and
    mantissa, both negated below zero. *)
Definition f32_rank (x : float32) : Z * Z * Z :=
  match x with
  | S754_nan => (3, 0, 0)
  | S754_infinity true => (-2, 0, 0)
  | S754_infinity false => (2, 0, 0)
  | S754_zero _ => (0, 0, 0)
  | S754_finite true m e => (-1, - e, - Zpos m)
  | S754_finite false m e => (1, e, Zpos m)
  end.

Definition lex_lt (a b : Z * Z * Z) : Prop :=
  let '(a1, a2, a3) := a in
  let '(b1, b2, b3) := b in
  a1 < b1 \/ (a1 = b1 /\ (a2 < b2 \/ (a2 = b2 /\ a3 < b3))).

(** The items of a list with their positions, counted from [i]. *)
Fixpoint number_from {A} (i : nat) (l : list A) : list (nat * A) :=
  match l with
  | [] => []
  | x :: r => (i, x) :: number_from (S i) r
  end.

(** [a] is ranked before [b]: its key is greater, or the keys tie and [a]
    was retrieved first. *)
Definition ranks_before {A} (key : A -> float32) (a b : nat * A) : Prop :=
  f32_ltb (key (snd b)) (key (snd a)) = true \/
  (f32_ltb (key (snd a)) (key (snd b)) = false /\
   f32_ltb (key (snd b)) (key (snd a)) = false /\
   (fst a < fst b)%nat).

(** The candidate and the entry scored for it. *)
Definition scored_for (query_embedding : embedding) (cand : chunk_row * document_row)
    (s : scored_chunk) : Prop :=
  s_chunk_id s = r_id (fst cand) /\
  s_chunk_text s = r_chunk_text (fst cand) /\
  s_document_name s = d_document_name (snd cand) /\
  similarity query_embedding (np_linalg_norm query_embedding) (r_embedding (fst cand))
    = Some (s_similarity_score s).

(** The character at position [i] of a text is a sentence terminator. *)
Definition terminator_at (t : text) (i : Z) : Prop :=
  exists c, nth_error t (Z.to_nat i) = Some c /\ (c = DOT \/ c = BANG \/ c = QUESTION).

(** The character at position [i] of a text is [c]. *)
Definition char_at (t : text) (i : Z) (c : char) : Prop :=
  nth_error t (Z.to_nat i) = Some c.

(** The chunks kept so far are numbered 0, 1, 2, ... and none is empty;
    each is the trimmed slice between its two offsets. *)
Definition well_numbered (t : text) (st : loop_state) : Prop :=
  ls_chunk_index st = len (ls_chunks st) /\
  forall i c, nth_error (ls_chunks st) i = Some c ->
    c_chunk_index c = Z.of_nat i /\ c_text c <> [] /\
    c_text c = strip (slice t (c_start_char c) (c_end_char c)).

(** No whitespace character is followed by another one. *)
Fixpoint single_spaced (t : text) : Prop :=
  match t with
  | a :: (b :: _) as r => (isspace a = true -> isspace b = false) /\ single_spaced r
  | _ => True
  end.

(** The identifiers in the tables were all drawn from the sequences, and
    every chunk belongs to a document that was. *)
Definition consistent (db : database) : Prop :=
  (forall d, In d (policy_documents (stored db)) -> d_id d < documents_id_seq db) /\
  (forall r, In r (policy_chunks (stored db)) ->
     r_id r < chunks_id_seq db /\ r_document_id r < documents_id_seq db).

(** No statement fails on the server. *)
Definition answers (S : Server) : Prop :=
  connect_fails S = false /\ select_fails S = false /\
  insert_document_fails S = false /\ insert_chunks_fails S = false /\
  commit_fails S = false.


(* ===================================================================== *)
(** * PolicyWordingRAG: context, deletion, statistics and listing         *)
(* ===================================================================== *)

From Stdlib Require Import DecimalString.

(** What the statements of these operations meet on the server: which of
    them fail with a psycopg2 error, the order in which the rows of
    [ORDER BY upload_date DESC] arrive (SQL leaves the order of rows with
    the same date open), and the Python float that
    [float(AVG(total_chunks))] is for a sum and a number of rows. *)
Record Backend := {
  delete_fails : bool;
  stats_fails : bool;
  list_fails : bool;
  order_by_upload_date_desc : list document_row -> list document_row;
  float_of_avg : Z -> Z -> spec_float
}.

(** Python formatting that stays abstract: the format specification
    [.3f] on a float and [datetime.strftime('%Y-%m-%d %H:%M:%S')]. *)
Record Formatter := {
  format_3f : float32 -> text;
  strftime : Z -> text
}.

(** An [int] field of an f-string: the decimal digits, with a sign below
    zero. *)
Definition format_int (i : Z) : text := str (NilZero.string_of_int (Z.to_int i)).

(** One element of [context_parts]. *)
Definition context_part (F : Formatter) (i : Z) (result : scored_chunk) : text :=
  str "[Chunk " ++ format_int i ++ str " - Page " ++ format_int (s_page_number result)
  ++ str ", Similarity: " ++ format_3f F (s_similarity_score result) ++ str "]"
  ++ [10%N] ++ s_chunk_text result.

(** The loop over [enumerate(results, 1)]; [i] is the number reached. *)
Fixpoint context_parts (F : Formatter) (i : Z) (results : list scored_chunk)
    : list text :=
  match results with
  | [] => []
  | result :: rest => context_part F i result :: context_parts F (i + 1) rest
  end.

(** [PolicyWordingRAG.get_context_for_query]: the search runs without a
    page filter, and every exception becomes the empty string. *)
Definition get_context_for_query (rag : PolicyWordingRAG) (S : Server) (F : Formatter)
    (query : text) (top_k : Z) (document_id : option Z) (db : database) : res text :=
  match search_similar_chunks rag S query top_k document_id 0 db with
  | Returned [] => Returned []
  | Returned results => Returned (join [10%N; 10%N] (context_parts F 1 results))
  | Raised _ => Returned []
  | Diverged => Diverged
  end.

(** [conn = self._get_connection()] and then
    [try: body / except Exception: conn.rollback(); ... / finally: conn.close()];
    [on_error] is what the handler does after the rollback. *)
Definition with_connection {A} (S : Server) (on_error : exn -> res A) (body : M A)
    : M A :=
  fun w =>
    if connect_fails S then (Raised OperationalError, w)
    else
      match body (open_connection w) with
      | (Returned r, w') => (Returned r, close_connection w')
      | (Raised e, w') => (on_error e, close_connection (rollback w'))
      | (Diverged, w') => (Diverged, close_connection w')
      end.

(** [DELETE FROM policy_documents] for the rows that [doomed] selects.  The
    chunks that reference a deleted row go with it (ON DELETE CASCADE); the
    value is [cur.rowcount], the number of deleted documents. *)
Definition delete_documents (B : Backend) (doomed : document_row -> bool) : M Z :=
  fun w =>
    if delete_fails B then (Raised OperationalError, w)
    else
      let gone := filter doomed (policy_documents (w_view w)) in
      (Returned (len gone),
       {| w_db := w_db w;
          w_view :=
            {| policy_documents :=
                 filter (fun d => negb (doomed d)) (policy_documents (w_view w));
               policy_chunks :=
                 filter (fun r => negb (existsb (fun d => d_id d =? r_document_id r) gone))
                        (policy_chunks (w_view w)) |};
          w_trace := w_trace w |}).

(** [PolicyWordingRAG.delete_document] *)
Definition delete_document (S : Server) (B : Backend) (document_id : Z) : M bool :=
  with_connection S (fun e => Raised e)
    (rowcount <- delete_documents B (fun d => d_id d =? document_id) ;;
     commit S ;;;
     ret (0 <? rowcount)).

(** [PolicyWordingRAG.clear_all_documents] *)
Definition clear_all_documents (S : Server) (B : Backend) : M bool :=
  with_connection S (fun _ => Returned false)
    (delete_documents B (fun _ => true) ;;;
     commit S ;;;
     ret true).

(** The dictionary [get_document_stats] returns. *)
Record document_stats := {
  total_documents : Z;
  total_chunks : Z;
  avg_chunks_per_document : spec_float
}.

(** [PolicyWordingRAG.get_document_stats]: there is no [except] clause, an
    error of the query leaves the method.  An average of zero is falsy and
    becomes the integer [0]. *)
Definition get_document_stats (S : Server) (B : Backend) (db : database)
    : res document_stats :=
  if connect_fails S then Raised OperationalError
  else if stats_fails B then Raised OperationalError
  else
    let rows := policy_documents (stored db) in
    let sum := fold_right Z.add 0 (map d_total_chunks rows) in
    Returned
      {| total_documents := len (nodup Z.eq_dec (map d_id rows));
         total_chunks := sum;
         avg_chunks_per_document :=
           if sum =? 0 then S754_zero false else float_of_avg B sum (len rows) |}.

(** A dictionary of the list [list_documents] returns. *)
Record listed_document := {
  l_id : Z;
  l_document_name : text;
  l_upload_date : text;
  l_total_chunks : Z;
  l_metadata : json
}.

(** The dictionary made from one row. *)
Definition listed (F : Formatter) (d : document_row) : listed_document :=
  {| l_id := d_id d;
     l_document_name := d_document_name d;
     l_upload_date := strftime F (d_upload_date d);
     l_total_chunks := d_total_chunks d;
     l_metadata := d_metadata d |}.

(** [PolicyWordingRAG.list_documents]: an error of the query becomes the
    empty list. *)
Definition list_documents (S : Server) (B : Backend) (F : Formatter) (db : database)
    : res (list listed_document) :=
  if connect_fails S then Raised OperationalError
  else if list_fails B then Returned []
  else Returned (map (listed F) (order_by_upload_date_desc B (policy_documents (stored db)))).

(* ===================================================================== *)
(** * analyze_claim_with_rag                                              *)
(* ===================================================================== *)

(** What the analysis takes from outside: the function that asks the
    language model, which returns a reply and an error of which one is
    [None], and the code that digs the JSON object out of a reply (the two
    [re.sub], the [re.search] and [json.loads]); [Returned None] is a reply
    without braces. *)
Record Assistant := {
  gemini_api_function : text -> res (option text * option text);
  parse_response : text -> res (option json)
}.

(** [d.get(key, default)] on a dictionary whose values are strings. *)
Definition dict_get (d : json) (key default : text) : text :=
  match find (fun kv => text_eqb (fst kv) key) d with
  | Some kv => snd kv
  | None => default
  end.

(** A string between double quotes. *)
Definition quoted (s : string) : text := [34%N] ++ str s ++ [34%N].

(** The f-string [prompt]. *)
Definition analysis_prompt (incident_desc context : text) : text :=
  str "You are an insurance policy analyst. Determine if the following incident is covered by the policy."
  ++ [10%N] ++ str "INCIDENT DESCRIPTION:" ++ [10%N]
  ++ incident_desc ++ [10%N; 10%N]
  ++ str "RELEVANT POLICY SECTIONS:" ++ [10%N]
  ++ context ++ [10%N; 10%N]
  ++ str "Provide your analysis in the following JSON format:" ++ [10%N]
  ++ str "{" ++ [10%N]
  ++ str "    " ++ quoted "is_covered" ++ str ": " ++ quoted "YES/NO/UNCLEAR"
  ++ str "," ++ [10%N]
  ++ str "    " ++ quoted "confidence" ++ str ": " ++ quoted "HIGH/MEDIUM/LOW"
  ++ str "," ++ [10%N]
  ++ str "    " ++ quoted "reasoning" ++ str ": "
  ++ quoted "brief explanation of why it is or isn't covered" ++ str "," ++ [10%N]
  ++ str "    " ++ quoted "relevant_policy_text" ++ str ": "
  ++ quoted "specific text from policy that supports your decision" ++ [10%N]
  ++ str "}" ++ [10%N; 10%N]
  ++ str "Return ONLY the JSON object, no markdown or extra text.".

(** What [analyze_claim_with_rag] returns: the analysis, or [None] with one
    of its messages ("Policy wording text is empty", "Policy wording text
    is too short", "No incident description found in claim", "Could not
    find relevant policy sections", "Gemini API error: ...", "Could not
    parse JSON from response: ...", "Analysis error: ..."). *)
Inductive analysis :=
| Analysed (analysis_result : json)
| PolicyWordingEmpty
| PolicyWordingTooShort
| NoIncidentDescription
| NoRelevantSections
| GeminiError (error : text)
| NoJsonInResponse
| AnalysisError.

(** The part of [analyze_claim_with_rag] after the context was found. *)
Definition ask_the_model (A : Assistant) (incident_desc context : text) : res analysis :=
  match gemini_api_function A (analysis_prompt incident_desc context) with
  | Returned (response_text, error) =>
      match given error, response_text with
      | Some error, _ => Returned (GeminiError error)
      | None, None => Returned AnalysisError
      | None, Some response_text =>
          match parse_response A response_text with
          | Returned (Some analysis_result) => Returned (Analysed analysis_result)
          | Returned None => Returned NoJsonInResponse
          | Raised _ => Returned AnalysisError
          | Diverged => Diverged
          end
      end
  | Raised _ => Returned AnalysisError
  | Diverged => Diverged
  end.

(** [analyze_claim_with_rag]; [S] is the server during the ingestion and
    [S'] the server during the search.  The calls of [st.write] are left
    out. *)
Definition analyze_claim_with_rag (fuel : nat) (claim_json : json)
    (policy_wording_text : text) (rag_system : PolicyWordingRAG) (S S' : Server)
    (F : Formatter) (A : Assistant) : M analysis :=
  fun w =>
    match policy_wording_text with
    | [] => (Returned PolicyWordingEmpty, w)
    | _ :: _ =>
        if len (strip policy_wording_text) <? 50
        then (Returned PolicyWordingTooShort, w)
        else
          match add_policy_document fuel rag_system S (Some policy_wording_text)
                  (Some (str "Current Policy Wording")) None
                  (Some [(str "claim_id",
                          dict_get claim_json (str "claim_number") (str "unknown"))])
                  w with
          | (Returned (doc_id, chunks), w') =>
              match dict_get claim_json (str "incident_description") [] with
              | [] => (Returned NoIncidentDescription, w')
              | incident_desc =>
                  match get_context_for_query rag_system S' F incident_desc 5
                          (Some doc_id) (w_db w') with
                  | Returned [] => (Returned NoRelevantSections, w')
                  | Returned context => (ask_the_model A incident_desc context, w')
                  | Raised _ => (Returned AnalysisError, w')
                  | Diverged => (Diverged, w')
                  end
              end
          | (Raised _, w') => (Returned AnalysisError, w')
          | (Diverged, w') => (Diverged, w')
          end
    end.

(* ===================================================================== *)
(** * More concrete inputs                                                *)
(* ===================================================================== *)

(** Rows by descending upload date, rows of the same date in table order. *)
Fixpoint insert_by_date (d : document_row) (rows : list document_row)
    : list document_row :=
  match rows with
  | [] => [d]
  | x :: rest =>
      if d_upload_date x <? d_upload_date d then d :: rows
      else x :: insert_by_date d rest
  end.

Definition sort_by_date (rows : list document_row) : list document_row :=
  fold_right insert_by_date [] rows.

(** A backend on which every statement goes through; the average is cut
    to an integer, which is enough for examples. *)
Definition plain_backend : Backend :=
  {| delete_fails := false; stats_fails := false; list_fails := false;
     order_by_upload_date_desc := sort_by_date;
     float_of_avg := fun sum n => binary_normalize 53 1024 (sum / n) 0 false |}.

(** A formatter that prints no digits. *)
Definition plain_formatter : Formatter :=
  {| format_3f := fun _ => str "0.000"; strftime := fun _ => str "2024-01-01 00:00:00" |}.

(** The same server at a later time. *)
Definition healthy_at (now : Z) : Server :=
  {| connect_fails := false; select_fails := false;
     insert_document_fails := false; insert_chunks_fails := false;
     commit_fails := false; current_timestamp := now |}.

(** The entry that a search for the axis vector makes from the second
    chunk of [small_database]. *)
Definition axis_hit : scored_chunk :=
  {| s_chunk_id := 2; s_document_id := 1; s_document_name := policy_name;
     s_chunk_index := 1; s_chunk_text := str "clause"; s_page_number := 1;
     s_start_char := 0; s_end_char := 1500; s_similarity_score := f32_of 1 0 |}.

(** A second policy text, ingested five time units after the first. *)
Definition fire_text : text := str "Fire and theft are covered.".

Definition fire_ingested : world :=
  snd (add_policy_document 1 example_rag (healthy_at 5) (Some fire_text)
         (Some policy_name) None None hello_ingested).

(** A processor with windows of eight characters that do not overlap, and
    the two chunks it makes of "Hello. World.". *)
Definition small_processor : PDFProcessor := {| chunk_size := 8; chunk_overlap := 0 |}.

Definition hello_sentences : list chunk :=
  [ {| c_text := str "Hello."; c_page_number := 1; c_chunk_index := 0;
       c_start_char := 0; c_end_char := 6 |};
    {| c_text := str "World."; c_page_number := 1; c_chunk_index := 1;
       c_start_char := 6; c_end_char := 14 |} ].

(** A policy wording of more than fifty characters, a claim that describes
    an incident, an assistant whose model is out of reach, and the world
    after the analysis of the claim. *)
Definition wording_text : text :=
  str "Loss or damage by fire and theft is covered under section one.".

Definition theft_claim : json :=
  [(str "claim_number", str "C-7"); (str "incident_description", str "theft of a car")].

Definition offline_assistant : Assistant :=
  {| gemini_api_function := fun _ => Returned (None, Some (str "offline"));
     parse_response := fun _ => Returned None |}.

Definition wording_analysed : world :=
  snd (analyze_claim_with_rag 1 theft_claim wording_text example_rag healthy healthy
         plain_formatter offline_assistant (at_rest empty_database)).

(** A PDF of two pages without text. *)
Definition blank_pdf : pdf := Pages [str "  "; []].

(** The world after the document of [hello_ingested] was deleted again. *)
Definition hello_deleted : world :=
  snd (delete_document healthy plain_backend 1 hello_ingested).

(* ===================================================================== *)
(** * More notions used in the statements                                 *)
(* ===================================================================== *)

(** The chunks of one document. *)
Definition chunks_of (document_id : Z) (t : tables) : list chunk_row :=
  filter (fun r => r_document_id r =? document_id) (policy_chunks t).

(** The constraints of the schema hold (primary keys, the two UNIQUE
    constraints, the foreign key), the identifiers were drawn from the
    sequences, and [total_chunks] counts the chunks of its document. *)
Definition coherent (db : database) : Prop :=
  consistent db /\
  NoDup (map d_id (policy_documents (stored db))) /\
  NoDup (map d_document_hash (policy_documents (stored db))) /\
  NoDup (map r_id (policy_chunks (stored db))) /\
  NoDup (map (fun r => (r_document_id r, r_chunk_index r)) (policy_chunks (stored db))) /\
  (forall r, In r (policy_chunks (stored db)) ->
     exists d, In d (policy_documents (stored db)) /\ d_id d = r_document_id r) /\
  (forall d, In d (policy_documents (stored db)) ->
     d_total_chunks d = len (chunks_of (d_id d) (stored db))).

(** Every stored embedding has [n] components. *)
Definition dimensioned (n : nat) (t : tables) : Prop :=
  forall r, In r (policy_chunks t) -> List.length (r_embedding r) = n.

(** The model gives vectors of the dimension the generator announces. *)
Definition model_has_dimension (G : EmbeddingGenerator) : Prop :=
  forall t e, model_encode G t = Some e -> List.length e = embedding_dim G.

(** [ordered] holds the rows [rows], the latest upload first. *)
Definition newest_first (rows ordered : list document_row) : Prop :=
  Permutation ordered rows /\
  StronglySorted (fun a b => d_upload_date b <= d_upload_date a) ordered.

(** The entry that scores nothing for a candidate. *)
Definition unscored (cand : chunk_row * document_row) : scored_chunk :=
  {| s_chunk_id := r_id (fst cand);
     s_document_id := r_document_id (fst cand);
     s_document_name := d_document_name (snd cand);
     s_chunk_index := r_chunk_index (fst cand);
     s_chunk_text := r_chunk_text (fst cand);
     s_page_number := r_page_number (fst cand);
     s_start_char := r_start_char (fst cand);
     s_end_char := r_end_char (fst cand);
     s_similarity_score := f32_zero |}.

(** The entry [s] was made from the chunk [r] and its document [d]. *)
Definition made_from (r : chunk_row) (d : document_row) (s : scored_chunk) : Prop :=
  s_chunk_id s = r_id r /\ s_document_id s = r_document_id r /\
  s_document_name s = d_document_name d /\ s_chunk_index s = r_chunk_index r /\
  s_chunk_text s = r_chunk_text r /\ s_page_number s = r_page_number r /\
  s_start_char s = r_start_char r /\ s_end_char s = r_end_char r.

(** The pages of a PDF with their positions, blank pages left out. *)
Definition nonblank (t : text) : bool :=
  match strip t with [] => false | _ :: _ => true end.

(** A character that [_clean_text] lets through. *)
Definition kept (R : Runtime) (c : char) : bool :=
  isword R c || isspace c || ispunct_kept c.
(* ===================================================================== *)
(** * The chunker                                                         *)
(* ===================================================================== *)

Lemma chunk_loop_S (fuel : nat) (P : PDFProcessor) (t : text) (pg : Z) (st : loop_state) :
  chunk_loop (S fuel) P t pg st =
  if ls_start st <? len t then chunk_loop fuel P t pg (chunk_step P t pg st)
  else Some (ls_chunks st).
Proof. reflexivity. Qed.

Lemma chunk_loop_O (P : PDFProcessor) (t : text) (pg : Z) (st : loop_state) :
  chunk_loop O P t pg st = if ls_start st <? len t then None else Some (ls_chunks st).
Proof. reflexivity. Qed.

(** A state inside the text that the loop body maps to itself is never left. *)
Lemma chunk_loop_stuck (P : PDFProcessor) (t : text) (pg : Z) (st : loop_state) :
  (ls_start st <? len t) = true ->
  chunk_step P t pg st = st ->
  forall fuel, chunk_loop fuel P t pg st = None.
Proof.
  intros Hin Hfix fuel. induction fuel as [|fuel IH].
  - rewrite chunk_loop_O, Hin. reflexivity.
  - rewrite chunk_loop_S, Hin, Hfix. exact IH.
Qed.

Lemma normalize_looping_text : normalize looping_text = looping_text.
Proof. vm_compute. reflexivity. Qed.

(** C4, on the code: with the default configuration (1500, 300), where the
    overlap is smaller than the window, the loop of [chunk_text] never ends
    on [looping_text], whatever the number of rounds.  The first window is cut
    after "A.", so the next one starts at 2 - 300 = -298; from there [end]
    is 0 and [start] is -300 in every iteration. *)
Theorem chunk_text_never_returns :
  chunk_overlap default_processor < chunk_size default_processor /\
  forall fuel, chunk_text fuel default_processor looping_text 1 = None.
Proof.
  split; [reflexivity|].
  intro fuel. unfold chunk_text. rewrite normalize_looping_text.
  set (P := default_processor).
  set (s1 := chunk_step P looping_text 1 initial_state).
  set (s2 := chunk_step P looping_text 1 s1).
  assert (G0 : (ls_start initial_state <? len looping_text) = true)
    by (vm_compute; reflexivity).
  assert (G1 : (ls_start s1 <? len looping_text) = true)
    by (vm_compute; reflexivity).
  assert (G2 : (ls_start s2 <? len looping_text) = true)
    by (vm_compute; reflexivity).
  assert (F2 : chunk_step P looping_text 1 s2 = s2)
    by (vm_compute; reflexivity).
  destruct fuel as [|[|fuel]].
  - rewrite chunk_loop_O, G0. reflexivity.
  - rewrite chunk_loop_S, G0. fold s1. rewrite chunk_loop_O, G1. reflexivity.
  - rewrite chunk_loop_S, G0. fold s1. rewrite chunk_loop_S, G1. fold s2.
    apply chunk_loop_stuck; assumption.
Qed.

(** C7, on the code: the second window of [looping_text] starts at -298 and
    its naive end 1202 lies before the end of the text; no '.', '!' or '?'
    is found in it (each [rfind] answers -1), and yet the boundary is moved,
    to 0, because -1 is greater than the negative start. *)
Theorem window_cut_without_terminator :
  let t := normalize looping_text in
  let start := ls_start (chunk_step default_processor t 1 initial_state) in
  let stop := start + chunk_size default_processor in
  start = -298 /\ stop = 1202 /\ (stop <? len t) = true /\
  rfind t DOT start stop = -1 /\ rfind t BANG start stop = -1 /\
  rfind t QUESTION start stop = -1 /\
  window_end default_processor t start = 0.
Proof. vm_compute. repeat split; reflexivity. Qed.

(** Every chunk of a page carries the page number the chunker was given. *)
Lemma chunk_step_page (P : PDFProcessor) (t : text) (pg : Z) (st : loop_state) :
  Forall (fun c => c_page_number c = pg) (ls_chunks st) ->
  Forall (fun c => c_page_number c = pg) (ls_chunks (chunk_step P t pg st)).
Proof.
  intro H. unfold chunk_step.
  destruct (strip (slice t (ls_start st) (window_end P t (ls_start st)))); simpl.
  - exact H.
  - apply Forall_app. split; [exact H|]. constructor; [reflexivity | constructor].
Qed.

Lemma chunk_loop_page (P : PDFProcessor) (t : text) (pg : Z) :
  forall fuel st cs,
    chunk_loop fuel P t pg st = Some cs ->
    Forall (fun c => c_page_number c = pg) (ls_chunks st) ->
    Forall (fun c => c_page_number c = pg) cs.
Proof.
  induction fuel as [|fuel IH]; intros st cs H Hst.
  - rewrite chunk_loop_O in H. destruct (ls_start st <? len t); [discriminate|].
    inversion H; subst. exact Hst.
  - rewrite chunk_loop_S in H. destruct (ls_start st <? len t).
    + apply IH in H; [exact H | apply chunk_step_page; exact Hst].
    + inversion H; subst. exact Hst.
Qed.

Lemma chunk_text_page (fuel : nat) (P : PDFProcessor) (t : text) (pg : Z) (cs : list chunk) :
  chunk_text fuel P t pg = Some cs -> Forall (fun c => c_page_number c = pg) cs.
Proof.
  intro H. unfold chunk_text in H. apply chunk_loop_page in H; [exact H | constructor].
Qed.

(** An extracted page is the cleaned text of a page of the file, numbered
    from one. *)
Lemma extract_pages_origin (R : Runtime) (pages : list text) :
  forall k t p,
    In (t, p) (extract_pages R k pages) ->
    exists i raw, nth_error pages i = Some raw /\
                  p = k + Z.of_nat i + 1 /\ t = clean_text R raw.
Proof.
  induction pages as [|raw rest IH]; intros k t p H; simpl in H; [contradiction|].
  assert (Hrest : In (t, p) (extract_pages R (k + 1) rest) ->
                  exists i raw0, nth_error (raw :: rest) i = Some raw0 /\
                                 p = k + Z.of_nat i + 1 /\ t = clean_text R raw0).
  { intro Hin. apply IH in Hin. destruct Hin as (i & raw0 & H1 & H2 & H3).
    exists (S i), raw0. split; [exact H1|]. split; [lia | exact H3]. }
  destruct (strip raw).
  - auto.
  - destruct H as [H|H]; [|auto].
    inversion H; subst. exists O, raw. simpl. split; [reflexivity|]. split; [lia|reflexivity].
Qed.

(** A chunk of a PDF is a chunk of one of its extracted pages. *)
Lemma chunk_pages_origin (fuel : nat) (P : PDFProcessor) (pages_text : list (text * Z)) :
  forall cs c,
    chunk_pages fuel P pages_text = Some cs -> In c cs ->
    exists t p cs', In (t, p) pages_text /\ chunk_text fuel P t p = Some cs' /\ In c cs'.
Proof.
  induction pages_text as [|[t p] rest IH]; intros cs c H Hin; simpl in H.
  - inversion H; subst. contradiction.
  - destruct (chunk_text fuel P t p) as [cs1|] eqn:E1; [|discriminate].
    destruct (chunk_pages fuel P rest) as [cs2|] eqn:E2; [|discriminate].
    inversion H; subst. apply in_app_or in Hin. destruct Hin as [Hin|Hin].
    + exists t, p, cs1. simpl. auto.
    + destruct (IH cs2 c eq_refl Hin) as (t' & p' & cs' & H1 & H2 & H3).
      exists t', p', cs'. simpl. auto.
Qed.

(** ** What [rfind] finds inside the text *)

Lemma last_index_spec (c : char) (seg : text) :
  forall i acc,
    0 <= i ->
    let p := last_index c seg i acc in
    (p = acc /\ forall j, (j < List.length seg)%nat -> nth_error seg j <> Some c) \/
    (i <= p < i + len seg /\ nth_error seg (Z.to_nat (p - i)) = Some c /\
     forall j, (Z.to_nat (p - i) < j < List.length seg)%nat -> nth_error seg j <> Some c).
Proof.
  induction seg as [|x r IH]; intros i acc Hi; cbv zeta.
  - left. split; [reflexivity|]. intros j Hj. simpl in Hj. lia.
  - cbn [last_index].
    specialize (IH (i + 1) (if (x =? c)%N then i else acc) ltac:(lia)). cbv zeta in IH.
    set (p := last_index c r (i + 1) (if (x =? c)%N then i else acc)) in *.
    unfold len in *. cbn [List.length]. rewrite Nat2Z.inj_succ.
    destruct IH as [[Hp Hnone] | (Hr & Hc & Hafter)].
    + destruct (N.eqb_spec x c) as [E|E].
      * right. rewrite Hp. split; [lia|].
        replace (Z.to_nat (i - i)) with O by lia. split; [simpl; congruence|].
        intros [|j] Hj; [lia|]. simpl. apply Hnone. lia.
      * left. split; [exact Hp|].
        intros [|j] Hj; simpl; [congruence | apply Hnone; lia].
    + right. split; [lia|].
      replace (Z.to_nat (p - i)) with (Datatypes.S (Z.to_nat (p - (i + 1)))) by lia.
      split; [exact Hc|].
      intros [|j] Hj; [lia|]. simpl. apply Hafter. lia.
Qed.

(** On a window that lies inside the text, [rfind] answers -1 when the
    character does not occur in the window, and its last position there
    otherwise. *)
Lemma rfind_inside (t : text) (c : char) (start stop : Z) :
  0 <= start -> start < stop -> stop <= len t ->
  let p := rfind t c start stop in
  (p = -1 /\ forall i, start <= i < stop -> ~ char_at t i c) \/
  (start <= p < stop /\ char_at t p c /\ forall i, p < i < stop -> ~ char_at t i c).
Proof.
  intros H0 Hlt Hle. unfold rfind, char_at. cbv zeta.
  replace (len t <? stop) with false by (symmetry; apply Z.ltb_ge; lia).
  replace (stop <? 0) with false by (symmetry; apply Z.ltb_ge; lia).
  replace (start <? 0) with false by (symmetry; apply Z.ltb_ge; lia).
  replace (stop - start <? 1) with false by (symmetry; apply Z.ltb_ge; lia).
  set (seg := firstn (Z.to_nat (stop - start)) (skipn (Z.to_nat start) t)).
  assert (Hseg : List.length seg = Z.to_nat (stop - start)).
  { unfold seg. rewrite length_firstn, length_skipn. unfold len in Hle. lia. }
  assert (Hnth : forall j, (j < List.length seg)%nat ->
                           nth_error seg j = nth_error t (Z.to_nat start + j)).
  { intros j Hj. unfold seg. rewrite nth_error_firstn.
    replace (j <? Z.to_nat (stop - start))%nat with true
      by (symmetry; apply Nat.ltb_lt; lia).
    rewrite nth_error_skipn. reflexivity. }
  pose proof (last_index_spec c seg start (-1) H0) as H. cbv zeta in H.
  unfold len in H. rewrite Hseg in H.
  destruct H as [[Hp Hnone] | (Hr & Hc & Hafter)].
  - left. split; [exact Hp|]. intros i Hi Hci.
    apply (Hnone (Z.to_nat (i - start))); [lia|].
    rewrite Hnth by lia. rewrite <- Hci. f_equal. lia.
  - right. split; [lia|]. split.
    + rewrite Hnth in Hc by lia. rewrite <- Hc. f_equal. lia.
    + intros i Hi Hci.
      apply (Hafter (Z.to_nat (i - start))); [lia|].
      rewrite Hnth by lia. rewrite <- Hci. f_equal. lia.
Qed.

Lemma rfind_summary (t : text) (c : char) (start stop : Z) :
  0 <= start -> start < stop -> stop <= len t ->
  let p := rfind t c start stop in
  (p = -1 \/ (start <= p < stop /\ char_at t p c)) /\
  (forall i, start <= i < stop -> p < i -> ~ char_at t i c).
Proof.
  intros H0 Hlt Hle. cbv zeta.
  destruct (rfind_inside t c start stop H0 Hlt Hle) as [[Hp Hn] | (Hr & Hc & Ha)].
  - split; [left; exact Hp|]. intros i Hi _. apply Hn, Hi.
  - split; [right; split; assumption|]. intros i Hi Hpi. apply Ha. lia.
Qed.

(** The boundary rule of the chunker, for a window that starts inside the
    text and whose naive end lies before the end of the text: the window is
    cut right after its last sentence terminator when that terminator lies
    strictly after the start of the window, and at its naive end when there
    is no terminator strictly after the start. *)
Lemma window_end_rule (P : PDFProcessor) (t : text) (start : Z) :
  0 <= start -> 0 < chunk_size P -> start + chunk_size P < len t ->
  let stop := start + chunk_size P in
  (exists p, start < p < stop /\ terminator_at t p /\
             (forall i, p < i < stop -> ~ terminator_at t i) /\
             window_end P t start = p + 1) \/
  ((forall i, start < i < stop -> ~ terminator_at t i) /\
   window_end P t start = stop).
Proof.
  intros H0 Hsize Hlt. cbv zeta.
  unfold window_end, sentence_end_of.
  replace (start + chunk_size P <? len t) with true by (symmetry; apply Z.ltb_lt; lia).
  set (stop := start + chunk_size P) in *.
  destruct (rfind_summary t DOT start stop H0 ltac:(lia) ltac:(lia)) as [Hd Hd'].
  destruct (rfind_summary t BANG start stop H0 ltac:(lia) ltac:(lia)) as [Hb Hb'].
  destruct (rfind_summary t QUESTION start stop H0 ltac:(lia) ltac:(lia)) as [Hq Hq'].
  cbv zeta in *.
  set (pd := rfind t DOT start stop) in *.
  set (pb := rfind t BANG start stop) in *.
  set (pq := rfind t QUESTION start stop) in *.
  set (p := Z.max (Z.max pd pb) pq).
  assert (Hafter : forall i, start <= i < stop -> p < i -> ~ terminator_at t i).
  { intros i Hi Hpi (c & Hc & [E | [E | E]]); subst c.
    - apply (Hd' i Hi); [unfold p in Hpi; lia | exact Hc].
    - apply (Hb' i Hi); [unfold p in Hpi; lia | exact Hc].
    - apply (Hq' i Hi); [unfold p in Hpi; lia | exact Hc]. }
  destruct (start <? p) eqn:E.
  - apply Z.ltb_lt in E. left. exists p.
    assert (Hp : p = pd \/ p = pb \/ p = pq) by (unfold p; lia).
    split; [|split; [|split; [|reflexivity]]].
    + unfold p in *. lia.
    + destruct Hp as [Hp | [Hp | Hp]]; rewrite Hp in *.
      * destruct Hd as [Hd | [_ Hd]]; [lia|]. exists DOT. auto.
      * destruct Hb as [Hb | [_ Hb]]; [lia|]. exists BANG. auto.
      * destruct Hq as [Hq | [_ Hq]]; [lia|]. exists QUESTION. auto.
    + intros i Hi. apply Hafter; lia.
  - apply Z.ltb_ge in E. right. split; [|reflexivity].
    intros i Hi. apply Hafter; lia.
Qed.

(** ** The chunks that are kept *)

Lemma chunk_step_well_numbered (P : PDFProcessor) (t : text) (pg : Z) (st : loop_state) :
  well_numbered t st -> well_numbered t (chunk_step P t pg st).
Proof.
  intros [Hidx Hall]. unfold chunk_step.
  destruct (strip (slice t (ls_start st) (window_end P t (ls_start st)))) as [|x body] eqn:E.
  - split; [exact Hidx | exact Hall].
  - split; cbn [ls_chunk_index ls_chunks].
    + unfold len in *. rewrite length_app. simpl. lia.
    + intros i c Hi.
      destruct (Nat.lt_ge_cases i (List.length (ls_chunks st))) as [Hlt|Hge].
      * rewrite nth_error_app1 in Hi by exact Hlt. apply Hall, Hi.
      * rewrite nth_error_app2 in Hi by exact Hge.
        destruct (i - List.length (ls_chunks st))%nat as [|k] eqn:Ek.
        -- simpl in Hi. inversion Hi; subst c. cbn.
           split; [unfold len in Hidx; lia|]. split; [discriminate | symmetry; exact E].
        -- simpl in Hi. destruct k; discriminate Hi.
Qed.

(** Whenever [chunk_text] returns, [chunk_index] counts the kept chunks
    from 0 without a gap, and no kept chunk is empty. *)
Lemma chunk_text_well_numbered (fuel : nat) (P : PDFProcessor) (t : text) (pg : Z)
    (cs : list chunk) :
  chunk_text fuel P t pg = Some cs ->
  forall i c, nth_error cs i = Some c ->
    c_chunk_index c = Z.of_nat i /\ c_text c <> [] /\
    c_text c = strip (slice (normalize t) (c_start_char c) (c_end_char c)).
Proof.
  unfold chunk_text. intro H.
  assert (G : forall fuel st, well_numbered (normalize t) st ->
                chunk_loop fuel P (normalize t) pg st = Some cs ->
                forall i c, nth_error cs i = Some c ->
                  c_chunk_index c = Z.of_nat i /\ c_text c <> [] /\
                  c_text c = strip (slice (normalize t) (c_start_char c) (c_end_char c))).
  { clear. induction fuel as [|fuel IH]; intros st Hw Hl.
    - rewrite chunk_loop_O in Hl. destruct (ls_start st <? len (normalize t)); [discriminate|].
      inversion Hl; subst. apply Hw.
    - rewrite chunk_loop_S in Hl. destruct (ls_start st <? len (normalize t)).
      + apply (IH _ (chunk_step_well_numbered P _ pg st Hw) Hl).
      + inversion Hl; subst. apply Hw. }
  apply (G fuel initial_state); [|exact H].
  split; [reflexivity|]. intros [|i] c Hi; discriminate Hi.
Qed.

(** ** Normalization *)

Lemma collapse_from_head (t : text) (c : char) :
  hd_error (collapse_from true t) = Some c -> isspace c = false.
Proof.
  induction t as [|x r IH]; simpl; [discriminate|].
  destruct (isspace x) eqn:E; [exact IH|].
  simpl. intro H. inversion H; subst. exact E.
Qed.

Lemma collapse_from_single_spaced (t : text) :
  forall b, single_spaced (collapse_from b t).
Proof.
  induction t as [|x r IH]; intro b; simpl; [exact I|].
  destruct (isspace x) eqn:E.
  - destruct b; [apply IH|].
    pose proof (collapse_from_head r) as Hh. pose proof (IH true) as Hs.
    destruct (collapse_from true r) as [|y l]; [exact I|].
    split; [|exact Hs]. intros _. apply Hh. reflexivity.
  - pose proof (IH false) as Hs.
    destruct (collapse_from false r) as [|y l]; [exact I|].
    split; [|exact Hs]. intro H. congruence.
Qed.

Lemma collapse_from_spaces (t : text) :
  forall b c, In c (collapse_from b t) -> isspace c = true -> c = 32%N.
Proof.
  induction t as [|x r IH]; intros b c Hin Hc; simpl in Hin; [contradiction|].
  destruct (isspace x) eqn:E.
  - destruct b; [apply (IH true c Hin Hc)|].
    destruct Hin as [Hin|Hin]; [symmetry; exact Hin | apply (IH true c Hin Hc)].
  - destruct Hin as [Hin|Hin]; [congruence | apply (IH false c Hin Hc)].
Qed.

Lemma lstrip_suffix (t : text) : exists p, t = p ++ lstrip t.
Proof.
  induction t as [|x r [p IH]]; simpl; [exists []; reflexivity|].
  destruct (isspace x); [|exists []; reflexivity].
  exists (x :: p). simpl. f_equal. exact IH.
Qed.

Lemma rstrip_prefix (t : text) : exists s, t = rstrip t ++ s.
Proof.
  unfold rstrip. destruct (lstrip_suffix (rev t)) as [p H].
  exists (rev p). rewrite <- rev_app_distr, <- H, rev_involutive. reflexivity.
Qed.

Lemma lstrip_head (t : text) (c : char) :
  hd_error (lstrip t) = Some c -> isspace c = false.
Proof.
  induction t as [|x r IH]; simpl; [discriminate|].
  destruct (isspace x) eqn:E; [exact IH|].
  simpl. intro H. inversion H; subst. exact E.
Qed.

Lemma single_spaced_suffix (p t : text) : single_spaced (p ++ t) -> single_spaced t.
Proof.
  induction p as [|a p IH]; simpl; [auto|].
  destruct (p ++ t) as [|b l] eqn:E.
  - destruct p; destruct t; try discriminate E. intros _. exact I.
  - intros [_ H]. apply IH. exact H.
Qed.

Lemma single_spaced_prefix (t s : text) : single_spaced (t ++ s) -> single_spaced t.
Proof.
  induction t as [|a t IH]; simpl; [intros _; exact I|].
  destruct t as [|b l]; [intros _; exact I|].
  simpl. intros [H1 H2]. split; [exact H1 | apply IH; exact H2].
Qed.

(** The text the chunker works on: its only whitespace characters are
    single spaces, each followed by a character that is not whitespace, and
    it neither starts nor ends with whitespace. *)
Lemma normalize_is_collapsed_and_trimmed (t : text) :
  (forall c, In c (normalize t) -> isspace c = true -> c = 32%N) /\
  single_spaced (normalize t) /\
  (forall c, hd_error (normalize t) = Some c -> isspace c = false) /\
  (forall c, hd_error (rev (normalize t)) = Some c -> isspace c = false).
Proof.
  unfold normalize, strip, re_sub_whitespace.
  set (u := collapse_from false t).
  destruct (lstrip_suffix u) as [p Hp].
  destruct (rstrip_prefix (lstrip u)) as [s Hs].
  split; [|split; [|split]].
  - intros c Hin. apply (collapse_from_spaces t false).
    fold u. rewrite Hp, Hs. apply in_or_app. right. apply in_or_app. left. exact Hin.
  - apply (single_spaced_prefix _ s). rewrite <- Hs.
    apply (single_spaced_suffix p). rewrite <- Hp. apply collapse_from_single_spaced.
  - intros c Hc. apply (lstrip_head u).
    rewrite Hs. destruct (rstrip (lstrip u)); [discriminate Hc | exact Hc].
  - intros c Hc. unfold rstrip in Hc. rewrite rev_involutive in Hc.
    apply (lstrip_head _ _ Hc).
Qed.

(** ** Fuel *)

(** A result does not depend on the fuel that was left over. *)
Lemma chunk_loop_more_fuel (P : PDFProcessor) (t : text) (pg : Z) :
  forall fuel fuel' st cs,
    (fuel <= fuel')%nat ->
    chunk_loop fuel P t pg st = Some cs ->
    chunk_loop fuel' P t pg st = Some cs.
Proof.
  induction fuel as [|fuel IH]; intros fuel' st cs Hle H.
  - rewrite chunk_loop_O in H.
    destruct (ls_start st <? len t) eqn:E; [discriminate|].
    destruct fuel'; [rewrite chunk_loop_O | rewrite chunk_loop_S]; rewrite E; exact H.
  - destruct fuel' as [|fuel']; [lia|].
    rewrite chunk_loop_S in *.
    destruct (ls_start st <? len t); [|exact H].
    apply (IH fuel'); [lia | exact H].
Qed.

(** On a normalized text that fits in one window the loop ends: no boundary
    is pulled back, and every window starts further right than the one
    before when the overlap is smaller than the window. *)
Lemma chunk_loop_short_text (P : PDFProcessor) (t : text) (pg : Z) :
  0 <= chunk_overlap P < chunk_size P ->
  len t <= chunk_size P ->
  forall fuel st,
    0 <= ls_start st ->
    len t - ls_start st <= Z.of_nat fuel ->
    exists cs, chunk_loop fuel P t pg st = Some cs.
Proof.
  intros Hcfg Hshort.
  induction fuel as [|fuel IH]; intros st H0 Hfuel.
  - rewrite chunk_loop_O.
    replace (ls_start st <? len t) with false by (symmetry; apply Z.ltb_ge; lia).
    eexists; reflexivity.
  - rewrite chunk_loop_S. destruct (ls_start st <? len t) eqn:E; [|eexists; reflexivity].
    apply Z.ltb_lt in E.
    assert (Hw : window_end P t (ls_start st) = ls_start st + chunk_size P).
    { unfold window_end.
      replace (ls_start st + chunk_size P <? len t) with false
        by (symmetry; apply Z.ltb_ge; lia).
      reflexivity. }
    assert (Hs : ls_start (chunk_step P t pg st)
                 = ls_start st + chunk_size P - chunk_overlap P).
    { unfold chunk_step. rewrite Hw.
      destruct (strip (slice t (ls_start st) (ls_start st + chunk_size P))); reflexivity. }
    apply IH; rewrite Hs; lia.
Qed.

(** [chunk_text] returns on every text whose normal form fits in one
    window, given as many rounds as that form has characters. *)
Lemma chunk_text_short_text (P : PDFProcessor) (t : text) (pg : Z) :
  0 <= chunk_overlap P < chunk_size P ->
  len (normalize t) <= chunk_size P ->
  exists cs, chunk_text (List.length (normalize t)) P t pg = Some cs.
Proof.
  intros Hcfg Hshort. unfold chunk_text.
  apply chunk_loop_short_text; try assumption; simpl; unfold len; lia.
Qed.

(** In the chunks of a PDF, [chunk_index] is the position of a chunk among
    the chunks of its page. *)
Lemma chunk_pages_numbered_per_page (fuel : nat) (P : PDFProcessor)
    (pages_text : list (text * Z)) (cs : list chunk) (c : chunk) :
  chunk_pages fuel P pages_text = Some cs -> In c cs ->
  exists t p cs' i,
    In (t, p) pages_text /\ chunk_text fuel P t p = Some cs' /\
    nth_error cs' i = Some c /\ c_chunk_index c = Z.of_nat i /\ c_page_number c = p.
Proof.
  intros H Hin.
  destruct (chunk_pages_origin fuel P pages_text cs c H Hin) as (t & p & cs' & H1 & H2 & H3).
  destruct (In_nth_error _ _ H3) as [i Hi].
  exists t, p, cs', i. split; [exact H1|]. split; [exact H2|]. split; [exact Hi|].
  split.
  - apply (chunk_text_well_numbered fuel P t p cs' H2 i c Hi).
  - pose proof (chunk_text_page fuel P t p cs' H2) as Hp.
    rewrite Forall_forall in Hp. apply Hp, H3.
Qed.

Lemma chunk_pages_app (fuel : nat) (P : PDFProcessor) (l1 l2 : list (text * Z)) :
  chunk_pages fuel P (l1 ++ l2) =
  match chunk_pages fuel P l1, chunk_pages fuel P l2 with
  | Some a, Some b => Some (a ++ b)
  | _, _ => None
  end.
Proof.
  induction l1 as [|[t p] l1 IH]; simpl.
  - destruct (chunk_pages fuel P l2); reflexivity.
  - destruct (chunk_text fuel P t p) as [cs|]; [|reflexivity].
    rewrite IH.
    destruct (chunk_pages fuel P l1) as [a|]; [|reflexivity].
    destruct (chunk_pages fuel P l2) as [b|]; [|reflexivity].
    rewrite app_assoc. reflexivity.
Qed.

Lemma chunk_text_first_index (fuel : nat) (P : PDFProcessor) (t : text) (p : Z)
    (c : chunk) (cs : list chunk) :
  chunk_text fuel P t p = Some (c :: cs) -> c_chunk_index c = 0.
Proof.
  intro H. apply (chunk_text_well_numbered fuel P t p (c :: cs) H O c). reflexivity.
Qed.

(** A PDF with two pages that each give a chunk has two chunks with index 0. *)
Lemma two_chunked_pages_repeat_index (fuel : nat) (P : PDFProcessor)
    (l1 l2 l3 : list (text * Z)) (t1 t2 : text) (p1 p2 : Z)
    (c1 c2 : chunk) (cs1 cs2 cs : list chunk) :
  chunk_text fuel P t1 p1 = Some (c1 :: cs1) ->
  chunk_text fuel P t2 p2 = Some (c2 :: cs2) ->
  chunk_pages fuel P (l1 ++ (t1, p1) :: l2 ++ (t2, p2) :: l3) = Some cs ->
  ~ NoDup (map c_chunk_index cs).
Proof.
  intros H1 H2 H Hnd.
  rewrite chunk_pages_app in H.
  destruct (chunk_pages fuel P l1) as [a|]; [|discriminate].
  cbn [chunk_pages] in H. rewrite H1 in H.
  rewrite chunk_pages_app in H.
  destruct (chunk_pages fuel P l2) as [b|]; [|discriminate].
  cbn [chunk_pages] in H. rewrite H2 in H.
  destruct (chunk_pages fuel P l3) as [d|]; [|discriminate].
  inversion H; subst cs. clear H.
  apply chunk_text_first_index in H1. apply chunk_text_first_index in H2.
  rewrite map_app in Hnd. apply NoDup_app_remove_l in Hnd.
  cbn [app map] in Hnd. rewrite H1 in Hnd.
  apply NoDup_cons_iff in Hnd. destruct Hnd as [Hnot _]. apply Hnot.
  rewrite map_app. apply in_or_app. right.
  rewrite map_app. apply in_or_app. right.
  cbn [app map]. left. exact H2.
Qed.

(** The chunks of one call of [chunk_text] have pairwise different indices. *)
Lemma chunk_text_indices_distinct (fuel : nat) (P : PDFProcessor) (t : text) (pg : Z)
    (cs : list chunk) :
  chunk_text fuel P t pg = Some cs -> NoDup (map c_chunk_index cs).
Proof.
  intro H. apply NoDup_nth_error. intros i j Hi Hij.
  rewrite length_map in Hi.
  rewrite !nth_error_map in Hij.
  destruct (nth_error cs i) as [ci|] eqn:Ei;
    [|apply nth_error_None in Ei; lia].
  destruct (nth_error cs j) as [cj|] eqn:Ej; [|discriminate Hij].
  destruct (chunk_text_well_numbered fuel P t pg cs H i ci Ei) as [Hci _].
  destruct (chunk_text_well_numbered fuel P t pg cs H j cj Ej) as [Hcj _].
  simpl in Hij. inversion Hij. lia.
Qed.

(* ===================================================================== *)
(** * The embedding provider                                              *)
(* ===================================================================== *)

Lemma encode_batch_length (G : EmbeddingGenerator) (batch : list text) :
  forall es, encode_batch G batch = Some es -> List.length es = List.length batch.
Proof.
  induction batch as [|t rest IH]; intros es H; simpl in H.
  - inversion H. reflexivity.
  - destruct (model_encode G t); [|discriminate].
    destruct (encode_batch G rest) as [es'|]; [|discriminate].
    inversion H; subst. simpl. f_equal. apply IH. reflexivity.
Qed.

(** A batch fails exactly when the model fails on one of its texts. *)
Lemma encode_batch_none (G : EmbeddingGenerator) (batch : list text) :
  encode_batch G batch = None <-> exists t, In t batch /\ model_encode G t = None.
Proof.
  induction batch as [|t rest IH]; simpl.
  - split; [discriminate | intros (t & [] & _)].
  - destruct (model_encode G t) eqn:Et.
    + destruct (encode_batch G rest) as [es|].
      * split; [discriminate|]. intros (u & [Hu|Hu] & Hn).
        -- subst u. congruence.
        -- assert (@None (list embedding) = None) as Hx by reflexivity.
           destruct IH as [_ IH]. discriminate IH. exists u. auto.
      * split; [|reflexivity]. intros _. destruct IH as [IH _].
        destruct (IH eq_refl) as (u & Hu & Hn). exists u. auto.
    + split; [|reflexivity]. intros _. exists t. auto.
Qed.

Lemma encode_batches_length (G : EmbeddingGenerator) (b : nat) :
  forall n texts es,
    (List.length texts <= n)%nat ->
    encode_batches n G (S b) texts = Some es ->
    List.length es = List.length texts.
Proof.
  induction n as [|n IH]; intros texts es Hn H.
  - destruct texts; [inversion H; reflexivity | simpl in Hn; lia].
  - destruct texts as [|t rest]; [inversion H; reflexivity|].
    cbn [encode_batches] in H.
    destruct (encode_batch G (firstn (S b) (t :: rest))) as [es1|] eqn:E1; [|discriminate].
    destruct (encode_batches n G (S b) (skipn (S b) (t :: rest))) as [es2|] eqn:E2;
      [|discriminate].
    inversion H; subst. clear H.
    apply encode_batch_length in E1. apply IH in E2.
    + rewrite length_app, E1, E2, <- length_app, firstn_skipn. reflexivity.
    + rewrite length_skipn. simpl in *. lia.
Qed.

(** In a failing run of the batch loop the model failed on some text. *)
Lemma encode_batches_none (G : EmbeddingGenerator) (b : nat) :
  forall n texts,
    encode_batches n G b texts = None ->
    exists t, In t texts /\ model_encode G t = None.
Proof.
  induction n as [|n IH]; intros texts H.
  - destruct texts; discriminate H.
  - destruct texts as [|t rest]; [discriminate H|].
    cbn [encode_batches] in H.
    destruct (encode_batch G (firstn b (t :: rest))) as [es1|] eqn:E1.
    + destruct (encode_batches n G b (skipn b (t :: rest))) as [es2|] eqn:E2;
        [discriminate|].
      destruct (IH _ E2) as (u & Hu & Hn). exists u. split; [|exact Hn].
      rewrite <- (firstn_skipn b (t :: rest)). apply in_or_app. right. exact Hu.
    + apply encode_batch_none in E1. destruct E1 as (u & Hu & Hn).
      exists u. split; [|exact Hn].
      rewrite <- (firstn_skipn b (t :: rest)). apply in_or_app. left. exact Hu.
Qed.


Lemma generate_embeddings_batch_length (G : EmbeddingGenerator) (texts : list text) :
  List.length (generate_embeddings_batch G texts) = List.length texts.
Proof.
  unfold generate_embeddings_batch.
  destruct (encode_batches (List.length texts) G 32 texts) as [es|] eqn:E.
  - apply encode_batches_length in E; auto.
  - apply length_map.
Qed.

(* ===================================================================== *)
(** * The ingestion, case by case                                         *)
(* ===================================================================== *)

Lemma chunk_source_spec (fuel : nat) (rag : PolicyWordingRAG)
    (document_text : option text) (pdf_bytes : option pdf) (w : world) :
  chunk_source fuel rag document_text pdf_bytes w =
  (source_chunks fuel rag document_text pdf_bytes,
   logged (source_events fuel rag document_text pdf_bytes) w).
Proof.
  assert (E : forall w0 : world, logged [] w0 = w0).
  { intros [d v t]. unfold logged. simpl. rewrite app_nil_r. reflexivity. }
  unfold chunk_source, source_chunks, source_events.
  destruct pdf_bytes as [f|]; destruct (given document_text) as [t|].
  - unfold bind, chunked. destruct (chunk_text fuel (pdf_processor rag) t 1) as [cs|];
      [reflexivity | unfold diverge; rewrite E; reflexivity].
  - unfold bind, chunked.
    destruct (process_pdf_bytes fuel (runtime rag) (pdf_processor rag) f) as [[|c cs]|];
      [reflexivity | reflexivity | unfold diverge; rewrite E; reflexivity].
  - unfold bind, chunked. destruct (chunk_text fuel (pdf_processor rag) t 1) as [cs|];
      [reflexivity | unfold diverge; rewrite E; reflexivity].
  - unfold raise. rewrite E. reflexivity.
Qed.

(** The batch insert only touches the view and the chunk sequence. *)
Lemma insert_chunk_rows_spec (S : Server) (records : list chunk_record) :
  forall (w : world) (r : res unit) (w' : world),
    insert_chunk_rows S records w = (r, w') ->
    stored (w_db w') = stored (w_db w) /\
    documents_id_seq (w_db w') = documents_id_seq (w_db w) /\
    w_trace w' = w_trace w /\
    policy_documents (w_view w') = policy_documents (w_view w) /\
    match r with
    | Returned _ =>
        policy_chunks (w_view w') =
        policy_chunks (w_view w) ++ rows_of S (chunks_id_seq (w_db w)) records
    | Raised _ => True
    | Diverged => False
    end.
Proof.
  induction records as [|k rest IH]; intros w r w' H.
  - inversion H; subst. simpl. rewrite app_nil_r. auto.
  - simpl in H. unfold bind in H.
    destruct (insert_chunk_row S k w) as [r1 w1] eqn:E1.
    unfold insert_chunk_row in E1.
    destruct (existsb _ (policy_chunks (w_view w))).
    { inversion E1; subst. inversion H; subst. simpl. auto. }
    destruct (negb _).
    { inversion E1; subst. inversion H; subst. simpl. auto. }
    inversion E1; subst. clear E1.
    apply IH in H. simpl in H.
    destruct H as (H1 & H2 & H3 & H4 & H5).
    repeat split; try assumption.
    destruct r; try exact H5.
    rewrite H5, <- app_assoc. reflexivity.
Qed.

(** A batch that goes through holds no two records for the same document
    and chunk index, and none that the view already had. *)
Lemma insert_chunk_rows_distinct (S : Server) (records : list chunk_record) :
  forall (w w' : world),
    insert_chunk_rows S records w = (Returned tt, w') ->
    NoDup (map (fun k => (k_document_id k, k_chunk_index k)) records) /\
    forall k row, In k records -> In row (policy_chunks (w_view w)) ->
      ~ (r_document_id row = k_document_id k /\ r_chunk_index row = k_chunk_index k).
Proof.
  induction records as [|k rest IH]; intros w w' H.
  - split; [constructor | intros k row []].
  - simpl in H. unfold bind in H.
    destruct (insert_chunk_row S k w) as [r1 w1] eqn:E1.
    unfold insert_chunk_row in E1.
    destruct (existsb _ (policy_chunks (w_view w))) eqn:Ex.
    { inversion E1; subst. discriminate H. }
    destruct (negb _).
    { inversion E1; subst. discriminate H. }
    inversion E1; subst. clear E1.
    apply IH in H. cbn [w_view policy_chunks] in H. destruct H as [Hnd Hview].
    assert (Hk : forall row, In row (policy_chunks (w_view w)) ->
                   ~ (r_document_id row = k_document_id k /\
                      r_chunk_index row = k_chunk_index k)).
    { intros row Hin [H1 H2].
      assert (existsb (fun r => (r_document_id r =? k_document_id k)
                                && (r_chunk_index r =? k_chunk_index k)
                                || (r_id r =? chunks_id_seq (w_db w)))
                      (policy_chunks (w_view w)) = true) as Ht.
      { apply existsb_exists. exists row. split; [exact Hin|].
        rewrite H1, H2, !Z.eqb_refl. reflexivity. }
      congruence. }
    split.
    + simpl. constructor; [|exact Hnd].
      intro Hin. apply in_map_iff in Hin. destruct Hin as (k' & Hkey & Hin').
      inversion Hkey as [[H1 H2]].
      refine (Hview k' _ Hin' _ _);
        [apply in_or_app; right; left; reflexivity | simpl; split; congruence].
    + intros k' row [Hk' | Hk'] Hrow.
      * subst k'. apply Hk, Hrow.
      * apply (Hview k' row Hk'). apply in_or_app. left. exact Hrow.
Qed.

Lemma chunk_records_indices (id : Z) (cs : list chunk) :
  forall es, List.length es = List.length cs ->
    map (fun k => (k_document_id k, k_chunk_index k)) (chunk_records id cs es)
    = map (fun c => (id, c_chunk_index c)) cs.
Proof.
  induction cs as [|c cs IH]; intros [|e es] H; simpl in *; try discriminate;
    [reflexivity|].
  f_equal. apply IH. lia.
Qed.

Lemma source_events_returned (fuel : nat) (rag : PolicyWordingRAG)
    (document_text : option text) (pdf_bytes : option pdf) (cs : list chunk) (txt : text) :
  source_chunks fuel rag document_text pdf_bytes = Returned (cs, txt) ->
  source_events fuel rag document_text pdf_bytes = [EvChunk (List.length cs)].
Proof.
  unfold source_chunks, source_events.
  destruct pdf_bytes as [f|]; destruct (given document_text) as [t|].
  - destruct (chunk_text fuel (pdf_processor rag) t 1); intro H; inversion H; reflexivity.
  - destruct (process_pdf_bytes fuel (runtime rag) (pdf_processor rag) f) as [[|c l]|];
      intro H; inversion H; reflexivity.
  - destruct (chunk_text fuel (pdf_processor rag) t 1); intro H; inversion H; reflexivity.
  - intro H; inversion H.
Qed.

Lemma source_events_no_commit (fuel : nat) (rag : PolicyWordingRAG)
    (document_text : option text) (pdf_bytes : option pdf) :
  ~ In EvCommit (source_events fuel rag document_text pdf_bytes).
Proof.
  unfold source_events.
  destruct pdf_bytes as [f|]; destruct (given document_text) as [t|];
    repeat match goal with
           | |- context [match ?x with _ => _ end] => destruct x
           end; simpl; intuition discriminate.
Qed.

(** What the insertion of the document row leaves behind. *)
Lemma insert_document_spec (S : Server) (document_name : option text) (h : N)
    (n : Z) (metadata : json) (w : world) (r : res Z) (w1 : world) :
  insert_document S document_name h n metadata w = (r, w1) ->
  stored (w_db w1) = stored (w_db w) /\
  chunks_id_seq (w_db w1) = chunks_id_seq (w_db w) /\
  documents_id_seq (w_db w) <= documents_id_seq (w_db w1) /\
  match r with
  | Returned id =>
      id = documents_id_seq (w_db w) /\
      insert_document_fails S = false /\
      existsb (fun d => N.eqb (d_document_hash d) h || (d_id d =? id))
              (policy_documents (w_view w)) = false /\
      exists name name' metadata',
        document_name = Some name /\ adapt name = None /\
        varchar 255 name = Some name' /\
        jsonb_object metadata = Some metadata' /\
        w1 = {| w_db := {| stored := stored (w_db w);
                           documents_id_seq := id + 1;
                           chunks_id_seq := chunks_id_seq (w_db w) |};
                w_view :=
                  {| policy_documents :=
                       policy_documents (w_view w) ++
                       [ {| d_id := id; d_document_name := name';
                            d_document_hash := h;
                            d_upload_date := current_timestamp S;
                            d_total_chunks := n;
                            d_metadata := metadata' |} ];
                     policy_chunks := policy_chunks (w_view w) |};
                w_trace := w_trace w ++ [EvInsertDocument] |}
  | Raised _ => w_view w1 = w_view w /\ w_trace w1 = w_trace w
  | Diverged => False
  end.
Proof.
  unfold insert_document. intro H.
  destruct document_name as [name|].
  - destruct (adapt name) as [e|] eqn:Ea.
    { inversion H; subst. repeat split; lia. }
    destruct (insert_document_fails S) eqn:Ef.
    { inversion H; subst. repeat split; lia. }
    destruct (jsonb_object metadata) as [metadata'|] eqn:Ej.
    2:{ inversion H; subst. repeat split; lia. }
    destruct (varchar 255 name) as [name'|] eqn:Ev.
    2:{ inversion H; subst. repeat split; lia. }
    destruct (existsb _ (policy_documents (w_view w))) eqn:Ex.
    { inversion H; subst. simpl. repeat split; lia. }
    inversion H; subst. simpl. split; [reflexivity|]. split; [reflexivity|].
    split; [lia|]. split; [reflexivity|]. split; [reflexivity|]. split; [exact Ex|].
    exists name, name', metadata'. repeat split; assumption.
  - destruct (insert_document_fails S).
    { inversion H; subst. repeat split; lia. }
    destruct (jsonb_object metadata).
    + inversion H; subst. simpl. repeat split; lia.
    + inversion H; subst. repeat split; lia.
Qed.

Lemma insert_chunk_rows_app (S : Server) (a b : list chunk_record) (w : world) :
  insert_chunk_rows S (a ++ b) w = (insert_chunk_rows S a ;;; insert_chunk_rows S b) w.
Proof.
  revert w. induction a as [|k a IH]; intro w; [reflexivity|].
  cbn [app insert_chunk_rows]. unfold bind in *.
  destruct (insert_chunk_row S k w) as [[[]| e |] w1]; [apply IH | reflexivity | reflexivity].
Qed.

Lemma refused_app (a b : list chunk_record) :
  refused (a ++ b) = match refused a with Some e => Some e | None => refused b end.
Proof.
  induction a as [|k a IH]; [reflexivity|].
  cbn [app refused]. destruct (adapt (k_text k)); [reflexivity | exact IH].
Qed.

(** The pages of a batch: when they all go through, they did what the rows
    do one after the other; otherwise only the view and the chunk sequence
    were touched. *)
Lemma insert_pages_spec (S : Server) :
  forall (n : nat) (records : list chunk_record) (w : world) (r : res unit) (w' : world),
    (List.length records <= n)%nat ->
    insert_pages n S records w = (r, w') ->
    stored (w_db w') = stored (w_db w) /\
    documents_id_seq (w_db w') = documents_id_seq (w_db w) /\
    w_trace w' = w_trace w /\
    policy_documents (w_view w') = policy_documents (w_view w) /\
    match r with
    | Returned _ =>
        insert_chunk_rows S records w = (Returned tt, w') /\
        refused records = None /\
        (records <> [] -> insert_chunks_fails S = false)
    | Raised _ => True
    | Diverged => False
    end.
Proof.
  induction n as [|n IH]; intros records w r w' Hlen H.
  - destruct records as [|k records]; [|simpl in Hlen; lia].
    inversion H; subst. repeat split. intro C. contradiction.
  - destruct records as [|k records].
    { inversion H; subst. repeat split. intro C. contradiction. }
    cbn [insert_pages] in H.
    destruct (refused (firstn 100 (k :: records))) as [e|] eqn:Er.
    { inversion H; subst. auto. }
    destruct (insert_chunks_fails S) eqn:Ef.
    { inversion H; subst. auto. }
    unfold bind in H.
    destruct (insert_chunk_rows S (firstn 100 (k :: records)) w) as [r1 w1] eqn:E1.
    pose proof (insert_chunk_rows_spec _ _ _ _ _ E1) as (A1 & A2 & A3 & A4 & A5).
    destruct r1 as [[]| e |]; [| inversion H; subst; auto | contradiction].
    assert (List.length (skipn 100 (k :: records)) <= n)%nat as Hlen'.
    { rewrite length_skipn. simpl in *. lia. }
    destruct (IH _ _ _ _ Hlen' H) as (B1 & B2 & B3 & B4 & B5).
    split; [congruence|]. split; [congruence|]. split; [congruence|].
    split; [congruence|].
    destruct r as [[]| e |]; [| exact I | exact B5].
    destruct B5 as (C1 & C2 & _).
    split; [|split; [|intros _; reflexivity]].
    + rewrite <- (firstn_skipn 100 (k :: records)) at 1.
      rewrite insert_chunk_rows_app. unfold bind. rewrite E1. exact C1.
    + rewrite <- (firstn_skipn 100 (k :: records)), refused_app, Er. exact C2.
Qed.

(** A batch of rows that psycopg2 can adapt goes to a server that takes the
    statement as the rows go one after the other. *)
Lemma insert_pages_sendable (S : Server) :
  forall (n : nat) (records : list chunk_record) (w : world),
    (List.length records <= n)%nat ->
    refused records = None -> insert_chunks_fails S = false ->
    insert_pages n S records w = insert_chunk_rows S records w.
Proof.
  induction n as [|n IH]; intros records w Hlen Hr Hf.
  - destruct records; [reflexivity | simpl in Hlen; lia].
  - destruct records as [|k records]; [reflexivity|].
    cbn [insert_pages].
    rewrite <- (firstn_skipn 100 (k :: records)) in Hr. rewrite refused_app in Hr.
    destruct (refused (firstn 100 (k :: records))); [discriminate|].
    rewrite Hf.
    transitivity
      (insert_chunk_rows S (firstn 100 (k :: records) ++ skipn 100 (k :: records)) w);
      [|rewrite firstn_skipn; reflexivity].
    rewrite insert_chunk_rows_app. unfold bind.
    destruct (insert_chunk_rows S (firstn 100 (k :: records)) w) as [[[]| e |] w1];
      [|reflexivity|reflexivity].
    apply IH; [|exact Hr|exact Hf].
    rewrite length_skipn. simpl in *. lia.
Qed.

Ltac failed_with evs :=
  left; split; [intros v Hv; discriminate Hv |];
  split; [reflexivity |];
  exists evs; split;
  [ simpl; repeat rewrite <- app_assoc; reflexivity
  | rewrite ?in_app_iff; simpl; intuition (try discriminate) ].

(** Every call of [add_policy_document] ends in one of three ways. *)
Lemma add_policy_document_cases (fuel : nat) (rag : PolicyWordingRAG) (S : Server)
    (document_text document_name : option text) (pdf_bytes : option pdf)
    (metadata : option json) (w : world) (r : res (Z * Z)) (w' : world) :
  add_policy_document fuel rag S document_text document_name pdf_bytes metadata w = (r, w') ->
  ends_failed w r w' \/
  ends_reused fuel rag document_text pdf_bytes w r w' \/
  ends_inserted fuel rag S document_text pdf_bytes metadata w r w'.
Proof.
  unfold add_policy_document, ends_failed. intro H.
  destruct (connect_fails S).
  { inversion H; subst. left. split; [intros v Hv; discriminate Hv|].
    split; [reflexivity|]. exists []. rewrite app_nil_r. split; [reflexivity | intros []]. }
  unfold add_policy_document_body in H. unfold bind at 1 in H.
  rewrite chunk_source_spec in H.
  pose proof (source_events_no_commit fuel rag document_text pdf_bytes) as Hnc.
  destruct (source_chunks fuel rag document_text pdf_bytes) as [[cs txt]| e |] eqn:Hsrc.
  2:{ inversion H; subst.
      failed_with (source_events fuel rag document_text pdf_bytes ++ [EvRollback]). }
  2:{ inversion H; subst.
      failed_with (source_events fuel rag document_text pdf_bytes). }
  rewrite (source_events_returned _ _ _ _ _ _ Hsrc) in H. clear Hnc.
  simpl fst in H. simpl snd in H.
  unfold bind at 1 in H. unfold compute_document_hash in H.
  destruct (utf8_encodable txt) eqn:Hutf.
  2:{ unfold raise in H. inversion H; subst.
      failed_with [EvChunk (List.length cs); EvRollback]. }
  unfold bind at 1 in H. unfold emit, ret in H.
  unfold bind at 1 in H. unfold select_document_by_hash in H.
  destruct (select_fails S).
  { inversion H; subst.
    failed_with [EvChunk (List.length cs); EvHash; EvRollback]. }
  cbn [w_db w_view w_trace logged open_connection] in H.
  destruct (find (fun d => N.eqb (d_document_hash d) (sha256 (runtime rag) txt))
                 (policy_documents (stored (w_db w)))) as [row|] eqn:Hfind.
  { inversion H; subst. right; left.
    exists cs, txt, row. repeat split; try assumption; try reflexivity.
    simpl. repeat rewrite <- app_assoc. reflexivity. }
  unfold bind at 1 in H. unfold bind at 1 in H.
  cbn [w_db w_view w_trace] in H.
  match type of H with
  | context [insert_document S ?dn ?h ?n ?md ?w0] =>
      destruct (insert_document S dn h n md w0) as [rd wd] eqn:Hdoc;
      pose proof (insert_document_spec _ _ _ _ _ _ _ _ Hdoc) as (D1 & D2 & D3 & D4)
  end.
  cbn [w_db w_view w_trace] in D1, D2, D3, D4.
  destruct rd as [id| e |]; [| | contradiction].
  2:{ destruct D4 as [D4 D5]. inversion H; subst. left.
      split; [intros v Hv; discriminate Hv|].
      split; [simpl; exact D1|].
      exists [EvChunk (List.length cs); EvHash; EvSelect;
              EvEmbed (List.length (map c_text cs)); EvRollback].
      split; [simpl; rewrite D5; repeat rewrite <- app_assoc; reflexivity
             | simpl; intuition discriminate]. }
  destruct D4 as (Hid & Df & Dx & name & name' & metadata' & Hname & Da & Dv & Dj & Hwd).
  subst id wd. clear Hdoc D1 D2 D3.
  unfold bind at 1 in H. unfold insert_chunks in H. unfold bind at 1 in H.
  match type of H with
  | context [insert_pages ?n S ?recs ?w0] =>
      destruct (insert_pages n S recs w0) as [r1 w1] eqn:Hpages;
      pose proof (insert_pages_spec S n recs w0 r1 w1 (le_n _) Hpages) as Hspec;
      cbn [w_db w_view w_trace stored documents_id_seq chunks_id_seq
           policy_documents policy_chunks] in Hspec;
      destruct Hspec as (R1 & R2 & R3 & R4 & R5)
  end.
  destruct r1 as [[]| e |]; [| | contradiction].
  2:{ inversion H; subst. left. split; [intros v Hv; discriminate Hv|].
      split; [simpl; exact R1|].
      exists [EvChunk (List.length cs); EvHash; EvSelect;
              EvEmbed (List.length (map c_text cs)); EvInsertDocument; EvRollback].
      split; [simpl; rewrite R3; repeat rewrite <- app_assoc; reflexivity
             | simpl; intuition discriminate]. }
  destruct R5 as (Hrows & _ & _).
  pose proof (insert_chunk_rows_spec _ _ _ _ _ Hrows) as Hspec.
  cbn [w_db w_view w_trace stored documents_id_seq chunks_id_seq
       policy_documents policy_chunks] in Hspec.
  destruct Hspec as (_ & _ & _ & _ & R5).
  unfold emit, bind, commit, ret in H.
  destruct (commit_fails S).
  { inversion H; subst. left. split; [intros v Hv; discriminate Hv|].
    split; [simpl; exact R1|].
    exists [EvChunk (List.length cs); EvHash; EvSelect;
            EvEmbed (List.length (map c_text cs)); EvInsertDocument;
            EvInsertChunks
              (List.length (chunk_records (documents_id_seq (w_db w)) cs
                 (generate_embeddings_batch (embedding_generator rag) (map c_text cs))));
            EvRollback].
    split; [simpl; rewrite R3; repeat rewrite <- app_assoc; reflexivity
           | simpl; intuition discriminate]. }
  inversion H; subst. clear H. right; right.
  exists cs, txt, name'. split; [exact Hsrc|]. split; [exact Hutf|]. split; [exact Hfind|].
  simpl. split; [reflexivity|].
  split.
  { apply insert_chunk_rows_distinct in Hrows. destruct Hrows as [Hnd _].
    rewrite chunk_records_indices in Hnd
      by (rewrite generate_embeddings_batch_length; apply length_map).
    rewrite <- (map_map c_chunk_index (fun i => (documents_id_seq (w_db w), i))) in Hnd.
    apply NoDup_map_inv in Hnd. exact Hnd. }
  split.
  { rewrite R4. unfold stored_metadata. rewrite Dj. reflexivity. }
  split; [exact R5|].
  rewrite R3, length_map. repeat rewrite <- app_assoc. reflexivity.
Qed.

(** A batch of records with distinct keys, none of them in the view yet, for
    documents that the view holds, goes through when the sequence is ahead
    of the stored ids. *)
Lemma insert_chunk_rows_succeeds (S : Server) (records : list chunk_record) :
  forall w,
    (forall row, In row (policy_chunks (w_view w)) -> r_id row < chunks_id_seq (w_db w)) ->
    (forall k, In k records ->
       exists d, In d (policy_documents (w_view w)) /\ d_id d = k_document_id k) ->
    NoDup (map (fun k => (k_document_id k, k_chunk_index k)) records) ->
    (forall k row, In k records -> In row (policy_chunks (w_view w)) ->
       ~ (r_document_id row = k_document_id k /\ r_chunk_index row = k_chunk_index k)) ->
    exists w', insert_chunk_rows S records w = (Returned tt, w').
Proof.
  induction records as [|k rest IH]; intros w Hids Hfk Hnd Hnew.
  - eexists. reflexivity.
  - cbn [insert_chunk_rows]. unfold bind, insert_chunk_row.
    assert (E1 : existsb (fun r => (r_document_id r =? k_document_id k)
                                   && (r_chunk_index r =? k_chunk_index k)
                                   || (r_id r =? chunks_id_seq (w_db w)))
                         (policy_chunks (w_view w)) = false).
    { apply not_true_is_false. intro Ht. apply existsb_exists in Ht.
      destruct Ht as (row & Hin & Ht). apply orb_true_iff in Ht. destruct Ht as [Ht|Ht].
      - apply andb_true_iff in Ht. destruct Ht as [H1 H2].
        apply Z.eqb_eq in H1, H2. apply (Hnew k row (or_introl eq_refl) Hin). auto.
      - apply Z.eqb_eq in Ht. specialize (Hids row Hin). lia. }
    rewrite E1.
    assert (E2 : existsb (fun d => d_id d =? k_document_id k)
                         (policy_documents (w_view w)) = true).
    { destruct (Hfk k (or_introl eq_refl)) as (d & Hd & Hid).
      apply existsb_exists. exists d. split; [exact Hd | apply Z.eqb_eq; exact Hid]. }
    rewrite E2. cbn [negb].
    inversion Hnd as [|? ? Hnotin Hnd']; subst.
    apply IH; cbn [w_db w_view chunks_id_seq policy_chunks policy_documents].
    + intros row Hin. apply in_app_or in Hin. destruct Hin as [Hin|[Hin|[]]].
      * specialize (Hids row Hin). lia.
      * subst row. simpl. lia.
    + intros k' Hk'. apply Hfk. right. exact Hk'.
    + exact Hnd'.
    + intros k' row Hk' Hin [H1 H2].
      apply in_app_or in Hin. destruct Hin as [Hin|[Hin|[]]].
      * apply (Hnew k' row (or_intror Hk') Hin). auto.
      * subst row. simpl in H1, H2. apply Hnotin.
        apply in_map_iff. exists k'. split; [f_equal; congruence | exact Hk'].
Qed.

(* ===================================================================== *)
(** * Ingestion                                                           *)
(* ===================================================================== *)

Lemma chunk_records_length (id : Z) (cs : list chunk) :
  forall es, List.length es = List.length cs ->
             List.length (chunk_records id cs es) = List.length cs.
Proof.
  induction cs as [|c cs IH]; intros [|e es] H; simpl in *; try discriminate; auto.
Qed.

Lemma rows_of_length (S : Server) (records : list chunk_record) :
  forall i, List.length (rows_of S i records) = List.length records.
Proof. induction records as [|k rest IH]; intro i; simpl; auto. Qed.

(** Where a stored row of a batch comes from. *)
Lemma rows_of_origin (S : Server) (id : Z) (cs : list chunk) :
  forall es i row,
    In row (rows_of S i (chunk_records id cs es)) ->
    r_document_id row = id /\
    exists c e, In c cs /\ In e es /\
      r_chunk_index row = c_chunk_index c /\ r_chunk_text row = c_text c /\
      r_page_number row = c_page_number c /\ r_embedding row = e.
Proof.
  induction cs as [|c cs IH]; intros [|e es] i row H; simpl in H; try contradiction.
  destruct H as [H|H].
  - subst row. simpl. split; [reflexivity|]. exists c, e. simpl. auto 10.
  - apply IH in H. destruct H as (H1 & c' & e' & H2 & H3 & H4).
    split; [exact H1|]. exists c', e'. simpl. auto.
Qed.

Lemma find_snoc {A} (f : A -> bool) (l : list A) (x : A) :
  find f (l ++ [x]) =
  match find f l with
  | Some y => Some y
  | None => if f x then Some x else None
  end.
Proof.
  induction l as [|a l IH]; simpl; [reflexivity|].
  destruct (f a); [reflexivity | exact IH].
Qed.

(** When the digest is on file and the server answers, the call returns the
    stored pair after chunking, hashing and one SELECT. *)
Lemma add_policy_document_reuse (fuel : nat) (rag : PolicyWordingRAG) (S : Server)
    (document_text document_name : option text) (pdf_bytes : option pdf)
    (metadata : option json) (w : world) (cs : list chunk) (txt : text)
    (row : document_row) :
  source_chunks fuel rag document_text pdf_bytes = Returned (cs, txt) ->
  utf8_encodable txt = true ->
  document_with_hash (sha256 (runtime rag) txt) (stored (w_db w)) = Some row ->
  connect_fails S = false -> select_fails S = false ->
  add_policy_document fuel rag S document_text document_name pdf_bytes metadata w =
  (Returned (d_id row, d_total_chunks row),
   {| w_db := w_db w; w_view := stored (w_db w);
      w_trace := w_trace w ++ [EvChunk (List.length cs); EvHash; EvSelect] |}).
Proof.
  intros Hsrc Hutf Hfind Hc Hs.
  unfold add_policy_document. rewrite Hc.
  unfold add_policy_document_body. unfold bind at 1.
  rewrite chunk_source_spec, Hsrc, (source_events_returned _ _ _ _ _ _ Hsrc).
  cbn [fst snd]. unfold bind at 1. unfold compute_document_hash. rewrite Hutf.
  unfold bind at 1. unfold emit, ret. unfold bind at 1.
  unfold select_document_by_hash. rewrite Hs.
  cbn [w_db w_view w_trace logged open_connection].
  unfold document_with_hash in Hfind. rewrite Hfind.
  unfold close_connection. cbn [w_db w_view w_trace].
  repeat rewrite <- app_assoc. reflexivity.
Qed.

Lemma find_none_existsb {A} (f : A -> bool) (l : list A) :
  find f l = None -> existsb f l = false.
Proof.
  induction l as [|a l IH]; simpl; [reflexivity|].
  destruct (f a); [discriminate | exact IH].
Qed.

Lemma NoDup_map_pair {A B} (a : A) (l : list B) :
  NoDup l -> NoDup (map (fun i => (a, i)) l).
Proof.
  induction 1 as [|x l Hx Hl IH]; simpl; constructor; [|exact IH].
  intro Hin. apply in_map_iff in Hin. destruct Hin as (y & Hy & Hin).
  inversion Hy; subst. exact (Hx Hin).
Qed.

(** Chunks whose texts psycopg2 can adapt make a batch it does not refuse. *)
Lemma chunk_records_sendable (id : Z) (cs : list chunk) :
  forall es, Forall (fun c => adapt (c_text c) = None) cs ->
    refused (chunk_records id cs es) = None.
Proof.
  induction cs as [|c cs IH]; intros [|e es] H; try reflexivity.
  inversion H as [|? ? Hc Hcs]; subst. cbn [chunk_records refused k_text].
  rewrite Hc. apply IH. exact Hcs.
Qed.

Lemma chunk_records_document (id : Z) (cs : list chunk) :
  forall es k, In k (chunk_records id cs es) -> k_document_id k = id.
Proof.
  induction cs as [|c cs IH]; intros [|e es] k Hk; simpl in Hk; try contradiction.
  destruct Hk as [Hk|Hk]; [subst k; reflexivity | apply (IH es k Hk)].
Qed.

(** An ingestion goes through when nothing stands in its way: the server
    answers, the identifiers of the store were drawn from the sequences,
    the chunker has returned chunks with distinct indices, the digest is
    new, and the name, the metadata and the texts are what psycopg2 and the
    columns take. *)
Lemma ingestion_succeeds (fuel : nat) (rag : PolicyWordingRAG) (S : Server)
    (document_text : option text) (name name' : text) (pdf_bytes : option pdf)
    (metadata : option json) (w : world) (cs : list chunk) (txt : text) :
  answers S -> consistent (w_db w) ->
  source_chunks fuel rag document_text pdf_bytes = Returned (cs, txt) ->
  utf8_encodable txt = true ->
  document_with_hash (sha256 (runtime rag) txt) (stored (w_db w)) = None ->
  adapt name = None -> varchar 255 name = Some name' ->
  jsonb_object (match metadata with Some m => m | None => [] end) <> None ->
  NoDup (map c_chunk_index cs) ->
  Forall (fun c => adapt (c_text c) = None) cs ->
  exists w',
    add_policy_document fuel rag S document_text (Some name) pdf_bytes metadata w
    = (Returned (documents_id_seq (w_db w), len cs), w').
Proof.
  intros (A1 & A2 & A3 & A4 & A5) [Hdocs Hrows] Hsrc Hutf Hfind Hadapt Hname Hjson
         Hnd Htexts.
  unfold add_policy_document. rewrite A1.
  unfold add_policy_document_body. unfold bind at 1.
  rewrite chunk_source_spec, Hsrc, (source_events_returned _ _ _ _ _ _ Hsrc).
  cbn [fst snd]. unfold bind at 1. unfold compute_document_hash. rewrite Hutf.
  unfold bind at 1. unfold emit at 1. unfold ret at 1. unfold bind at 1.
  unfold select_document_by_hash. rewrite A2.
  cbn [w_db w_view w_trace logged open_connection].
  unfold document_with_hash in Hfind. rewrite Hfind.
  unfold bind at 1. unfold emit at 1. unfold bind at 1.
  unfold insert_document. rewrite Hadapt, A3.
  destruct (jsonb_object _) as [metadata'|]; [|contradiction Hjson; reflexivity].
  rewrite Hname.
  cbn [w_db w_view w_trace].
  assert (Ex : existsb (fun d => (d_document_hash d =? sha256 (runtime rag) txt)%N
                                 || (d_id d =? documents_id_seq (w_db w)))
                       (policy_documents (stored (w_db w))) = false).
  { apply not_true_is_false. intro Ht. apply existsb_exists in Ht.
    destruct Ht as (d & Hin & Ht). apply orb_true_iff in Ht. destruct Ht as [Ht|Ht].
    - apply find_none_existsb in Hfind.
      assert (existsb (fun d => (d_document_hash d =? sha256 (runtime rag) txt)%N)
                      (policy_documents (stored (w_db w))) = true) as Hx
        by (apply existsb_exists; exists d; auto).
      congruence.
    - apply Z.eqb_eq in Ht. specialize (Hdocs d Hin). lia. }
  rewrite Ex.
  unfold bind at 1. unfold insert_chunks. unfold bind at 1.
  rewrite insert_pages_sendable;
    [| apply Nat.le_refl | apply chunk_records_sendable; exact Htexts | exact A4].
  match goal with
  | |- context [insert_chunk_rows S ?recs ?w0] =>
      destruct (insert_chunk_rows_succeeds S recs w0) as [w1 Hw1]
  end; cbn [w_db w_view chunks_id_seq policy_chunks policy_documents].
  - intros row Hin. apply Hrows, Hin.
  - intros k Hk. eexists. split; [apply in_or_app; right; left; reflexivity|].
    simpl. symmetry. apply (chunk_records_document _ _ _ _ Hk).
  - rewrite chunk_records_indices
      by (rewrite generate_embeddings_batch_length; apply length_map).
    rewrite <- (map_map c_chunk_index (fun i => (documents_id_seq (w_db w), i))).
    apply NoDup_map_pair, Hnd.
  - intros k row Hk Hin [H1 _].
    destruct (Hrows row Hin) as [_ Hd].
    rewrite (chunk_records_document _ _ _ _ Hk) in H1. lia.
  - rewrite Hw1. unfold emit, bind, commit, ret. rewrite A5.
    eexists. reflexivity.
Qed.

(** What the way a call ended tells about the steps it took: a call that
    returned met no failing statement, a call that raised with a connection
    open rolled back last, and only the chunker can keep a call from
    ending. *)
Lemma add_policy_document_steps (fuel : nat) (rag : PolicyWordingRAG) (S : Server)
    (document_text document_name : option text) (pdf_bytes : option pdf)
    (metadata : option json) (w : world) (r : res (Z * Z)) (w' : world) :
  add_policy_document fuel rag S document_text document_name pdf_bytes metadata w = (r, w') ->
  match r with
  | Returned _ =>
      connect_fails S = false /\ select_fails S = false /\
      forall cs txt,
        source_chunks fuel rag document_text pdf_bytes = Returned (cs, txt) ->
        document_with_hash (sha256 (runtime rag) txt) (stored (w_db w)) = None ->
        insert_document_fails S = false /\
        (cs <> [] -> insert_chunks_fails S = false) /\
        commit_fails S = false
  | Raised e =>
      (connect_fails S = true /\ e = OperationalError /\ w' = w) \/
      (connect_fails S = false /\
       exists evs, w_trace w' = w_trace w ++ evs ++ [EvRollback])
  | Diverged => source_chunks fuel rag document_text pdf_bytes = Diverged
  end.
Proof.
  unfold add_policy_document. intro H.
  destruct (connect_fails S) eqn:Hcon.
  { inversion H; subst. left. auto. }
  unfold add_policy_document_body in H. unfold bind at 1 in H.
  rewrite chunk_source_spec in H.
  destruct (source_chunks fuel rag document_text pdf_bytes) as [[cs txt]| e |] eqn:Hsrc.
  2:{ inversion H; subst. right. split; [reflexivity|].
      exists (source_events fuel rag document_text pdf_bytes). simpl.
      rewrite <- app_assoc. reflexivity. }
  2:{ inversion H; subst. reflexivity. }
  rewrite (source_events_returned _ _ _ _ _ _ Hsrc) in H.
  simpl fst in H. simpl snd in H.
  unfold bind at 1 in H. unfold compute_document_hash in H.
  destruct (utf8_encodable txt) eqn:Hutf.
  2:{ unfold raise in H. inversion H; subst. right. split; [reflexivity|].
      exists [EvChunk (List.length cs)]. simpl. rewrite <- app_assoc. reflexivity. }
  unfold bind at 1 in H. unfold emit, ret in H.
  unfold bind at 1 in H. unfold select_document_by_hash in H.
  destruct (select_fails S) eqn:Hsel.
  { inversion H; subst. right. split; [reflexivity|].
    exists [EvChunk (List.length cs); EvHash]. simpl.
    repeat rewrite <- app_assoc. reflexivity. }
  cbn [w_db w_view w_trace logged open_connection] in H.
  destruct (find (fun d => N.eqb (d_document_hash d) (sha256 (runtime rag) txt))
                 (policy_documents (stored (w_db w)))) as [row|] eqn:Hfind.
  { inversion H; subst. split; [reflexivity|]. split; [reflexivity|].
    intros cs0 txt0 E0 Hnone. inversion E0; subst cs0 txt0.
    unfold document_with_hash in Hnone. congruence. }
  unfold bind at 1 in H. unfold bind at 1 in H.
  cbn [w_db w_view w_trace] in H.
  match type of H with
  | context [insert_document S ?dn ?h ?n ?md ?w0] =>
      destruct (insert_document S dn h n md w0) as [rd wd] eqn:Hdoc;
      pose proof (insert_document_spec _ _ _ _ _ _ _ _ Hdoc) as (D1 & D2 & D3 & D4)
  end.
  cbn [w_db w_view w_trace] in D1, D2, D3, D4.
  destruct rd as [id| e |]; [| | contradiction].
  2:{ destruct D4 as [D4 D5]. inversion H; subst. right. split; [reflexivity|].
      exists [EvChunk (List.length cs); EvHash; EvSelect;
              EvEmbed (List.length (map c_text cs))].
      simpl. rewrite D5. repeat rewrite <- app_assoc. reflexivity. }
  destruct D4 as (Hid & Df & Dx & name & name' & metadata' & Hname & Da & Dv & Dj & Hwd).
  subst id wd. clear Hdoc D1 D2 D3.
  unfold bind at 1 in H. unfold insert_chunks in H. unfold bind at 1 in H.
  match type of H with
  | context [insert_pages ?n S ?recs ?w0] =>
      destruct (insert_pages n S recs w0) as [r1 w1] eqn:Hpages;
      pose proof (insert_pages_spec S n recs w0 r1 w1 (le_n _) Hpages) as Hspec;
      cbn [w_db w_view w_trace stored documents_id_seq chunks_id_seq
           policy_documents policy_chunks] in Hspec;
      destruct Hspec as (R1 & R2 & R3 & R4 & R5)
  end.
  destruct r1 as [[]| e |]; [| | contradiction].
  2:{ inversion H; subst. right. split; [reflexivity|].
      exists [EvChunk (List.length cs); EvHash; EvSelect;
              EvEmbed (List.length (map c_text cs)); EvInsertDocument].
      simpl. rewrite R3. repeat rewrite <- app_assoc. reflexivity. }
  destruct R5 as (_ & _ & Hbatch).
  unfold emit, bind, commit, ret in H.
  destruct (commit_fails S) eqn:Hcom.
  { inversion H; subst. right. split; [reflexivity|].
    exists [EvChunk (List.length cs); EvHash; EvSelect;
            EvEmbed (List.length (map c_text cs)); EvInsertDocument;
            EvInsertChunks
              (List.length (chunk_records (documents_id_seq (w_db w)) cs
                 (generate_embeddings_batch (embedding_generator rag) (map c_text cs))))].
    simpl. rewrite R3. repeat rewrite <- app_assoc. reflexivity. }
  inversion H; subst. split; [reflexivity|]. split; [reflexivity|].
  intros cs0 txt0 E0 _. inversion E0; subst cs0 txt0.
  split; [exact Df|]. split; [|reflexivity].
  intro Hne. apply Hbatch. intro Hnil.
  apply (f_equal (@List.length _)) in Hnil.
  rewrite chunk_records_length in Hnil
    by (rewrite generate_embeddings_batch_length; apply length_map).
  destruct cs; [contradiction | discriminate].
Qed.

Lemma chunk_records_texts (id : Z) (cs : list chunk) :
  forall es, List.length es = List.length cs ->
    map k_text (chunk_records id cs es) = map c_text cs.
Proof.
  induction cs as [|c cs IH]; intros [|e es] H; simpl in *;
    try discriminate; [reflexivity|].
  f_equal. apply IH; lia.
Qed.

Lemma rows_of_texts (S : Server) (records : list chunk_record) :
  forall i, map r_chunk_text (rows_of S i records) = map k_text records.
Proof.
  induction records as [|k rest IH]; intro i; simpl; [reflexivity|].
  f_equal. apply IH.
Qed.

(** C2: an ingestion is all or nothing.  A call that returns has chunked
    its input and either found the digest, and then returns the stored pair
    and leaves the tables alone, or it committed one document row for the
    digest and one chunk row for every chunk, with one commit, the last call
    it made.  A call that does not return raised one exception (or hangs in
    the chunker) without a commit, the committed tables hold no new row, and
    with a connection open the last call it made is the rollback.  A
    statement that fails on the server is not swallowed: the call raises.
    And when the server answers and the name, the metadata and the texts
    are what the driver and the columns take, the call does return. *)
Theorem ingestion_is_atomic (fuel : nat) (rag : PolicyWordingRAG) (S : Server)
    (document_text document_name : option text) (pdf_bytes : option pdf)
    (metadata : option json) (w : world) :
  let result := add_policy_document fuel rag S document_text document_name
                  pdf_bytes metadata w in
  let source := source_chunks fuel rag document_text pdf_bytes in
  let before := stored (w_db w) in
  let after := stored (w_db (snd result)) in
  (exists evs, w_trace (snd result) = w_trace w ++ evs /\
   match fst result with
   | Returned (id, n) =>
       exists cs txt, source = Returned (cs, txt) /\
       match document_with_hash (sha256 (runtime rag) txt) before with
       | Some row =>
           id = d_id row /\ n = d_total_chunks row /\
           after = before /\ ~ In EvCommit evs
       | None =>
           exists doc rows evs0,
             policy_documents after = policy_documents before ++ [doc] /\
             d_id doc = id /\ d_document_hash doc = sha256 (runtime rag) txt /\
             d_total_chunks doc = n /\ n = len cs /\
             policy_chunks after = policy_chunks before ++ rows /\
             map r_chunk_text rows = map c_text cs /\
             Forall (fun row => r_document_id row = id) rows /\
             evs = evs0 ++ [EvInsertDocument; EvInsertChunks (List.length rows);
                            EvCommit] /\
             ~ In EvCommit evs0
       end
   | Raised _ =>
       after = before /\ ~ In EvCommit evs /\
       (connect_fails S = false -> exists evs0, evs = evs0 ++ [EvRollback])
   | Diverged => after = before /\ ~ In EvCommit evs /\ source = Diverged
   end) /\
  (forall cs txt, source = Returned (cs, txt) ->
     connect_fails S = true \/ select_fails S = true \/
     (document_with_hash (sha256 (runtime rag) txt) before = None /\
      (insert_document_fails S = true \/
       (cs <> [] /\ insert_chunks_fails S = true) \/
       commit_fails S = true)) ->
     exists e, fst result = Raised e) /\
  (forall cs txt, source = Returned (cs, txt) -> utf8_encodable txt = true ->
     answers S ->
     match document_with_hash (sha256 (runtime rag) txt) before with
     | Some row => fst result = Returned (d_id row, d_total_chunks row)
     | None =>
         forall name name',
           document_name = Some name -> adapt name = None ->
           varchar 255 name = Some name' ->
           jsonb_object (match metadata with Some m => m | None => [] end) <> None ->
           consistent (w_db w) ->
           NoDup (map c_chunk_index cs) ->
           Forall (fun c => adapt (c_text c) = None) cs ->
           fst result = Returned (documents_id_seq (w_db w), len cs)
     end).
Proof.
  cbv zeta.
  destruct (add_policy_document fuel rag S document_text document_name
              pdf_bytes metadata w) as [r w'] eqn:E.
  pose proof (add_policy_document_cases _ _ _ _ _ _ _ _ _ _ E) as Hcases.
  pose proof (add_policy_document_steps _ _ _ _ _ _ _ _ _ _ E) as Hsteps.
  cbn [fst snd]. split; [|split].
  - destruct Hcases as [(Hr & Hs & evs & Ht & Hc) | [Hre | Hins]].
    + exists evs. split; [exact Ht|].
      destruct r as [[id n]| e |].
      * exfalso. exact (Hr _ eq_refl).
      * split; [exact Hs|]. split; [exact Hc|]. intro Hcon.
        destruct Hsteps as [(Hcon' & _) | (_ & evs1 & Ht1)]; [congruence|].
        rewrite Ht1 in Ht. apply app_inv_head in Ht. exists evs1. symmetry. exact Ht.
      * split; [exact Hs|]. split; [exact Hc | exact Hsteps].
    + destruct Hre as (cs & txt & row & Hsrc & Hutf & Hfind & Hr & Hdb & Ht).
      eexists. split; [exact Ht|]. subst r. exists cs, txt. split; [exact Hsrc|].
      rewrite Hfind, Hdb. repeat split. simpl. intuition discriminate.
    + destruct Hins as (cs & txt & name & Hsrc & _ & Hfind & Hr & _ & Hd & Hc & Ht).
      cbv zeta in Hr. eexists. split; [exact Ht|]. subst r.
      exists cs, txt. split; [exact Hsrc|]. rewrite Hfind.
      assert (Hes : List.length
                (generate_embeddings_batch (embedding_generator rag) (map c_text cs))
              = List.length cs)
        by (rewrite generate_embeddings_batch_length; apply length_map).
      eexists. eexists. exists [EvChunk (List.length cs); EvHash; EvSelect;
                                EvEmbed (List.length cs)].
      split; [exact Hd|]. split; [reflexivity|]. split; [reflexivity|].
      split; [reflexivity|]. split; [reflexivity|].
      split; [exact Hc|].
      split; [rewrite rows_of_texts; apply chunk_records_texts; exact Hes|].
      split.
      * apply Forall_forall. intros row Hin.
        apply rows_of_origin in Hin. exact (proj1 Hin).
      * split; [rewrite rows_of_length; reflexivity | simpl; intuition discriminate].
  - intros cs txt Hsrc Hfail. destruct r as [[id n]| e |].
    + exfalso. destruct Hsteps as (Hcon & Hsel & Hrest).
      destruct Hfail as [Hf | [Hf | (Hnone & Hf)]]; [congruence | congruence |].
      destruct (Hrest cs txt Hsrc Hnone) as (H1 & H2 & H3).
      destruct Hf as [Hf | [(Hne & Hf) | Hf]]; [congruence | | congruence].
      rewrite (H2 Hne) in Hf. discriminate.
    + exists e. reflexivity.
    + congruence.
  - intros cs txt Hsrc Hutf Hans.
    destruct (document_with_hash (sha256 (runtime rag) txt) (stored (w_db w)))
      as [row|] eqn:Hfind.
    + destruct Hans as (A1 & A2 & _).
      rewrite (add_policy_document_reuse _ _ _ _ _ _ _ _ _ _ _ Hsrc Hutf Hfind A1 A2) in E.
      inversion E. reflexivity.
    + intros name name' Hname Hadapt Hfits Hjson Hcons Hnd Htexts. subst document_name.
      destruct (ingestion_succeeds fuel rag S document_text name name' pdf_bytes
                  metadata w cs txt Hans Hcons Hsrc Hutf Hfind Hadapt Hfits Hjson
                  Hnd Htexts) as (w1 & Hw1).
      rewrite Hw1 in E. inversion E. reflexivity.
Qed.

Lemma ingestion_is_atomic_witness :
  fst (add_policy_document 1 example_rag healthy (Some hello_text) (Some policy_name)
         None None (at_rest empty_database)) = Returned (1, 1) /\
  exists e,
    fst (add_policy_document 1 example_rag
           {| connect_fails := false; select_fails := false;
              insert_document_fails := false; insert_chunks_fails := false;
              commit_fails := true; current_timestamp := 0 |}
           (Some hello_text) (Some policy_name) None None (at_rest empty_database))
    = Raised e.
Proof.
  split.
  - destruct (ingestion_is_atomic 1 example_rag healthy (Some hello_text)
                (Some policy_name) None None (at_rest empty_database))
      as (_ & _ & Hreturns).
    apply (Hreturns [hello_chunk] hello_text eq_refl eq_refl
             (conj eq_refl (conj eq_refl (conj eq_refl (conj eq_refl eq_refl))))
             policy_name policy_name eq_refl eq_refl eq_refl).
    + discriminate.
    + split; intros ? [].
    + repeat constructor. intros [].
    + repeat constructor.
  - destruct (ingestion_is_atomic 1 example_rag
                {| connect_fails := false; select_fails := false;
                   insert_document_fails := false; insert_chunks_fails := false;
                   commit_fails := true; current_timestamp := 0 |}
                (Some hello_text) (Some policy_name) None None (at_rest empty_database))
      as (_ & Hraises & _).
    apply (Hraises [hello_chunk] hello_text eq_refl).
    right. right. split; [reflexivity|]. right. right. reflexivity.
Defined.

(** C1, as the code has it: once a call has returned [(id, n)] for some
    input, a later call with the same text (or the same PDF), under any name
    and metadata, returns [(id, n)] again whenever the server answers.  It
    leaves the database as it was, rows and sequences, and computes no
    embedding; the chunker, though, runs again before the digest is taken. *)
Theorem reingestion_reuses_document (fuel : nat) (rag : PolicyWordingRAG) (S S' : Server)
    (document_text : option text) (pdf_bytes : option pdf)
    (document_name document_name' : option text) (metadata metadata' : option json)
    (w w1 : world) (id n : Z) :
  add_policy_document fuel rag S document_text document_name pdf_bytes metadata w
    = (Returned (id, n), w1) ->
  connect_fails S' = false -> select_fails S' = false ->
  exists k w2,
    add_policy_document fuel rag S' document_text document_name' pdf_bytes metadata' w1
      = (Returned (id, n), w2) /\
    w_db w2 = w_db w1 /\
    w_trace w2 = w_trace w1 ++ [EvChunk k; EvHash; EvSelect].
Proof.
  intros H Hc Hs. apply add_policy_document_cases in H.
  destruct H as [(Hr & _) | [E | E]].
  - exfalso. apply (Hr (id, n)). reflexivity.
  - destruct E as (cs & txt & row & Hsrc & Hutf & Hfind & Hr & Hdb & _).
    inversion Hr; subst id n. rewrite <- Hdb in Hfind.
    exists (List.length cs). eexists. split.
    + eapply add_policy_document_reuse; eassumption.
    + split; reflexivity.
  - destruct E as (cs & txt & name & Hsrc & Hutf & Hfind & Hr & _ & Hd & _).
    cbv zeta in Hr. inversion Hr; subst id n.
    exists (List.length cs). eexists. split.
    + match goal with
      | Hd : policy_documents _ = _ ++ [?doc] |- _ =>
          apply (add_policy_document_reuse fuel rag S' document_text document_name'
                   pdf_bytes metadata' w1 cs txt doc Hsrc Hutf)
      end; try assumption.
      unfold document_with_hash in *. rewrite Hd, find_snoc, Hfind.
      cbn [d_document_hash]. rewrite N.eqb_refl. reflexivity.
    + split; reflexivity.
Qed.

(** The claim C1 fails as stated.  An empty text is refused by both calls,
    so no pair is returned for it; and on the second ingestion of
    "Hello. World." the chunker is called before the digest is computed and
    looked up, as the calls recorded by that second ingestion show. *)
Lemma reingestion_chunks_before_hashing :
  (exists e,
     fst (add_policy_document 1 example_rag healthy (Some []) (Some policy_name)
            None None (at_rest empty_database)) = Raised e) /\
  let first := add_policy_document 1 example_rag healthy (Some hello_text)
                 (Some policy_name) None None (at_rest empty_database) in
  let second := add_policy_document 1 example_rag healthy (Some hello_text)
                  (Some policy_name) None None (at_rest (w_db (snd first))) in
  fst first = Returned (1, 1) /\
  fst second = Returned (1, 1) /\
  w_trace (snd second) = [EvChunk 1; EvHash; EvSelect].
Proof.
  split.
  - eexists. vm_compute. reflexivity.
  - vm_compute. repeat split; reflexivity.
Qed.

Lemma reingestion_reuses_document_witness :
  let first := add_policy_document 1 example_rag healthy (Some hello_text)
                 (Some policy_name) None None (at_rest empty_database) in
  exists k w2,
    add_policy_document 1 example_rag healthy (Some hello_text) None None None
      (snd first) = (Returned (1, 1), w2) /\
    w_db w2 = w_db (snd first) /\
    w_trace w2 = w_trace (snd first) ++ [EvChunk k; EvHash; EvSelect].
Proof.
  cbv zeta.
  apply (reingestion_reuses_document 1 example_rag healthy healthy
           (Some hello_text) None (Some policy_name) None None None
           (at_rest empty_database)).
  - vm_compute. reflexivity.
  - reflexivity.
  - reflexivity.
Defined.

(** C3, on the code: [process_pdf_bytes] numbers the chunks of every page
    from 0, so the two chunks of [two_page_pdf] both carry index 0, the
    batch insert breaks UNIQUE(document_id, chunk_index), and the ingestion
    raises and rolls back. *)
Theorem two_page_pdf_is_rejected :
  option_map (map (fun c => (c_page_number c, c_chunk_index c)))
    (process_pdf_bytes 1 ascii_runtime default_processor two_page_pdf)
    = Some [(1, 0); (2, 0)] /\
  let result := add_policy_document 1 example_rag healthy None (Some policy_name)
                  (Some two_page_pdf) None (at_rest empty_database) in
  fst result = Raised UniqueViolation /\
  stored (w_db (snd result)) = stored empty_database.
Proof. vm_compute. repeat split; reflexivity. Qed.

(** The same holds for every PDF: when two of its pages each give at least
    one chunk, no call of [add_policy_document] stores it. *)
Lemma pdf_with_two_chunked_pages_is_never_stored (fuel : nat) (rag : PolicyWordingRAG)
    (S : Server) (document_name : option text) (f : pdf) (metadata : option json)
    (w w' : world) (r : res (Z * Z))
    (l1 l2 l3 : list (text * Z)) (t1 t2 : text) (p1 p2 : Z)
    (c1 c2 : chunk) (cs1 cs2 : list chunk) :
  extract_text_from_pdf (runtime rag) f = l1 ++ (t1, p1) :: l2 ++ (t2, p2) :: l3 ->
  chunk_text fuel (pdf_processor rag) t1 p1 = Some (c1 :: cs1) ->
  chunk_text fuel (pdf_processor rag) t2 p2 = Some (c2 :: cs2) ->
  add_policy_document fuel rag S None document_name (Some f) metadata w = (r, w') ->
  ends_failed w r w' \/ ends_reused fuel rag None (Some f) w r w'.
Proof.
  intros Hx H1 H2 H. apply add_policy_document_cases in H.
  destruct H as [H | [H | H]]; [left; exact H | right; exact H |].
  exfalso. destruct H as (cs & txt & name & Hsrc & _ & _ & _ & Hnd & _).
  unfold source_chunks in Hsrc. cbn [given] in Hsrc.
  unfold process_pdf_bytes in Hsrc. rewrite Hx in Hsrc.
  destruct (chunk_pages fuel (pdf_processor rag) (l1 ++ (t1, p1) :: l2 ++ (t2, p2) :: l3))
    as [[|c cs0]|] eqn:E; try discriminate Hsrc.
  inversion Hsrc; subst cs txt.
  exact (two_chunked_pages_repeat_index _ _ _ _ _ _ _ _ _ _ _ _ _ _ H1 H2 E Hnd).
Qed.

(** The claim C10 fails as stated: the one chunk stored for the plain text
    "Hello. World." has page number 1, not 0. *)
Lemma plain_text_chunk_on_page_one :
  let result := add_policy_document 1 example_rag healthy (Some hello_text)
                  (Some policy_name) None None (at_rest empty_database) in
  fst result = Returned (1, 1) /\
  map (fun row => (r_chunk_text row, r_page_number row))
      (policy_chunks (stored (w_db (snd result)))) = [(hello_text, 1)].
Proof. vm_compute. split; reflexivity. Qed.

(** C10, as the code has it: a chunk row that an ingestion adds belongs to
    the returned document; it has page number 1 when the source is plain
    text ([chunk_text] is called with its default page), and when the source
    is a PDF it has the one-based number of the page whose cleaned text the
    chunk was cut from. *)
Theorem stored_page_number (fuel : nat) (rag : PolicyWordingRAG) (S : Server)
    (document_text document_name : option text) (pdf_bytes : option pdf)
    (metadata : option json) (w w' : world) (id n : Z) (row : chunk_row) :
  add_policy_document fuel rag S document_text document_name pdf_bytes metadata w
    = (Returned (id, n), w') ->
  In row (policy_chunks (stored (w_db w'))) ->
  In row (policy_chunks (stored (w_db w))) \/
  (r_document_id row = id /\
   match given document_text, pdf_bytes with
   | Some _, _ => r_page_number row = 1
   | None, Some f =>
       exists pages i raw cs c,
         f = Pages pages /\ nth_error pages i = Some raw /\
         r_page_number row = Z.of_nat i + 1 /\
         chunk_text fuel (pdf_processor rag) (clean_text (runtime rag) raw)
                    (Z.of_nat i + 1) = Some cs /\
         In c cs /\ r_chunk_text row = c_text c
   | None, None => False
   end).
Proof.
  intros H Hin. apply add_policy_document_cases in H.
  destruct H as [(Hr & _) | [E | E]].
  - exfalso. apply (Hr (id, n)). reflexivity.
  - destruct E as (cs & txt & d & _ & _ & _ & _ & Hdb & _).
    left. rewrite <- Hdb. exact Hin.
  - destruct E as (cs & txt & name & Hsrc & _ & _ & Hr & _ & _ & Hc & _).
    cbv zeta in Hr. inversion Hr; subst id n. clear Hr.
    rewrite Hc in Hin. apply in_app_or in Hin. destruct Hin as [Hin|Hin]; [left; exact Hin|].
    right. apply rows_of_origin in Hin.
    destruct Hin as (Hid & c & e & Hc1 & _ & _ & Htxt & Hpg & _).
    split; [exact Hid|].
    unfold source_chunks in Hsrc.
    destruct (given document_text) as [t|]; destruct pdf_bytes as [f|].
    + destruct (chunk_text fuel (pdf_processor rag) t 1) as [cs0|] eqn:Ect; [|discriminate].
      inversion Hsrc; subst. apply chunk_text_page in Ect.
      rewrite Forall_forall in Ect. rewrite Hpg. apply Ect. exact Hc1.
    + destruct (chunk_text fuel (pdf_processor rag) t 1) as [cs0|] eqn:Ect; [|discriminate].
      inversion Hsrc; subst. apply chunk_text_page in Ect.
      rewrite Forall_forall in Ect. rewrite Hpg. apply Ect. exact Hc1.
    + unfold process_pdf_bytes in Hsrc.
      destruct (chunk_pages fuel (pdf_processor rag) (extract_text_from_pdf (runtime rag) f))
        as [[|c0 cs0]|] eqn:Ecp; try discriminate.
      inversion Hsrc; subst cs txt. clear Hsrc.
      destruct (chunk_pages_origin _ _ _ _ _ Ecp Hc1) as (t & p & cs' & Hp & Hct & Hc').
      destruct f as [|pages]; [contradiction|].
      simpl in Hp. apply extract_pages_origin in Hp.
      destruct Hp as (i & raw & Hnth & Hpn & Ht).
      exists pages, i, raw, cs', c. subst t. replace (0 + Z.of_nat i + 1) with (Z.of_nat i + 1) in Hpn by lia.
      subst p. split; [reflexivity|]. split; [exact Hnth|].
      split; [|split; [exact Hct | split; [exact Hc' | exact Htxt]]].
      rewrite Hpg. apply chunk_text_page in Hct. rewrite Forall_forall in Hct.
      apply Hct. exact Hc'.
    + discriminate.
Qed.

Lemma stored_page_number_witness :
  In hello_row (policy_chunks (stored empty_database)) \/
  (r_document_id hello_row = 1 /\ r_page_number hello_row = 1).
Proof.
  apply (stored_page_number 1 example_rag healthy (Some hello_text) (Some policy_name)
           None None (at_rest empty_database) hello_ingested 1 1 hello_row).
  - vm_compute. reflexivity.
  - vm_compute. left. reflexivity.
Defined.








Lemma In_firstn {A} (n : nat) (l : list A) (x : A) : In x (firstn n l) -> In x l.
Proof.
  revert l. induction n as [|n IH]; intros [|y l]; simpl; try tauto.
  intros [H|H]; [left; exact H | right; apply IH; exact H].
Qed.

Lemma In_skipn {A} (n : nat) (l : list A) (x : A) : In x (skipn n l) -> In x l.
Proof.
  revert l. induction n as [|n IH]; intros [|y l]; simpl; try tauto.
  intro H. right. apply IH. exact H.
Qed.

Lemma In_slice {A} (l : list A) (a b : Z) (x : A) : In x (slice l a b) -> In x l.
Proof.
  unfold slice. intro H. apply In_firstn in H. apply In_skipn in H. exact H.
Qed.

Lemma In_lstrip (t : text) (c : char) : In c (lstrip t) -> In c t.
Proof.
  destruct (lstrip_suffix t) as (p & E). intro H. rewrite E.
  apply in_or_app. right. exact H.
Qed.

Lemma In_strip (t : text) (c : char) : In c (strip t) -> In c t.
Proof.
  unfold strip. intro H. apply In_lstrip.
  destruct (rstrip_prefix (lstrip t)) as (s & E). rewrite E.
  apply in_or_app. left. exact H.
Qed.

(** The characters of a text after [re.sub(r'\s+', ' ', _)] are its own
    and the space. *)
Lemma collapse_from_chars (t : text) (ch : char) :
  forall b, In ch (collapse_from b t) -> In ch t \/ ch = 32%N.
Proof.
  induction t as [|x t IH]; intros b H; [contradiction|].
  simpl in H. destruct (isspace x).
  - destruct b.
    + destruct (IH _ H) as [Hin|Hsp]; [left; right; exact Hin | right; exact Hsp].
    + destruct H as [H|H]; [right; symmetry; exact H|].
      destruct (IH _ H) as [Hin|Hsp]; [left; right; exact Hin | right; exact Hsp].
  - destruct H as [H|H]; [left; left; exact H|].
    destruct (IH _ H) as [Hin|Hsp]; [left; right; exact Hin | right; exact Hsp].
Qed.

Lemma chunk_step_chars (P : PDFProcessor) (t : text) (pg : Z) (st : loop_state) :
  Forall (fun c => forall ch, In ch (c_text c) -> In ch t) (ls_chunks st) ->
  Forall (fun c => forall ch, In ch (c_text c) -> In ch t)
         (ls_chunks (chunk_step P t pg st)).
Proof.
  intro H. unfold chunk_step.
  destruct (strip (slice t (ls_start st) (window_end P t (ls_start st)))) eqn:E; simpl.
  - exact H.
  - apply Forall_app. split; [exact H|]. constructor; [|constructor].
    cbn [c_text]. intros ch Hch. rewrite <- E in Hch.
    apply In_strip, In_slice in Hch. exact Hch.
Qed.

Lemma chunk_loop_chars (P : PDFProcessor) (t : text) (pg : Z) :
  forall fuel st cs,
    chunk_loop fuel P t pg st = Some cs ->
    Forall (fun c => forall ch, In ch (c_text c) -> In ch t) (ls_chunks st) ->
    Forall (fun c => forall ch, In ch (c_text c) -> In ch t) cs.
Proof.
  induction fuel as [|fuel IH]; intros st cs H Hst.
  - rewrite chunk_loop_O in H. destruct (ls_start st <? len t); [discriminate|].
    inversion H; subst. exact Hst.
  - rewrite chunk_loop_S in H. destruct (ls_start st <? len t).
    + apply IH in H; [exact H | apply chunk_step_chars; exact Hst].
    + inversion H; subst. exact Hst.
Qed.

(** The characters of a chunk are characters of the text, or the space
    that stands for a run of whitespace. *)
Lemma chunk_text_chars (fuel : nat) (P : PDFProcessor) (t : text) (pg : Z)
    (cs : list chunk) :
  chunk_text fuel P t pg = Some cs ->
  Forall (fun c => forall ch, In ch (c_text c) -> In ch t \/ ch = 32%N) cs.
Proof.
  intro H. unfold chunk_text in H. apply chunk_loop_chars in H; [|constructor].
  apply Forall_forall. intros c Hc ch Hch.
  rewrite Forall_forall in H. specialize (H c Hc ch Hch).
  unfold normalize, re_sub_whitespace in H. apply In_strip in H.
  apply (collapse_from_chars _ _ _ H).
Qed.

(** What psycopg2 adapts: the strings without a surrogate and without
    NUL. *)
Lemma adapt_spec (s : text) :
  adapt s = None <->
  forall ch, In ch s -> negb ((55296 <=? ch) && (ch <=? 57343))%N = true /\ ch <> 0%N.
Proof.
  unfold adapt. split.
  - intros H ch Hch.
    destruct (utf8_encodable s) eqn:Hu; [|discriminate].
    destruct (existsb (N.eqb 0) s) eqn:Hz; [discriminate|].
    unfold utf8_encodable in Hu. rewrite forallb_forall in Hu.
    split; [apply (Hu ch Hch)|].
    intro E. subst ch.
    assert (existsb (N.eqb 0) s = true) as Hz'
      by (apply existsb_exists; exists 0%N; split; [exact Hch | reflexivity]).
    congruence.
  - intro H.
    assert (utf8_encodable s = true) as Hu
      by (unfold utf8_encodable; apply forallb_forall; intros ch Hch; apply (H ch Hch)).
    rewrite Hu. simpl.
    destruct (existsb (N.eqb 0) s) eqn:Hz; [|reflexivity].
    apply existsb_exists in Hz. destruct Hz as (ch & Hch & E).
    apply N.eqb_eq in E. subst ch. destruct (H _ Hch) as [_ Hne]. contradiction.
Qed.

Lemma adapt_encodable (s : text) : adapt s = None -> utf8_encodable s = true.
Proof.
  unfold adapt. destruct (utf8_encodable s); [reflexivity | discriminate].
Qed.

(** The chunks of a text that psycopg2 adapts are adapted as well. *)
Lemma chunk_text_sendable (fuel : nat) (P : PDFProcessor) (t : text) (pg : Z)
    (cs : list chunk) :
  chunk_text fuel P t pg = Some cs -> adapt t = None ->
  Forall (fun c => adapt (c_text c) = None) cs.
Proof.
  intros H Ht. apply chunk_text_chars in H. rewrite adapt_spec in Ht.
  eapply Forall_impl; [|exact H].
  intros c Hc. apply adapt_spec. intros ch Hch.
  destruct (Hc ch Hch) as [Hin|Hsp]; [apply Ht, Hin|].
  subst ch. split; [reflexivity | discriminate].
Qed.

(** The plain-text path does go through: on a consistent database and a
    server that answers, a non-empty text that the chunker finishes, that
    psycopg2 adapts and whose digest is new is stored under a name that
    psycopg2 adapts and that fits the column, with metadata that [jsonb]
    takes, and the call returns the new identifier and the number of
    chunks. *)
Lemma plain_text_ingestion_succeeds (fuel : nat) (rag : PolicyWordingRAG) (S : Server)
    (c : char) (t name name' : text) (metadata : option json) (db : database)
    (cs : list chunk) :
  answers S -> consistent db ->
  chunk_text fuel (pdf_processor rag) (c :: t) 1 = Some cs ->
  adapt (c :: t) = None ->
  document_with_hash (sha256 (runtime rag) (c :: t)) (stored db) = None ->
  adapt name = None ->
  varchar 255 name = Some name' ->
  jsonb_object (match metadata with Some m => m | None => [] end) <> None ->
  exists w',
    add_policy_document fuel rag S (Some (c :: t)) (Some name) None metadata (at_rest db)
    = (Returned (documents_id_seq db, len cs), w').
Proof.
  intros Hans Hco Hct Htext Hfind Hadapt Hname Hjson.
  assert (Hsrc : source_chunks fuel rag (Some (c :: t)) None = Returned (cs, c :: t)).
  { unfold source_chunks. cbn [given]. rewrite Hct. reflexivity. }
  apply (ingestion_succeeds fuel rag S (Some (c :: t)) name name' None metadata
           (at_rest db) cs (c :: t) Hans Hco Hsrc (adapt_encodable _ Htext) Hfind
           Hadapt Hname Hjson).
  - apply (chunk_text_indices_distinct _ _ _ _ _ Hct).
  - apply (chunk_text_sendable _ _ _ _ _ Hct Htext).
Qed.

(* ===================================================================== *)
(** * float32 arithmetic                                                  *)
(* ===================================================================== *)

(** ** Binary digits *)

Lemma digits2_pos_bounds (p : positive) :
  2 ^ (Zpos (digits2_pos p) - 1) <= Zpos p < 2 ^ Zpos (digits2_pos p).
Proof.
  induction p as [p IH | p IH |]; cbn [digits2_pos].
  - rewrite Pos2Z.inj_succ.
    replace (Z.succ (Zpos (digits2_pos p)) - 1) with (Z.succ (Zpos (digits2_pos p) - 1)) by lia.
    rewrite !Z.pow_succ_r by lia. lia.
  - rewrite Pos2Z.inj_succ.
    replace (Z.succ (Zpos (digits2_pos p)) - 1) with (Z.succ (Zpos (digits2_pos p) - 1)) by lia.
    rewrite !Z.pow_succ_r by lia. lia.
  - simpl. lia.
Qed.

Lemma Zdigits2_nonneg (m : Z) : 0 <= Zdigits2 m.
Proof. destruct m; simpl; lia. Qed.

Lemma Zdigits2_pos_iff (m : Z) : 0 <= m -> (0 < Zdigits2 m <-> 0 < m).
Proof. destruct m; simpl; lia. Qed.

(** A number of at least [2^k] has more than [k] digits. *)
Lemma Zdigits2_above (m k : Z) : 0 <= k -> 2 ^ k <= m -> k + 1 <= Zdigits2 m.
Proof.
  intros Hk H. destruct m as [|p|p].
  - pose proof (Z.pow_pos_nonneg 2 k). lia.
  - simpl. pose proof (digits2_pos_bounds p) as [_ Hu].
    assert (2 ^ k < 2 ^ Zpos (digits2_pos p)) as Hlt by lia.
    apply Z.pow_lt_mono_r_iff in Hlt; lia.
  - pose proof (Z.pow_pos_nonneg 2 k). lia.
Qed.

(** A positive number is at least [2^(d-1)] for its number of digits [d]. *)
Lemma Zdigits2_below (m : Z) : 0 < m -> 2 ^ (Zdigits2 m - 1) <= m.
Proof.
  intro H. destruct m as [|p|p]; try lia.
  simpl. apply digits2_pos_bounds.
Qed.

Lemma Zdigits2_mono (m m' : Z) : 0 <= m <= m' -> Zdigits2 m <= Zdigits2 m'.
Proof.
  intros [H0 H]. destruct (Z.eq_dec m 0) as [->|Hm].
  - apply Zdigits2_nonneg.
  - pose proof (Zdigits2_below m ltac:(lia)) as Hb.
    pose proof (Zdigits2_nonneg m).
    assert (0 < Zdigits2 m) by (apply Zdigits2_pos_iff; lia).
    pose proof (Zdigits2_above m' (Zdigits2 m - 1) ltac:(lia) ltac:(lia)). lia.
Qed.

Lemma Zdigits2_mul (a b : positive) :
  Zdigits2 (Zpos a) + Zdigits2 (Zpos b) - 1 <= Zdigits2 (Zpos (a * b)).
Proof.
  pose proof (Zdigits2_below (Zpos a) ltac:(lia)) as Ha.
  pose proof (Zdigits2_below (Zpos b) ltac:(lia)) as Hb.
  assert (0 < Zdigits2 (Zpos a)) by (simpl; lia).
  assert (0 < Zdigits2 (Zpos b)) by (simpl; lia).
  pose proof (Zdigits2_above (Zpos (a * b)) (Zdigits2 (Zpos a) - 1 + (Zdigits2 (Zpos b) - 1))
                ltac:(lia)) as H1.
  rewrite Z.pow_add_r in H1 by lia.
  rewrite Pos2Z.inj_mul in *.
  assert (2 ^ (Zdigits2 (Zpos a) - 1) * 2 ^ (Zdigits2 (Zpos b) - 1) <= Zpos a * Zpos b).
  { apply Z.mul_le_mono_nonneg; try assumption; apply Z.pow_nonneg; lia. }
  lia.
Qed.

(** ** Shifting a mantissa to the right *)

Lemma shr_1_digits (s : shr_record) :
  Zdigits2 (shr_m (shr_1 s)) = Z.max 0 (Zdigits2 (shr_m s) - 1).
Proof.
  destruct s as [m r st].
  destruct m as [|[p|p|]|[p|p|]];
    cbn [shr_1 shr_m Zdigits2 digits2_pos]; rewrite ?Pos2Z.inj_succ; lia.
Qed.

Lemma shr_1_nonneg (s : shr_record) : 0 <= shr_m s -> 0 <= shr_m (shr_1 s).
Proof.
  destruct s as [m r st]. destruct m as [|[p|p|]|[p|p|]]; cbn; lia.
Qed.

Lemma iter_shr_1 (p : positive) :
  forall s,
    Zdigits2 (shr_m (iter_pos shr_1 p s)) = Z.max 0 (Zdigits2 (shr_m s) - Zpos p) /\
    (0 <= shr_m s -> 0 <= shr_m (iter_pos shr_1 p s)).
Proof.
  induction p as [p IH | p IH |]; intro s; cbn [iter_pos].
  - destruct (IH (shr_1 s)) as [A1 A2].
    destruct (IH (iter_pos shr_1 p (shr_1 s))) as [B1 B2].
    split.
    + rewrite B1, A1, shr_1_digits. lia.
    + intro H. apply B2, A2, shr_1_nonneg, H.
  - destruct (IH s) as [A1 A2].
    destruct (IH (iter_pos shr_1 p s)) as [B1 B2].
    split.
    + rewrite B1, A1. lia.
    + intro H. apply B2, A2, H.
  - split; [apply shr_1_digits | apply shr_1_nonneg].
Qed.

Lemma shr_record_of_loc_m (m : Z) (l : location) : shr_m (shr_record_of_loc m l) = m.
Proof. destruct l as [|[| |]]; reflexivity. Qed.

(** What [shr_fexp] does to a mantissa, in binary32: the exponent reaches
    the least exponent of the format, no magnitude is lost, and a number
    whose magnitude is above that least exponent keeps a digit. *)
Lemma shr_fexp_32 (m e : Z) (l : location) :
  0 <= m ->
  let r := shr_fexp 24 128 m e l in
  0 <= shr_m (fst r) /\
  -149 <= snd r /\
  Zdigits2 m + e <= Zdigits2 (shr_m (fst r)) + snd r /\
  (0 < m -> -149 < Zdigits2 m + e -> 0 < shr_m (fst r)).
Proof.
  intro Hm. unfold shr_fexp, shr, fexp, emin. cbv zeta.
  pose proof (Zdigits2_nonneg m) as Hd.
  destruct (Z.max (Zdigits2 m + e - 24) (3 - 128 - 24) - e) as [|p|p] eqn:En;
    cbn [fst snd]; rewrite ?shr_record_of_loc_m.
  - split; [exact Hm|]. split; [lia|]. split; lia.
  - destruct (iter_shr_1 p (shr_record_of_loc m l)) as [A1 A2].
    rewrite shr_record_of_loc_m in A1, A2. specialize (A2 Hm).
    split; [exact A2|]. split; [lia|]. split; [lia|].
    intros Hpos Hmag. apply Zdigits2_pos_iff; [exact A2 | lia].
  - split; [exact Hm|]. split; [lia|]. split; lia.
Qed.

Lemma round_nearest_even_bounds (m : Z) (l : location) :
  m <= round_nearest_even m l <= m + 1.
Proof.
  unfold round_nearest_even. destruct l as [|[| |]]; try lia.
  destruct (Z.even m); lia.
Qed.

(** The result of rounding a non-negative mantissa in binary32. *)
Lemma binary_round_aux_32 (sx : bool) (mx ex : Z) (lx : location) :
  0 <= mx ->
  match binary_round_aux 24 128 sx mx ex lx with
  | S754_nan => False
  | S754_zero s => s = sx /\ (0 < mx -> Zdigits2 mx + ex <= -149)
  | S754_infinity s => s = sx
  | S754_finite s m e =>
      s = sx /\ -149 <= e /\ Zdigits2 mx + ex <= Zpos (digits2_pos m) + e
  end.
Proof.
  intro Hmx. unfold binary_round_aux.
  pose proof (shr_fexp_32 mx ex lx Hmx) as H1. cbv zeta in H1.
  destruct (shr_fexp 24 128 mx ex lx) as [mrs1 e1]. cbn [fst snd] in H1.
  destruct H1 as (N1 & E1 & D1 & P1).
  pose proof (round_nearest_even_bounds (shr_m mrs1) (loc_of_shr_record mrs1)) as Hr.
  set (m2 := round_nearest_even (shr_m mrs1) (loc_of_shr_record mrs1)) in *.
  assert (Hm2 : 0 <= m2) by lia.
  pose proof (Zdigits2_mono (shr_m mrs1) m2 ltac:(lia)) as Hmono.
  pose proof (shr_fexp_32 m2 e1 loc_Exact Hm2) as H2. cbv zeta in H2.
  destruct (shr_fexp 24 128 m2 e1 loc_Exact) as [mrs2 e2]. cbn [fst snd] in H2.
  destruct H2 as (N2 & E2 & D2 & P2).
  destruct (shr_m mrs2) as [|m|m] eqn:Em.
  - split; [reflexivity|]. intro Hpos.
    destruct (Z_le_gt_dec (Zdigits2 mx + ex) (-149)) as [Hle|Hgt]; [exact Hle|].
    exfalso. assert (0 < shr_m mrs1) by (apply P1; lia).
    assert (0 < 0) as Habs by (apply P2; lia). lia.
  - destruct (e2 <=? 128 - 24); [|reflexivity].
    split; [reflexivity|]. split; [exact E2|].
    change (Zpos (digits2_pos m)) with (Zdigits2 (Zpos m)). lia.
  - lia.
Qed.

(** ** The operations keep exponents in range *)

Lemma f32_mul_in_range (x y : float32) : exponent_in_range (f32_mul x y).
Proof.
  destruct x as [sx|sx| |sx mx ex]; destruct y as [sy|sy| |sy my ey]; try exact I.
  unfold f32_mul, SFmul.
  pose proof (binary_round_aux_32 (xorb sx sy) (Zpos (mx * my)) (ex + ey) loc_Exact
                ltac:(lia)) as H.
  destruct (binary_round_aux 24 128 (xorb sx sy) (Zpos (mx * my)) (ex + ey) loc_Exact);
    try exact I.
  simpl. lia.
Qed.

Lemma binary_round_in_range (sx : bool) (mx : positive) (ex : Z) :
  exponent_in_range (binary_round 24 128 sx mx ex).
Proof.
  unfold binary_round.
  destruct (shl_align mx ex (fexp 24 128 (Zpos (digits2_pos mx) + ex))) as [mz ez].
  pose proof (binary_round_aux_32 sx (Zpos mz) ez loc_Exact ltac:(lia)) as H.
  destruct (binary_round_aux 24 128 sx (Zpos mz) ez loc_Exact); try exact I.
  simpl. lia.
Qed.

Lemma f32_add_in_range (x y : float32) :
  exponent_in_range x -> exponent_in_range y -> exponent_in_range (f32_add x y).
Proof.
  intros Hx Hy.
  destruct x as [sx|sx| |sx mx ex]; destruct y as [sy|sy| |sy my ey];
    try exact I; try assumption;
    try (destruct sx, sy; exact I).
  unfold f32_add, SFadd, binary_normalize.
  match goal with
  | |- exponent_in_range (match ?z with _ => _ end) => destruct z
  end; try exact I; apply binary_round_in_range.
Qed.

Lemma dot_from_in_range (a : embedding) :
  forall b acc, exponent_in_range acc -> exponent_in_range (dot_from acc a b).
Proof.
  induction a as [|x a IH]; intros [|y b] acc H; simpl; try exact H.
  apply IH, f32_add_in_range; [exact H | apply f32_mul_in_range].
Qed.

(** ** Square roots *)

Lemma sqrt_pow2_le (k n : Z) : 0 <= k -> 2 ^ (2 * k) <= n -> 2 ^ k <= Z.sqrt n.
Proof.
  intros Hk H.
  assert (Hsq : 2 ^ (2 * k) = 2 ^ k * 2 ^ k).
  { replace (2 * k) with (k + k) by lia. apply Z.pow_add_r; lia. }
  rewrite <- (Z.sqrt_square (2 ^ k)) by (apply Z.pow_nonneg; lia).
  apply Z.sqrt_le_mono. lia.
Qed.

(** The square root of a positive float32 is positive, and its magnitude is
    about half the magnitude of its argument. *)
Lemma f32_sqrt_finite (mx : positive) (ex : Z) :
  -149 <= ex ->
  match f32_sqrt (S754_finite false mx ex) with
  | S754_finite s m e =>
      s = false /\ -149 <= e /\
      (Zpos (digits2_pos mx) + ex + 1) / 2 <= Zpos (digits2_pos m) + e
  | S754_infinity s => s = false
  | _ => False
  end.
Proof.
  intro Hex. unfold f32_sqrt, SFsqrt, SFsqrt_core_binary.
  change (Zdigits2 (Zpos mx)) with (Zpos (digits2_pos mx)).
  set (d := Zpos (digits2_pos mx)).
  assert (Hd : 1 <= d) by (unfold d; lia).
  rewrite !Z.div2_div. unfold fexp, emin.
  set (h := (d + ex + 1) / 2).
  assert (Hh : 2 * h <= d + ex + 1 < 2 * h + 2).
  { unfold h. pose proof (Z.div_mod (d + ex + 1) 2 ltac:(lia)).
    pose proof (Z.mod_pos_bound (d + ex + 1) 2 ltac:(lia)). lia. }
  set (g := ex / 2).
  assert (Hg : 2 * g <= ex < 2 * g + 2).
  { unfold g. pose proof (Z.div_mod ex 2 ltac:(lia)).
    pose proof (Z.mod_pos_bound ex 2 ltac:(lia)). lia. }
  clearbody h g.
  set (e' := Z.min (Z.max (h - 24) (3 - 128 - 24)) g).
  assert (He' : e' <= h - 24 /\ 2 * e' <= ex) by (unfold e'; lia).
  set (s := ex - 2 * e').
  assert (Hs : 0 <= s) by (unfold s; lia).
  set (m' := match s with
             | 0 => Zpos mx
             | Zpos _ => Z.shiftl (Zpos mx) s
             | Zneg _ => 0
             end).
  assert (Hm' : m' = Zpos mx * 2 ^ s).
  { unfold m'. destruct s as [|p|p] eqn:Es; try lia.
    apply Z.shiftl_mul_pow2. lia. }
  pose proof (Z.sqrtrem_sqrt m') as Hq.
  destruct (Z.sqrtrem m') as [q r]. cbn [fst] in Hq.
  set (k := h - e' - 1).
  assert (Hk : 0 <= k) by (unfold k; lia).
  assert (Hlow : 2 ^ (2 * k) <= m').
  { rewrite Hm'.
    pose proof (proj1 (digits2_pos_bounds mx)) as Hb. fold d in Hb.
    assert (2 ^ (2 * k) <= 2 ^ (d - 1 + s)) as Hp.
    { apply Z.pow_le_mono_r; [lia|]. unfold k, s. lia. }
    rewrite Z.pow_add_r in Hp by lia.
    assert (2 ^ (d - 1) * 2 ^ s <= Zpos mx * 2 ^ s).
    { apply Z.mul_le_mono_nonneg_r; [apply Z.pow_nonneg; lia | exact Hb]. }
    lia. }
  pose proof (sqrt_pow2_le k m' Hk Hlow) as Hqk. rewrite <- Hq in Hqk.
  assert (Hqpos : 0 < q) by (pose proof (Z.pow_pos_nonneg 2 k); lia).
  pose proof (Zdigits2_above q k Hk Hqk) as Hdq.
  match goal with
  | |- match binary_round_aux 24 128 false q e' ?l with _ => _ end =>
      pose proof (binary_round_aux_32 false q e' l ltac:(lia)) as H;
      destruct (binary_round_aux 24 128 false q e' l) as [sz|sz| |sz mz ez]
  end.
  - destruct H as [_ H]. specialize (H Hqpos). unfold k in Hdq. lia.
  - exact H.
  - exact H.
  - destruct H as (H1 & H2 & H3). split; [exact H1|]. split; [exact H2|].
    unfold k in Hdq. lia.
Qed.

Lemma least_norm_value : least_norm = S754_finite false 11863283 (-98).
Proof. vm_compute. reflexivity. Qed.

Lemma f32_ltb_zero_positive (x : float32) :
  f32_ltb f32_zero x = true <-> is_positive x.
Proof.
  destruct x as [s|[|]| |[|] m e]; simpl; split; intro H;
    try discriminate; try contradiction; try reflexivity; try exact I.
Qed.

(** A norm that is greater than zero. *)
Lemma positive_sqrt (a : float32) :
  exponent_in_range a ->
  f32_ltb f32_zero (f32_sqrt a) = true ->
  positive_norm (f32_sqrt a).
Proof.
  intros Hr Hpos. destruct a as [s|[|]| |[|] mx ex]; try discriminate Hpos.
  - left. reflexivity.
  - simpl in Hr.
    destruct (Pos.eq_dec mx 1) as [Hm|Hm]; destruct (Z.eq_dec ex (-149)) as [He|He];
      try (subst mx ex; right; left; reflexivity);
      pose proof (f32_sqrt_finite mx ex Hr) as H;
      (assert (Hd : -147 <= Zpos (digits2_pos mx) + ex)
        by (destruct mx; cbn [digits2_pos]; rewrite ?Pos2Z.inj_succ; try lia;
            congruence));
      (assert (Hh : -73 <= (Zpos (digits2_pos mx) + ex + 1) / 2)
        by (apply Z.div_le_lower_bound; lia));
      (destruct (f32_sqrt (S754_finite false mx ex)) as [s|s| |s m e];
       [ contradiction
       | subst s; left; reflexivity
       | contradiction
       | destruct H as (-> & _ & H); right; right; exists m, e;
         split; [reflexivity | lia] ]).
Qed.

Lemma f32_mul_positive (m1 m2 : positive) (e1 e2 : Z) :
  -147 <= (Zpos (digits2_pos m1) + e1) + (Zpos (digits2_pos m2) + e2) ->
  is_positive (f32_mul (S754_finite false m1 e1) (S754_finite false m2 e2)).
Proof.
  intro H. unfold f32_mul, SFmul. cbn [xorb].
  pose proof (binary_round_aux_32 false (Zpos (m1 * m2)) (e1 + e2) loc_Exact ltac:(lia)) as B.
  pose proof (Zdigits2_mul m1 m2) as Hm. cbn [Zdigits2] in Hm.
  destruct (binary_round_aux 24 128 false (Zpos (m1 * m2)) (e1 + e2) loc_Exact)
    as [s|s| |s m e].
  - destruct B as [_ B]. specialize (B ltac:(lia)). cbn [Zdigits2] in B. lia.
  - subst s. exact I.
  - contradiction.
  - destruct B as (-> & _). exact I.
Qed.

(** The product of two norms that are greater than zero is greater than
    zero: it does not underflow to zero. *)
Lemma positive_norm_mul (x y : float32) :
  positive_norm x -> positive_norm y -> is_positive (f32_mul x y).
Proof.
  intros [Hx | [Hx | (m1 & e1 & Hx & H1)]] [Hy | [Hy | (m2 & e2 & Hy & H2)]];
    subst x y; rewrite ?least_norm_value;
    try exact I; try (vm_compute; exact I);
    apply f32_mul_positive; cbn [digits2_pos Pos.succ] in *; lia.
Qed.

(** ** Division *)

Lemma f32_div_nan (x y : float32) :
  is_positive y ->
  is_nan (f32_div x y) = true ->
  is_nan x = true \/ (is_infinite x = true /\ is_infinite y = true).
Proof.
  intros Hy H.
  destruct y as [sy|[|]| |[|] my ey]; try contradiction;
    destruct x as [sx|sx| |sx mx ex]; try discriminate H; auto.
  exfalso. unfold f32_div, SFdiv, SFdiv_core_binary in H.
  match type of H with
  | context [Z.div_eucl ?a ?b] =>
      pose proof (Z.div_pos a b) as Hq;
      assert (Ha : 0 <= a);
      [| specialize (Hq Ha ltac:(lia)); unfold Z.div in Hq;
         destruct (Z.div_eucl a b) as [q r]; cbn [fst] in Hq ]
  end.
  - match goal with
    | |- 0 <= match ?s with _ => _ end => destruct s
    end; try lia. apply Z.shiftl_nonneg. lia.
  - match type of H with
    | context [binary_round_aux 24 128 ?s q ?e ?l] =>
        pose proof (binary_round_aux_32 s q e l Hq) as B;
        destruct (binary_round_aux 24 128 s q e l)
    end; try discriminate H. exact B.
Qed.

(** ** Cosine similarity *)

Lemma np_dot_aligned (a b : embedding) :
  List.length a = List.length b -> np_dot a b = Some (dot_from f32_zero a b).
Proof. intro H. unfold np_dot. rewrite H, Nat.eqb_refl. reflexivity. Qed.

Lemma norm_of_zeros (n : nat) : np_linalg_norm (np_zeros n) = f32_zero.
Proof.
  unfold np_linalg_norm.
  assert (H : dot_from f32_zero (np_zeros n) (np_zeros n) = f32_zero).
  { induction n as [|n IH]; [reflexivity | exact IH]. }
  rewrite H. reflexivity.
Qed.

Lemma norm_in_range (x : embedding) :
  exponent_in_range (dot_from f32_zero x x).
Proof. apply dot_from_in_range. exact I. Qed.

(** The claim C5 fails as stated: for the query [(2^63, 0, ...)] and the
    stored vector [(2^127, 0, ...)], both of dimension 384, the norms are
    [2^63] and [+inf] (the square of [2^127] overflows), the dot product
    overflows to [+inf] as well, and the score [inf / inf] is NaN. *)
Lemma overflow_gives_nan :
  List.length large_query = 384%nat /\ List.length huge_stored = 384%nat /\
  np_linalg_norm large_query = f32_of 1 63 /\
  np_linalg_norm huge_stored = S754_infinity false /\
  np_dot large_query huge_stored = Some (S754_infinity false) /\
  similarity large_query (np_linalg_norm large_query) huge_stored = Some S754_nan.
Proof. vm_compute. repeat split; reflexivity. Qed.

(** C5, as the code has it.  For a query and a stored vector of the same
    dimension whose norms are both greater than zero, the score is the
    float32 quotient of the dot product by the product of the norms; that
    product is itself greater than zero, so the division is never by zero;
    and the score is NaN only if the dot product is NaN or has overflowed
    to an infinity.  Whenever a norm is zero the score is exactly 0.0, and a
    stored vector of zeros scores exactly 0.0 against every query. *)
Theorem cosine_similarity_guarded (query_embedding stored_embedding : embedding) :
  let query_norm := np_linalg_norm query_embedding in
  let stored_norm := np_linalg_norm stored_embedding in
  let dot := dot_from f32_zero query_embedding stored_embedding in
  (List.length query_embedding = List.length stored_embedding ->
   f32_ltb f32_zero stored_norm = true -> f32_ltb f32_zero query_norm = true ->
   similarity query_embedding query_norm stored_embedding
     = Some (f32_div dot (f32_mul query_norm stored_norm)) /\
   is_positive (f32_mul query_norm stored_norm) /\
   (is_nan (f32_div dot (f32_mul query_norm stored_norm)) = true ->
    is_nan dot = true \/ is_infinite dot = true)) /\
  (is_zero stored_norm = true \/ is_zero query_norm = true ->
   similarity query_embedding query_norm stored_embedding = Some f32_zero) /\
  (forall n,
     similarity query_embedding query_norm (np_zeros n) = Some f32_zero).
Proof.
  cbv zeta. split; [|split].
  - intros Hlen Hs Hq.
    assert (Hpos : is_positive (f32_mul (np_linalg_norm query_embedding)
                                        (np_linalg_norm stored_embedding))).
    { apply positive_norm_mul; apply positive_sqrt;
        try apply norm_in_range; assumption. }
    split; [|split].
    + unfold similarity. rewrite Hs, Hq, (np_dot_aligned _ _ Hlen). reflexivity.
    + exact Hpos.
    + intro Hnan. destruct (f32_div_nan _ _ Hpos Hnan) as [H|[H _]]; auto.
  - intros H. unfold similarity.
    assert (f32_ltb f32_zero (np_linalg_norm stored_embedding)
            && f32_ltb f32_zero (np_linalg_norm query_embedding) = false) as ->;
      [|reflexivity].
    destruct H as [H|H];
      [ destruct (np_linalg_norm stored_embedding); try discriminate H; reflexivity
      | destruct (np_linalg_norm query_embedding); try discriminate H;
        apply andb_false_r ].
  - intro n. unfold similarity. rewrite norm_of_zeros. reflexivity.
Qed.

Lemma cosine_similarity_guarded_witness :
  similarity axis_stored (np_linalg_norm axis_stored) diagonal_stored
    = Some (f32_div (dot_from f32_zero axis_stored diagonal_stored)
              (f32_mul (np_linalg_norm axis_stored) (np_linalg_norm diagonal_stored))) /\
  is_positive (f32_mul (np_linalg_norm axis_stored) (np_linalg_norm diagonal_stored)) /\
  similarity axis_stored (np_linalg_norm axis_stored) (np_zeros 384) = Some f32_zero.
Proof.
  destruct (cosine_similarity_guarded axis_stored diagonal_stored) as (H1 & H2 & H3).
  destruct H1 as (A & B & C).
  - reflexivity.
  - vm_compute. reflexivity.
  - vm_compute. reflexivity.
  - split; [exact A|]. split; [exact B|]. apply H3.
Defined.

(* ===================================================================== *)
(** * Similarity search                                                   *)
(* ===================================================================== *)

(** ** The order of float32 keys *)

Lemma f32_ltb_rank (x y : float32) :
  is_nan x = false -> is_nan y = false ->
  (f32_ltb x y = true <-> lex_lt (f32_rank x) (f32_rank y)).
Proof.
  intros Hx Hy.
  destruct x as [sx|[|]| |[|] mx ex]; try discriminate Hx;
    destruct y as [sy|[|]| |[|] my ey]; try discriminate Hy;
    unfold f32_ltb, SFltb, SFcompare, f32_rank, lex_lt;
    try (split; intro H; [try discriminate H; lia | try reflexivity; lia]).
  - change (Pos.compare_cont Eq mx my) with (Pos.compare mx my).
    destruct (Z.compare_spec ex ey); destruct (Pos.compare_spec mx my); cbn [CompOpp];
      split; intro Hlt; try discriminate Hlt; try reflexivity; lia.
  - change (Pos.compare_cont Eq mx my) with (Pos.compare mx my).
    destruct (Z.compare_spec ex ey); destruct (Pos.compare_spec mx my);
      split; intro Hlt; try discriminate Hlt; try reflexivity; lia.
Qed.

Lemma f32_ltb_false_rank (x y : float32) :
  is_nan x = false -> is_nan y = false ->
  (f32_ltb x y = false <-> ~ lex_lt (f32_rank x) (f32_rank y)).
Proof.
  intros Hx Hy. pose proof (f32_ltb_rank x y Hx Hy) as H.
  destruct (f32_ltb x y); split; intro H0; try reflexivity; try discriminate H0.
  - exfalso. apply H0, H. reflexivity.
  - intro H1. apply H in H1. discriminate H1.
Qed.

Lemma lex_lt_asym (a b : Z * Z * Z) : lex_lt a b -> ~ lex_lt b a.
Proof. destruct a as [[a1 a2] a3], b as [[b1 b2] b3]. unfold lex_lt. lia. Qed.

Lemma lex_lt_negtrans (a b c : Z * Z * Z) :
  ~ lex_lt a b -> ~ lex_lt b c -> ~ lex_lt a c.
Proof.
  destruct a as [[a1 a2] a3], b as [[b1 b2] b3], c as [[c1 c2] c3]. unfold lex_lt. lia.
Qed.

Lemma f32_ltb_asym (x y : float32) : f32_ltb x y = true -> f32_ltb y x = false.
Proof.
  intro H.
  destruct (is_nan x) eqn:Hx; [destruct x; discriminate|].
  destruct (is_nan y) eqn:Hy; [destruct x, y; try discriminate; reflexivity|].
  apply f32_ltb_false_rank; try assumption.
  apply lex_lt_asym, f32_ltb_rank; assumption.
Qed.

(** Among numbers, "not less than" is transitive. *)
Lemma f32_ltb_negtrans (x y z : float32) :
  is_nan x = false -> is_nan y = false -> is_nan z = false ->
  f32_ltb x y = false -> f32_ltb y z = false -> f32_ltb x z = false.
Proof.
  intros Hx Hy Hz H1 H2.
  apply f32_ltb_false_rank; try assumption.
  apply (lex_lt_negtrans _ (f32_rank y));
    apply f32_ltb_false_rank; assumption.
Qed.

(** ** The sort *)

Lemma insert_desc_perm {A} (key : A -> float32) (x : A) (l : list A) :
  Permutation (insert_desc key x l) (x :: l).
Proof.
  induction l as [|y r IH]; simpl; [apply Permutation_refl|].
  destruct (f32_ltb (key x) (key y)); [|apply Permutation_refl].
  apply Permutation_trans with (y :: x :: r);
    [apply perm_skip, IH | apply perm_swap].
Qed.

Lemma sort_desc_perm {A} (key : A -> float32) (l : list A) :
  Permutation (sort_desc key l) l.
Proof.
  induction l as [|x r IH]; simpl; [apply perm_nil|].
  apply Permutation_trans with (x :: sort_desc key r);
    [apply insert_desc_perm | apply perm_skip, IH].
Qed.

Lemma sort_desc_length {A} (key : A -> float32) (l : list A) :
  List.length (sort_desc key l) = List.length l.
Proof. apply Permutation_length, sort_desc_perm. Qed.

Section Sorting.
Context {A : Type} (key : A -> float32).

(** Sorting numbered items and forgetting the numbers is sorting the items. *)
Lemma insert_desc_numbered (x : nat * A) (l : list (nat * A)) :
  map snd (insert_desc (fun p => key (snd p)) x l) = insert_desc key (snd x) (map snd l).
Proof.
  induction l as [|y r IH]; simpl; [reflexivity|].
  destruct (f32_ltb (key (snd x)) (key (snd y))); simpl; [rewrite IH|]; reflexivity.
Qed.

Lemma sort_desc_numbered (l : list (nat * A)) :
  map snd (sort_desc (fun p => key (snd p)) l) = sort_desc key (map snd l).
Proof.
  induction l as [|x r IH]; simpl; [reflexivity|].
  rewrite insert_desc_numbered, IH. reflexivity.
Qed.

Lemma number_from_snd (l : list A) : forall i, map snd (number_from i l) = l.
Proof. induction l as [|x r IH]; intro i; simpl; [|rewrite IH]; reflexivity. Qed.

Lemma number_from_above (l : list A) :
  forall i p, In p (number_from i l) -> (i <= fst p)%nat.
Proof.
  induction l as [|x r IH]; intros i p H; simpl in H; [contradiction|].
  destruct H as [H|H]; [subst p; simpl; lia | apply IH in H; lia].
Qed.

(** An item that was retrieved before all items of a ranked list, and whose
    key like theirs is a number, is inserted at its rank. *)
Lemma insert_desc_ranked (x : nat * A) (l : list (nat * A)) :
  is_nan (key (snd x)) = false ->
  Forall (fun p => is_nan (key (snd p)) = false) l ->
  Forall (fun p => (fst x < fst p)%nat) l ->
  StronglySorted (ranks_before key) l ->
  StronglySorted (ranks_before key) (insert_desc (fun p => key (snd p)) x l).
Proof.
  intros Hx Hnan Hlt Hs.
  induction l as [|y r IH]; simpl.
  - constructor; constructor.
  - inversion Hnan as [|? ? Hy Hnan']; subst.
    inversion Hlt as [|? ? Hxy Hlt']; subst.
    inversion Hs as [|? ? Hs' Hall]; subst.
    destruct (f32_ltb (key (snd x)) (key (snd y))) eqn:E.
    + constructor; [apply IH; assumption|].
      apply Forall_forall. intros p Hp.
      apply (Permutation_in _ (insert_desc_perm _ x r)) in Hp.
      destruct Hp as [Hp|Hp].
      * subst p. left. exact E.
      * rewrite Forall_forall in Hall. apply Hall, Hp.
    + constructor; [exact Hs|].
      assert (Hy' : ranks_before key x y).
      { destruct (f32_ltb (key (snd y)) (key (snd x))) eqn:E'.
        - left. exact E'.
        - right. auto. }
      constructor; [exact Hy'|].
      apply Forall_forall. intros p Hp.
      rewrite Forall_forall in Hall, Hnan', Hlt'.
      specialize (Hall p Hp). specialize (Hnan' p Hp). specialize (Hlt' p Hp).
      destruct (f32_ltb (key (snd p)) (key (snd x))) eqn:E'; [left; exact E'|].
      right. split; [|split; [exact E' | exact Hlt']].
      apply (f32_ltb_negtrans _ (key (snd y))); try assumption.
      destruct Hall as [Hall | (Hall & _)]; [apply f32_ltb_asym, Hall | exact Hall].
Qed.

Lemma sort_desc_ranked (l : list A) :
  Forall (fun a => is_nan (key a) = false) l ->
  forall i,
    StronglySorted (ranks_before key)
      (sort_desc (fun p => key (snd p)) (number_from i l)).
Proof.
  induction l as [|x r IH]; intros Hnan i; simpl; [constructor|].
  inversion Hnan as [|? ? Hx Hnan']; subst.
  apply insert_desc_ranked.
  - exact Hx.
  - apply Forall_forall. intros p Hp.
    apply (Permutation_in _ (sort_desc_perm _ _)) in Hp.
    rewrite Forall_forall in Hnan'. apply Hnan'.
    rewrite <- (number_from_snd r (S i)). apply in_map, Hp.
  - apply Forall_forall. intros p Hp.
    apply (Permutation_in _ (sort_desc_perm _ _)) in Hp.
    apply number_from_above in Hp. simpl. lia.
  - apply IH, Hnan'.
Qed.
End Sorting.

(** ** Slices from the start *)


Lemma slice_prefix {A} (l : list A) (k : Z) :
  slice l 0 k = firstn (Z.to_nat (if k <? 0 then len l + k else k)) l.
Proof.
  unfold slice, slice_index, len. cbn [Z.ltb Z.compare].
  rewrite (Z.min_l 0 (Z.of_nat (List.length l))) by lia.
  cbn [Z.to_nat skipn]. rewrite Z.sub_0_r.
  destruct (k <? 0) eqn:E.
  - apply Z.ltb_lt in E.
    destruct (Z_le_gt_dec 0 (k + Z.of_nat (List.length l))) as [H|H].
    + rewrite Z.max_r by lia. f_equal. lia.
    + rewrite Z.max_l by lia.
      replace (Z.to_nat (Z.of_nat (List.length l) + k)) with O by lia. reflexivity.
  - apply Z.ltb_ge in E.
    destruct (Z_le_gt_dec k (Z.of_nat (List.length l))) as [H|H].
    + rewrite Z.min_l by lia. reflexivity.
    + rewrite Z.min_r by lia. rewrite Nat2Z.id.
      rewrite firstn_all. symmetry. apply firstn_all2. lia.
Qed.

(** ** Scoring the candidates *)

Lemma score_rows_scored (q : embedding) (cands : list (chunk_row * document_row)) :
  forall scored,
    score_rows q (np_linalg_norm q) cands = Some scored ->
    Forall2 (scored_for q) cands scored.
Proof.
  induction cands as [|[r d] rest IH]; intros scored H; simpl in H.
  - inversion H. constructor.
  - destruct (similarity q (np_linalg_norm q) (r_embedding r)) as [s|] eqn:Es;
      [|discriminate].
    destruct (score_rows q (np_linalg_norm q) rest) as [more|]; [|discriminate].
    inversion H; subst. constructor; [|apply IH; reflexivity].
    unfold scored_for. simpl. auto.
Qed.

Lemma similarity_aligned (q s : embedding) :
  List.length s = List.length q ->
  exists x, similarity q (np_linalg_norm q) s = Some x.
Proof.
  intro H. unfold similarity.
  destruct (f32_ltb f32_zero (np_linalg_norm s) && f32_ltb f32_zero (np_linalg_norm q));
    [|eexists; reflexivity].
  rewrite np_dot_aligned by (symmetry; exact H). eexists; reflexivity.
Qed.

Lemma score_rows_aligned (q : embedding) (cands : list (chunk_row * document_row)) :
  Forall (fun c => List.length (r_embedding (fst c)) = List.length q) cands ->
  exists scored, score_rows q (np_linalg_norm q) cands = Some scored.
Proof.
  induction cands as [|[r d] rest IH]; intro H; simpl.
  - eexists; reflexivity.
  - inversion H as [|? ? Hr Hrest]; subst.
    destruct (similarity_aligned q (r_embedding r) Hr) as (x & ->).
    destruct (IH Hrest) as (more & ->). eexists; reflexivity.
Qed.

Lemma Forall2_length_eq {A B} (R : A -> B -> Prop) (l : list A) (l' : list B) :
  Forall2 R l l' -> List.length l = List.length l'.
Proof. induction 1; simpl; congruence. Qed.

(** ** The claims on the search *)

(** The claim C6 fails as stated.  In [overflow_database] the chunks are
    retrieved in the order 1, 2, 3 and score about 0.707, NaN and 1.0
    against [large_query].  No comparison with NaN holds, so the sort leaves
    the three where they are: chunk 1 comes back before chunk 3 although its
    score is lower. *)
Lemma nan_score_breaks_ranking :
  exists a b c,
    search_similar_chunks large_query_rag healthy (str "fire") 3 None 0 overflow_database
      = Returned [a; b; c] /\
    map s_chunk_id [a; b; c] = [1; 2; 3] /\
    is_nan (s_similarity_score b) = true /\
    f32_ltb (s_similarity_score a) (s_similarity_score c) = true.
Proof.
  match eval vm_compute in
        (search_similar_chunks large_query_rag healthy (str "fire") 3 None 0
           overflow_database) with
  | Returned [?a; ?b; ?c] => exists a, b, c
  end.
  vm_compute. repeat split; reflexivity.
Qed.

(** C6, as the code has it.  Let the connection and the SELECT succeed, let
    every candidate embedding have the dimension of the query embedding, and
    let no score be NaN.  Then for [top_k >= 1] every candidate is scored, in
    retrieval order, and the result is the first [top_k] entries of the
    ranking by descending score in which ties keep their retrieval order:
    at most [top_k] entries, all of them when there are no more than
    [top_k], and the empty list when there is no candidate. *)
Theorem search_returns_ranked_top_k (rag : PolicyWordingRAG) (S : Server)
    (query : text) (top_k : Z) (document_id : option Z) (min_page : Z) (db : database) :
  let q := generate_embedding (embedding_generator rag) query in
  let candidates := select_chunks (stored db) document_id min_page in
  connect_fails S = false -> select_fails S = false ->
  1 <= top_k ->
  Forall (fun c => List.length (r_embedding (fst c)) = List.length q) candidates ->
  Forall (fun c => similarity q (np_linalg_norm q) (r_embedding (fst c)) <> Some S754_nan)
         candidates ->
  exists scored ranked results,
    search_similar_chunks rag S query top_k document_id min_page db = Returned results /\
    Forall2 (scored_for q) candidates scored /\
    Permutation ranked (number_from 0 scored) /\
    StronglySorted (ranks_before s_similarity_score) ranked /\
    results = firstn (Z.to_nat top_k) (map snd ranked) /\
    len results = Z.min top_k (len candidates) /\
    (len candidates <= top_k -> results = map snd ranked) /\
    (candidates = [] -> results = []).
Proof.
  intros q candidates Hc Hs Hk Hdim Hnan.
  destruct (score_rows_aligned q candidates Hdim) as (scored & Hscore).
  pose proof (score_rows_scored q candidates scored Hscore) as Hfor.
  pose proof (Forall2_length_eq _ _ _ Hfor) as Hlen.
  set (ranked := sort_desc (fun p => s_similarity_score (snd p)) (number_from 0 scored)).
  assert (Hmap : map snd ranked = sort_desc s_similarity_score scored).
  { unfold ranked. rewrite sort_desc_numbered, number_from_snd. reflexivity. }
  assert (Hrl : List.length (map snd ranked) = List.length candidates).
  { rewrite Hmap, sort_desc_length. symmetry. exact Hlen. }
  exists scored, ranked, (firstn (Z.to_nat top_k) (map snd ranked)).
  split; [|split; [exact Hfor|split; [apply sort_desc_perm|split; [|split; [reflexivity|]]]]].
  - unfold search_similar_chunks. rewrite Hc, Hs.
    fold q. fold candidates. clearbody candidates q.
    destruct candidates as [|c cs].
    + inversion Hfor; subst. destruct (Z.to_nat top_k); reflexivity.
    + rewrite Hscore, slice_prefix, Hmap.
      replace (top_k <? 0) with false by (symmetry; apply Z.ltb_ge; lia).
      reflexivity.
  - apply sort_desc_ranked.
    clear - Hfor Hnan. induction Hfor as [|c s cs ss Hcs _ IH]; constructor.
    + inversion Hnan as [|? ? Hn _]; subst.
      destruct Hcs as (_ & _ & _ & Hsim).
      destruct (s_similarity_score s); try reflexivity.
      exfalso. apply Hn. exact Hsim.
    + apply IH. inversion Hnan; assumption.
  - split; [|split].
    + unfold len. rewrite length_firstn, Hrl. lia.
    + intro Hle. apply firstn_all2. rewrite Hrl. unfold len in Hle. lia.
    + intro Hnil. rewrite Hnil in Hrl. simpl in Hrl.
      destruct (map snd ranked); [apply firstn_nil | discriminate Hrl].
Qed.

Lemma search_returns_ranked_top_k_witness :
  let q := generate_embedding (embedding_generator axis_query_rag) (str "fire") in
  let candidates := select_chunks (stored small_database) None 0 in
  exists scored ranked results,
    search_similar_chunks axis_query_rag healthy (str "fire") 5 None 0 small_database
      = Returned results /\
    Forall2 (scored_for q) candidates scored /\
    Permutation ranked (number_from 0 scored) /\
    StronglySorted (ranks_before s_similarity_score) ranked /\
    results = firstn (Z.to_nat 5) (map snd ranked) /\
    len results = Z.min 5 (len candidates) /\
    (len candidates <= 5 -> results = map snd ranked) /\
    (candidates = [] -> results = []).
Proof.
  apply (search_returns_ranked_top_k axis_query_rag healthy (str "fire") 5 None 0
           small_database).
  - reflexivity.
  - reflexivity.
  - lia.
  - vm_compute. repeat constructor.
  - repeat constructor; vm_compute; intro H; discriminate H.
Defined.

(** The claim C8 fails as stated: no query is rejected.  Against the two
    chunks of [small_database], [top_k = -1] returns the ranking without its
    last entry, [top_k = 0] returns the empty list, and the empty query is
    embedded and answered like any other. *)
Lemma malformed_query_is_answered :
  (exists a,
     search_similar_chunks axis_query_rag healthy (str "fire") (-1) None 0 small_database
       = Returned [a] /\ s_chunk_id a = 2) /\
  search_similar_chunks axis_query_rag healthy (str "fire") 0 None 0 small_database
    = Returned [] /\
  (exists a b,
     search_similar_chunks axis_query_rag healthy [] 5 None 0 small_database
       = Returned [a; b] /\ map s_chunk_id [a; b] = [2; 1]).
Proof.
  split; [|split].
  - match eval vm_compute in
          (search_similar_chunks axis_query_rag healthy (str "fire") (-1) None 0
             small_database) with
    | Returned [?a] => exists a
    end.
    vm_compute. split; reflexivity.
  - vm_compute. reflexivity.
  - match eval vm_compute in
          (search_similar_chunks axis_query_rag healthy [] 5 None 0 small_database) with
    | Returned [?a; ?b] => exists a, b
    end.
    vm_compute. split; reflexivity.
Qed.

Lemma search_no_error (rag : PolicyWordingRAG) (S : Server)
    (query : text) (document_id : option Z) (min_page : Z) (db : database) :
  connect_fails S = false ->
  exists ranking,
    (List.length ranking
     <= List.length (select_chunks (stored db) document_id min_page))%nat /\
    forall k,
      search_similar_chunks rag S query k document_id min_page db
        = Returned (slice ranking 0 k).
Proof.
  intro Hc. unfold search_similar_chunks. rewrite Hc.
  destruct (select_fails S).
  { exists []. split; [simpl; lia|]. intro k. destruct k; reflexivity. }
  destruct (select_chunks (stored db) document_id min_page) as [|c cs] eqn:Ec.
  { exists []. split; [simpl; lia|]. intro k. destruct k; reflexivity. }
  destruct (score_rows _ _ (c :: cs)) as [scored|] eqn:Es.
  - exists (sort_desc s_similarity_score scored). split; [|reflexivity].
    rewrite sort_desc_length.
    assert (H : forall q n l s, score_rows q n l = Some s ->
                                List.length s = List.length l).
    { clear. intros q n l. induction l as [|[r d] rest IH]; intros s H; simpl in H.
      - inversion H. reflexivity.
      - destruct (similarity q n (r_embedding r)); [|discriminate].
        destruct (score_rows q n rest) as [more|]; [|discriminate].
        inversion H. simpl. f_equal. apply IH. reflexivity. }
    rewrite (H _ _ _ _ Es). lia.
  - exists []. split; [simpl; lia|]. intro k. destruct k; reflexivity.
Qed.

(** C8, as the code has it: the search validates nothing.  Once the
    connection is made, every query text and every [top_k] get a list back,
    never an error: for one ranking of at most as many entries as there are
    candidates, the result for [top_k] is that ranking cut as Python's slice
    [[:top_k]] cuts it, which is the empty list for [top_k = 0] and the
    ranking without its last [-top_k] entries for a negative [top_k]. *)
Theorem search_validates_nothing (rag : PolicyWordingRAG) (S : Server)
    (query : text) (document_id : option Z) (min_page : Z) (db : database) :
  connect_fails S = false ->
  exists ranking,
    (List.length ranking <= List.length (select_chunks (stored db) document_id min_page))%nat /\
    forall top_k,
      exists results,
        search_similar_chunks rag S query top_k document_id min_page db = Returned results /\
        (0 < top_k -> results = firstn (Z.to_nat top_k) ranking) /\
        (top_k = 0 -> results = []) /\
        (top_k < 0 -> results = firstn (List.length ranking - Z.to_nat (- top_k)) ranking).
Proof.
  intro Hc.
  destruct (search_no_error rag S query document_id min_page db Hc) as (ranking & Hl & Hr).
  exists ranking. split; [lia|]. intro top_k.
  exists (slice ranking 0 top_k). split; [apply Hr|].
  rewrite slice_prefix. split; [|split]; intro H.
  - replace (top_k <? 0) with false by (symmetry; apply Z.ltb_ge; lia). reflexivity.
  - subst top_k. reflexivity.
  - replace (top_k <? 0) with true by (symmetry; apply Z.ltb_lt; lia).
    f_equal. unfold len. lia.
Qed.

Lemma search_validates_nothing_witness :
  exists ranking,
    (List.length ranking
     <= List.length (select_chunks (stored small_database) None 0))%nat /\
    forall top_k,
      exists results,
        search_similar_chunks axis_query_rag healthy [] top_k None 0 small_database
          = Returned results /\
        (0 < top_k -> results = firstn (Z.to_nat top_k) ranking) /\
        (top_k = 0 -> results = []) /\
        (top_k < 0 -> results = firstn (List.length ranking - Z.to_nat (- top_k)) ranking).
Proof.
  apply (search_validates_nothing axis_query_rag healthy [] None 0 small_database).
  reflexivity.
Defined.

(* ===================================================================== *)
(** * Deleting documents                                                  *)
(* ===================================================================== *)

Lemma existsb_filter_id (id x : Z) (docs : list document_row) :
  existsb (fun d => d_id d =? x) (filter (fun d => d_id d =? id) docs)
  = (x =? id) && existsb (fun d => d_id d =? id) docs.
Proof.
  induction docs as [|d docs IH]; simpl.
  - rewrite andb_false_r. reflexivity.
  - destruct (d_id d =? id) eqn:E; simpl.
    + rewrite IH. apply Z.eqb_eq in E. rewrite E.
      rewrite (Z.eqb_sym id x). destruct (x =? id); reflexivity.
    + exact IH.
Qed.

Lemma cascade_by_id (id : Z) (docs : list document_row) (chunks : list chunk_row) :
  filter (fun r => negb (existsb (fun d => d_id d =? r_document_id r)
                           (filter (fun d => d_id d =? id) docs))) chunks
  = if existsb (fun d => d_id d =? id) docs
    then filter (fun r => negb (r_document_id r =? id)) chunks
    else chunks.
Proof.
  destruct (existsb (fun d => d_id d =? id) docs) eqn:E.
  - apply filter_ext. intro r. rewrite existsb_filter_id, E, andb_true_r. reflexivity.
  - rewrite <- (filter_ext (fun _ => true)).
    + induction chunks as [|r chunks IH]; simpl; [reflexivity | f_equal; exact IH].
    + intro r. rewrite existsb_filter_id, E, andb_false_r. reflexivity.
Qed.

Lemma len_filter_positive {A} (f : A -> bool) (l : list A) :
  (0 <? len (filter f l)) = existsb f l.
Proof.
  induction l as [|x l IH]; simpl; [reflexivity|].
  destruct (f x); simpl; [|exact IH].
  unfold len. simpl List.length. apply Z.ltb_lt. lia.
Qed.

(** What one call of [delete_document] does, case by case. *)
Lemma delete_document_run (S : Server) (B : Backend) (document_id : Z) (w : world) :
  delete_document S B document_id w =
  if connect_fails S then (Raised OperationalError, w)
  else if delete_fails B then
    (Raised OperationalError,
     {| w_db := w_db w; w_view := stored (w_db w); w_trace := w_trace w ++ [EvRollback] |})
  else if commit_fails S then
    (Raised OperationalError,
     {| w_db := w_db w; w_view := stored (w_db w); w_trace := w_trace w ++ [EvRollback] |})
  else
    let docs := policy_documents (stored (w_db w)) in
    let found := existsb (fun d => d_id d =? document_id) docs in
    let after :=
      {| policy_documents := filter (fun d => negb (d_id d =? document_id)) docs;
         policy_chunks :=
           if found
           then filter (fun r => negb (r_document_id r =? document_id))
                       (policy_chunks (stored (w_db w)))
           else policy_chunks (stored (w_db w)) |} in
    (Returned found,
     {| w_db := {| stored := after;
                   documents_id_seq := documents_id_seq (w_db w);
                   chunks_id_seq := chunks_id_seq (w_db w) |};
        w_view := after;
        w_trace := w_trace w ++ [EvCommit] |}).
Proof.
  unfold delete_document, with_connection, delete_documents, bind, commit, ret.
  destruct (connect_fails S); [reflexivity|].
  destruct (delete_fails B); [reflexivity|].
  cbn [w_db w_view w_trace open_connection].
  destruct (commit_fails S); [reflexivity|].
  cbn [w_db w_view w_trace close_connection stored].
  rewrite len_filter_positive, cascade_by_id. reflexivity.
Qed.

Lemma filter_nothing {A} (f : A -> bool) (l : list A) :
  (forall x, In x l -> f x = true) -> filter f l = l.
Proof.
  induction l as [|x l IH]; intro H; simpl; [reflexivity|].
  rewrite (H x (or_introl eq_refl)). f_equal. apply IH.
  intros y Hy. apply H. right. exact Hy.
Qed.

(** X1. [delete_document] answers whether a document had the identifier.
    When it returns, no document with the identifier is left, and if there
    was one its chunks went with it; every other row stays, in its place.
    When it raises, the tables are as before.  The sequences never move. *)
Theorem delete_document_cascades (S : Server) (B : Backend) (document_id : Z)
    (w : world) :
  let result := delete_document S B document_id w in
  let before := stored (w_db w) in
  let after := stored (w_db (snd result)) in
  documents_id_seq (w_db (snd result)) = documents_id_seq (w_db w) /\
  chunks_id_seq (w_db (snd result)) = chunks_id_seq (w_db w) /\
  match fst result with
  | Returned deleted =>
      (deleted = true <->
       exists d, In d (policy_documents before) /\ d_id d = document_id) /\
      policy_documents after
        = filter (fun d => negb (d_id d =? document_id)) (policy_documents before) /\
      (deleted = true ->
       policy_chunks after
         = filter (fun r => negb (r_document_id r =? document_id))
                  (policy_chunks before)) /\
      (deleted = false -> after = before)
  | Raised e =>
      e = OperationalError /\ after = before /\
      (connect_fails S = true \/ delete_fails B = true \/ commit_fails S = true)
  | Diverged => False
  end.
Proof.
  cbv zeta. rewrite delete_document_run.
  destruct (connect_fails S); [simpl; intuition auto|].
  destruct (delete_fails B); [simpl; intuition auto|].
  destruct (commit_fails S); [simpl; intuition auto|].
  cbv zeta. cbn [fst snd w_db stored documents_id_seq chunks_id_seq
                 policy_documents policy_chunks].
  split; [reflexivity|]. split; [reflexivity|].
  split.
  { rewrite existsb_exists. split; intros (d & Hd & E); exists d; split; try exact Hd.
    - apply Z.eqb_eq. exact E.
    - apply Z.eqb_eq. exact E. }
  split; [reflexivity|]. split.
  - intro E. rewrite E. reflexivity.
  - intro E. rewrite E.
    rewrite filter_nothing.
    + destruct (stored (w_db w)); reflexivity.
    + intros d Hd. destruct (d_id d =? document_id) eqn:E'; [|reflexivity].
      exfalso. assert (existsb (fun d => d_id d =? document_id)
                         (policy_documents (stored (w_db w))) = true) as C.
      { apply existsb_exists. exists d. split; assumption. }
      rewrite C in E. discriminate.
Qed.

(* ===================================================================== *)
(** * What a search can return                                            *)
(* ===================================================================== *)

(** The rows the SELECT of the search gives. *)
Lemma select_chunks_In (t : tables) (document_id : option Z) (min_page : Z)
    (r : chunk_row) (d : document_row) :
  In (r, d) (select_chunks t document_id min_page) <->
  In r (policy_chunks t) /\ In d (policy_documents t) /\ d_id d = r_document_id r /\
  (0 < min_page -> min_page < r_page_number r) /\
  (forall x, document_id = Some x -> x <> 0 -> r_document_id r = x).
Proof.
  unfold select_chunks. rewrite in_flat_map. split.
  - intros (r' & Hr' & Hin).
    destruct (((min_page <=? 0) || (min_page <? r_page_number r')) &&
              match document_id with
              | Some x => (x =? 0) || (r_document_id r' =? x)
              | None => true
              end) eqn:E; [|contradiction].
    apply in_map_iff in Hin. destruct Hin as (d' & Heq & Hd').
    inversion Heq; subst r' d'. apply filter_In in Hd'. destruct Hd' as [Hd' Hid].
    apply andb_true_iff in E. destruct E as [E1 E2].
    split; [exact Hr'|]. split; [exact Hd'|]. split; [apply Z.eqb_eq; exact Hid|].
    split.
    + intro Hp. apply orb_true_iff in E1. destruct E1 as [E1|E1].
      * apply Z.leb_le in E1. lia.
      * apply Z.ltb_lt in E1. exact E1.
    + intros x Hx Hnz. subst document_id. apply orb_true_iff in E2.
      destruct E2 as [E2|E2]; apply Z.eqb_eq in E2; [contradiction | exact E2].
  - intros (Hr & Hd & Hid & Hp & Hx). exists r. split; [exact Hr|].
    assert (((min_page <=? 0) || (min_page <? r_page_number r)) = true) as E1.
    { destruct (min_page <=? 0) eqn:E; [reflexivity|]. simpl.
      apply Z.leb_gt in E. apply Z.ltb_lt. apply Hp. exact E. }
    assert (match document_id with
            | Some x => (x =? 0) || (r_document_id r =? x)
            | None => true
            end = true) as E2.
    { destruct document_id as [x|]; [|reflexivity].
      destruct (x =? 0) eqn:E; [reflexivity|]. simpl. apply Z.eqb_eq.
      apply Hx; [reflexivity|]. apply Z.eqb_neq. exact E. }
    rewrite E1, E2. simpl. apply in_map. apply filter_In.
    split; [exact Hd | apply Z.eqb_eq; exact Hid].
Qed.

Lemma score_rows_made_from (q : embedding) (n : float32)
    (cands : list (chunk_row * document_row)) :
  forall scored,
    score_rows q n cands = Some scored ->
    Forall2 (fun c s => made_from (fst c) (snd c) s) cands scored.
Proof.
  induction cands as [|[r d] cands IH]; intros scored H; simpl in H.
  - inversion H. constructor.
  - destruct (similarity q n (r_embedding r)) as [s|]; [|discriminate].
    destruct (score_rows q n cands) as [more|]; [|discriminate].
    inversion H; subst. constructor; [|apply IH; reflexivity].
    unfold made_from. simpl. repeat split.
Qed.

Lemma Forall2_In_r {A B} (R : A -> B -> Prop) (l : list A) (l' : list B) (y : B) :
  Forall2 R l l' -> In y l' -> exists x, In x l /\ R x y.
Proof.
  induction 1 as [|a b l l' Hab _ IH]; intro Hy; [contradiction|].
  destruct Hy as [Hy|Hy].
  - subst. exists a. split; [left; reflexivity | exact Hab].
  - destruct (IH Hy) as (x & Hx & HR). exists x. split; [right; exact Hx | exact HR].
Qed.

(** Every entry of a search result was made from a selected row. *)
Lemma search_results_selected (rag : PolicyWordingRAG) (S : Server) (query : text)
    (top_k : Z) (document_id : option Z) (min_page : Z) (db : database)
    (results : list scored_chunk) (s : scored_chunk) :
  search_similar_chunks rag S query top_k document_id min_page db = Returned results ->
  In s results ->
  exists r d, In (r, d) (select_chunks (stored db) document_id min_page) /\
              made_from r d s.
Proof.
  unfold search_similar_chunks.
  destruct (connect_fails S); [discriminate|].
  destruct (select_fails S); [intro H; inversion H; subst; contradiction|].
  destruct (select_chunks (stored db) document_id min_page) as [|c cands] eqn:Hsel;
    [intro H; inversion H; subst; contradiction|].
  destruct (score_rows _ _ (c :: cands)) as [scored|] eqn:Hsc;
    [|intro H; inversion H; subst; contradiction].
  intros H Hin. inversion H; subst. clear H.
  apply In_slice in Hin.
  apply (Permutation_in _ (sort_desc_perm s_similarity_score scored)) in Hin.
  apply score_rows_made_from in Hsc.
  destruct (Forall2_In_r _ _ _ _ Hsc Hin) as ([r d] & Hc & Hm).
  exists r, d. split; assumption.
Qed.

(** X2. Whatever a search returns was made from a stored chunk and the
    stored document it belongs to; with a document filter other than 0 the
    chunk is of that document, and with a positive [min_page] it lies on a
    later page. *)
Theorem search_returns_stored_chunks_within_filters (rag : PolicyWordingRAG)
    (S : Server) (query : text) (top_k : Z) (document_id : option Z) (min_page : Z)
    (db : database) (results : list scored_chunk) (s : scored_chunk) :
  search_similar_chunks rag S query top_k document_id min_page db = Returned results ->
  In s results ->
  (exists r d,
     In r (policy_chunks (stored db)) /\ In d (policy_documents (stored db)) /\
     d_id d = r_document_id r /\ made_from r d s) /\
  (forall x, document_id = Some x -> x <> 0 -> s_document_id s = x) /\
  (0 < min_page -> min_page < s_page_number s).
Proof.
  intros H Hin.
  destruct (search_results_selected _ _ _ _ _ _ _ _ _ H Hin) as (r & d & Hsel & Hm).
  apply select_chunks_In in Hsel. destruct Hsel as (Hr & Hd & Hid & Hp & Hx).
  pose proof Hm as (_ & Hdoc & _ & _ & _ & Hpage & _).
  split; [exists r, d; auto|]. split.
  - intros x E Hnz. rewrite Hdoc. apply (Hx x E Hnz).
  - intro Hpos. rewrite Hpage. apply Hp. exact Hpos.
Qed.

Lemma search_returns_stored_chunks_within_filters_witness :
  (exists r d,
     In r (policy_chunks (stored small_database)) /\
     In d (policy_documents (stored small_database)) /\
     d_id d = r_document_id r /\ made_from r d axis_hit) /\
  (forall x, Some 1 = Some x -> x <> 0 -> s_document_id axis_hit = x) /\
  (0 < 0 -> 0 < s_page_number axis_hit).
Proof.
  eapply (search_returns_stored_chunks_within_filters axis_query_rag healthy
            (str "fire") 5 (Some 1) 0 small_database).
  - vm_compute. reflexivity.
  - vm_compute. left. reflexivity.
Defined.

Lemma search_never_diverges (rag : PolicyWordingRAG) (S : Server) (query : text)
    (top_k : Z) (document_id : option Z) (min_page : Z) (db : database) :
  search_similar_chunks rag S query top_k document_id min_page db <> Diverged.
Proof.
  unfold search_similar_chunks.
  destruct (connect_fails S); [discriminate|].
  destruct (select_fails S); [discriminate|].
  destruct (select_chunks (stored db) document_id min_page); [discriminate|].
  destruct (score_rows _ _ _); discriminate.
Qed.

(** X3. Once [delete_document] has returned, no search brings back a chunk
    of that document, whatever the filters, and the context asked for that
    document is the empty string. *)
Theorem deleted_document_is_not_found (S : Server) (B : Backend) (id : Z)
    (w w' : world) (deleted : bool)
    (rag : PolicyWordingRAG) (S' : Server) (F : Formatter) (query : text)
    (top_k : Z) (document_id : option Z) (min_page : Z) :
  delete_document S B id w = (Returned deleted, w') ->
  (forall results s,
     search_similar_chunks rag S' query top_k document_id min_page (w_db w')
       = Returned results ->
     In s results -> s_document_id s <> id) /\
  (id <> 0 ->
   get_context_for_query rag S' F query top_k (Some id) (w_db w') = Returned []).
Proof.
  intros Hdel.
  assert (forall d, In d (policy_documents (stored (w_db w'))) -> d_id d <> id) as Hgone.
  { rewrite delete_document_run in Hdel.
    destruct (connect_fails S); [discriminate|].
    destruct (delete_fails B); [discriminate|].
    destruct (commit_fails S); [discriminate|].
    cbv zeta in Hdel. inversion Hdel; subst. clear Hdel. simpl.
    intros d Hd. apply filter_In in Hd. destruct Hd as [_ Hd].
    apply negb_true_iff in Hd. apply Z.eqb_neq. exact Hd. }
  assert (forall document_id min_page results s,
            search_similar_chunks rag S' query top_k document_id min_page (w_db w')
              = Returned results ->
            In s results -> s_document_id s <> id) as Hnone.
  { intros document_id0 min_page0 results s H Hin.
    destruct (search_results_selected _ _ _ _ _ _ _ _ _ H Hin) as (r & d & Hsel & Hm).
    apply select_chunks_In in Hsel. destruct Hsel as (_ & Hd & Hid & _).
    destruct Hm as (_ & Hdoc & _). rewrite Hdoc, <- Hid. apply Hgone. exact Hd. }
  split; [apply Hnone|].
  intro Hnz. unfold get_context_for_query.
  destruct (search_similar_chunks rag S' query top_k (Some id) 0 (w_db w'))
    as [[|s results]| e |] eqn:Hs; try reflexivity.
  - exfalso.
    destruct (search_results_selected _ _ _ _ _ _ _ _ s Hs (or_introl eq_refl))
      as (r & d & Hsel & Hm).
    apply select_chunks_In in Hsel. destruct Hsel as (_ & Hd & Hid & _ & Hx).
    apply (Hgone d Hd). rewrite Hid. apply (Hx id eq_refl Hnz).
  - exfalso. exact (search_never_diverges _ _ _ _ _ _ _ Hs).
Qed.

Lemma deleted_document_is_not_found_witness :
  (forall results s,
     search_similar_chunks example_rag healthy (str "fire") 5 None 0 (w_db hello_deleted)
       = Returned results ->
     In s results -> s_document_id s <> 1) /\
  (1 <> 0 ->
   get_context_for_query example_rag healthy plain_formatter (str "fire") 5 (Some 1)
     (w_db hello_deleted) = Returned []).
Proof.
  apply (deleted_document_is_not_found healthy plain_backend 1 hello_ingested
           hello_deleted true).
  vm_compute. reflexivity.
Defined.

(** What one call of [clear_all_documents] does, case by case. *)
Lemma clear_all_documents_run (S : Server) (B : Backend) (w : world) :
  clear_all_documents S B w =
  if connect_fails S then (Raised OperationalError, w)
  else if delete_fails B || commit_fails S then
    (Returned false,
     {| w_db := w_db w; w_view := stored (w_db w); w_trace := w_trace w ++ [EvRollback] |})
  else
    let after :=
      {| policy_documents := [];
         policy_chunks :=
           filter (fun r => negb (existsb (fun d => d_id d =? r_document_id r)
                                    (policy_documents (stored (w_db w)))))
                  (policy_chunks (stored (w_db w))) |} in
    (Returned true,
     {| w_db := {| stored := after;
                   documents_id_seq := documents_id_seq (w_db w);
                   chunks_id_seq := chunks_id_seq (w_db w) |};
        w_view := after;
        w_trace := w_trace w ++ [EvCommit] |}).
Proof.
  unfold clear_all_documents, with_connection, delete_documents, bind, commit, ret.
  destruct (connect_fails S); [reflexivity|].
  destruct (delete_fails B); [reflexivity|].
  cbn [w_db w_view w_trace open_connection orb].
  destruct (commit_fails S); [reflexivity|].
  cbn [w_db w_view w_trace close_connection stored].
  assert (forall l : list document_row, filter (fun _ => true) l = l) as E1
    by (intro l; apply filter_nothing; reflexivity).
  assert (forall l : list document_row, filter (fun _ => negb true) l = []) as E2
    by (induction l; simpl; auto).
  rewrite E1, E2. reflexivity.
Qed.

(** X4. [clear_all_documents] raises only when no connection can be made.
    Otherwise it answers [True] after it removed every document and every
    chunk that belonged to one, or it answers [False] and the tables are as
    before.  The sequences stay where they were, so that identifiers are not
    handed out again. *)
Theorem clear_all_documents_all_or_nothing (S : Server) (B : Backend) (w : world) :
  let result := clear_all_documents S B w in
  let before := stored (w_db w) in
  let after := stored (w_db (snd result)) in
  documents_id_seq (w_db (snd result)) = documents_id_seq (w_db w) /\
  chunks_id_seq (w_db (snd result)) = chunks_id_seq (w_db w) /\
  match fst result with
  | Returned true =>
      policy_documents after = [] /\
      (forall r, In r (policy_chunks after) <->
                 In r (policy_chunks before) /\
                 forall d, In d (policy_documents before) -> d_id d <> r_document_id r) /\
      ((forall r, In r (policy_chunks before) ->
          exists d, In d (policy_documents before) /\ d_id d = r_document_id r) ->
       policy_chunks after = [])
  | Returned false =>
      after = before /\ connect_fails S = false /\
      (delete_fails B = true \/ commit_fails S = true)
  | Raised e => e = OperationalError /\ after = before /\ connect_fails S = true
  | Diverged => False
  end.
Proof.
  cbv zeta. rewrite clear_all_documents_run.
  destruct (connect_fails S); [simpl; intuition auto|].
  destruct (delete_fails B); [simpl; intuition auto|].
  destruct (commit_fails S); [simpl; intuition auto|].
  cbv zeta. cbn [orb fst snd w_db stored documents_id_seq chunks_id_seq
                 policy_documents policy_chunks].
  split; [reflexivity|]. split; [reflexivity|]. split; [reflexivity|].
  assert (forall r, In r (filter (fun r => negb (existsb (fun d => d_id d =? r_document_id r)
                                                  (policy_documents (stored (w_db w)))))
                             (policy_chunks (stored (w_db w)))) <->
                    In r (policy_chunks (stored (w_db w))) /\
                    forall d, In d (policy_documents (stored (w_db w))) ->
                              d_id d <> r_document_id r) as Hin.
  { intro r. rewrite filter_In. split; intros [Hr H]; (split; [exact Hr|]).
    - intros d Hd E. apply negb_true_iff in H.
      assert (existsb (fun d => d_id d =? r_document_id r)
                (policy_documents (stored (w_db w))) = true) as C.
      { apply existsb_exists. exists d. split; [exact Hd | apply Z.eqb_eq; exact E]. }
      rewrite C in H. discriminate.
    - apply negb_true_iff. destruct (existsb _ _) eqn:C; [|reflexivity].
      apply existsb_exists in C. destruct C as (d & Hd & E). apply Z.eqb_eq in E.
      exfalso. exact (H d Hd E). }
  split; [exact Hin|].
  intro Hfk.
  destruct (filter _ (policy_chunks (stored (w_db w)))) as [|r l] eqn:E; [reflexivity|].
  exfalso. destruct (proj1 (Hin r) (or_introl eq_refl)) as [Hr Hno].
  destruct (Hfk r Hr) as (d & Hd & Hid). exact (Hno d Hd Hid).
Qed.

(* ===================================================================== *)
(** * The context of a query                                              *)
(* ===================================================================== *)

Lemma join_nonempty (sep p : text) (rest : list text) :
  p <> [] -> join sep (p :: rest) <> [].
Proof.
  intro Hp. destruct p as [|c p]; [contradiction|].
  destruct rest; simpl; discriminate.
Qed.

Lemma context_parts_nth (F : Formatter) (results : list scored_chunk) :
  forall i n s,
    nth_error results n = Some s ->
    nth_error (context_parts F i results) n = Some (context_part F (i + Z.of_nat n) s).
Proof.
  induction results as [|r results IH]; intros i [|n] s H; simpl in *; try discriminate.
  - inversion H; subst. rewrite Z.add_0_r. reflexivity.
  - rewrite (IH (i + 1) n s H). do 2 f_equal. lia.
Qed.

Lemma context_parts_length (F : Formatter) (results : list scored_chunk) :
  forall i, List.length (context_parts F i results) = List.length results.
Proof.
  induction results as [|r results IH]; intro i; simpl; [reflexivity|].
  rewrite IH. reflexivity.
Qed.

(** X5. [get_context_for_query] always returns: an error of the search,
    also a refused connection, gives the empty string.  The context is
    empty exactly when the search brought nothing.  Otherwise it joins one
    block per result, in the order of the search and numbered from 1. *)
Theorem context_is_empty_when_nothing_is_found (rag : PolicyWordingRAG) (S : Server)
    (F : Formatter) (query : text) (top_k : Z) (document_id : option Z) (db : database) :
  let found := search_similar_chunks rag S query top_k document_id 0 db in
  exists context,
    get_context_for_query rag S F query top_k document_id db = Returned context /\
    (context = [] <-> forall results, found = Returned results -> results = []) /\
    forall results,
      found = Returned results ->
      context = join [10%N; 10%N] (context_parts F 1 results) /\
      List.length (context_parts F 1 results) = List.length results /\
      forall n s, nth_error results n = Some s ->
        nth_error (context_parts F 1 results) n
        = Some (str "[Chunk " ++ format_int (1 + Z.of_nat n) ++ str " - Page "
                ++ format_int (s_page_number s) ++ str ", Similarity: "
                ++ format_3f F (s_similarity_score s) ++ str "]" ++ [10%N]
                ++ s_chunk_text s).
Proof.
  cbv zeta. unfold get_context_for_query.
  pose proof (search_never_diverges rag S query top_k document_id 0 db) as Hnd.
  destruct (search_similar_chunks rag S query top_k document_id 0 db)
    as [[|s results]| e |]; [| | |contradiction].
  - exists []. split; [reflexivity|]. split.
    + split; [intros _ results H; inversion H; reflexivity | reflexivity].
    + intros results H. inversion H; subst. split; [reflexivity|].
      split; [reflexivity|]. intros [|n] s' Hn; discriminate Hn.
  - exists (join [10%N; 10%N] (context_parts F 1 (s :: results))).
    split; [reflexivity|]. split.
    + split.
      * intro H. exfalso. revert H. apply join_nonempty. discriminate.
      * intro H. discriminate (H _ eq_refl).
    + intros results' H. inversion H; subst. split; [reflexivity|].
      split; [apply context_parts_length|].
      intros n s' Hn. apply (context_parts_nth F _ 1 n s' Hn).
  - exists []. split; [reflexivity|]. split.
    + split; [intros _ results H; discriminate H | reflexivity].
    + intros results H. discriminate H.
Qed.

(* ===================================================================== *)
(** * Searching with a query that could not be embedded                   *)
(* ===================================================================== *)

Lemma sort_desc_ties {A} (key : A -> float32) (l : list A) :
  (forall x, In x l -> key x = f32_zero) -> sort_desc key l = l.
Proof.
  induction l as [|x l IH]; intro H; [reflexivity|].
  unfold sort_desc in *. simpl. rewrite IH by (intros y Hy; apply H; right; exact Hy).
  destruct l as [|y l]; [reflexivity|]. simpl.
  rewrite (H x (or_introl eq_refl)), (H y (or_intror (or_introl eq_refl))).
  reflexivity.
Qed.

Lemma similarity_zero_norm (q e : embedding) : similarity q f32_zero e = Some f32_zero.
Proof.
  unfold similarity.
  replace (f32_ltb f32_zero f32_zero) with false by reflexivity.
  rewrite andb_false_r. reflexivity.
Qed.

Lemma score_rows_zero_norm (q : embedding) (cands : list (chunk_row * document_row)) :
  score_rows q f32_zero cands = Some (map unscored cands).
Proof.
  induction cands as [|[r d] cands IH]; [reflexivity|].
  cbn [score_rows]. rewrite similarity_zero_norm, IH. reflexivity.
Qed.

(** X6. When the model fails on the query, the zero vector stands in for
    its embedding: every candidate scores 0.0, and the search returns the
    candidates in the order the database gave them, cut by [top_k]. *)
Theorem failed_query_embedding_gives_first_chunks (rag : PolicyWordingRAG) (S : Server)
    (query : text) (top_k : Z) (document_id : option Z) (min_page : Z) (db : database) :
  model_encode (embedding_generator rag) query = None ->
  connect_fails S = false -> select_fails S = false ->
  search_similar_chunks rag S query top_k document_id min_page db
  = Returned (slice (map unscored (select_chunks (stored db) document_id min_page))
                    0 top_k).
Proof.
  intros Hm Hc Hs. unfold search_similar_chunks. rewrite Hc, Hs.
  unfold generate_embedding. rewrite Hm, norm_of_zeros.
  destruct (select_chunks (stored db) document_id min_page) as [|c cands].
  - unfold slice. rewrite skipn_nil, firstn_nil. reflexivity.
  - rewrite score_rows_zero_norm. rewrite sort_desc_ties; [reflexivity|].
    intros x Hx. apply in_map_iff in Hx. destruct Hx as (c' & E & _). subst x.
    reflexivity.
Qed.

Lemma failed_query_embedding_gives_first_chunks_witness :
  search_similar_chunks degraded_rag healthy (str "fire") 1 None 0 small_database
  = Returned (slice (map unscored (select_chunks (stored small_database) None 0)) 0 1).
Proof.
  apply (failed_query_embedding_gives_first_chunks degraded_rag healthy (str "fire")
           1 None 0 small_database); reflexivity.
Defined.

(* ===================================================================== *)
(** * Statistics                                                          *)
(* ===================================================================== *)

Lemma len_filter_orb {A} (p q : A -> bool) (l : list A) :
  (forall x, In x l -> p x = true -> q x = false) ->
  len (filter (fun x => p x || q x) l) = len (filter p l) + len (filter q l).
Proof.
  unfold len. induction l as [|x l IH]; intro H; [reflexivity|].
  assert (forall y, In y l -> p y = true -> q y = false) as H'
    by (intros y Hy; apply H; right; exact Hy).
  specialize (IH H'). cbn [filter].
  destruct (p x) eqn:Ep; cbn [orb].
  - rewrite (H x (or_introl eq_refl) Ep). cbn [List.length].
    rewrite !Nat2Z.inj_succ. lia.
  - destruct (q x); cbn [List.length]; rewrite ?Nat2Z.inj_succ; lia.
Qed.

(** The chunk counts of documents with distinct identifiers add up to the
    number of chunks that belong to one of them. *)
Lemma chunk_counts_add_up (chunks : list chunk_row) (docs : list document_row) :
  NoDup (map d_id docs) ->
  fold_right Z.add 0
    (map (fun d => len (filter (fun r => r_document_id r =? d_id d) chunks)) docs)
  = len (filter (fun r => existsb (fun d => d_id d =? r_document_id r) docs) chunks).
Proof.
  induction docs as [|d docs IH]; intro Hnd.
  - simpl. induction chunks as [|r chunks IHc]; [reflexivity | exact IHc].
  - inversion Hnd as [|? ? Hnotin Hnd']; subst. simpl.
    rewrite (IH Hnd').
    rewrite <- (len_filter_orb (fun r => r_document_id r =? d_id d)).
    + f_equal. apply filter_ext. intro r. rewrite (Z.eqb_sym (d_id d)). reflexivity.
    + intros r _ E. apply Z.eqb_eq in E.
      destruct (existsb _ docs) eqn:C; [|reflexivity].
      exfalso. apply existsb_exists in C. destruct C as (d' & Hd' & E').
      apply Z.eqb_eq in E'. apply Hnotin. apply in_map_iff.
      exists d'. split; [congruence | exact Hd'].
Qed.

(** In a coherent store the [total_chunks] columns add up to the number of
    rows of [policy_chunks]. *)
Lemma total_chunks_add_up (db : database) :
  coherent db ->
  fold_right Z.add 0 (map d_total_chunks (policy_documents (stored db)))
  = len (policy_chunks (stored db)).
Proof.
  intros (_ & Hids & _ & _ & _ & Hfk & Hcount).
  rewrite (map_ext_in d_total_chunks
             (fun d => len (filter (fun r => r_document_id r =? d_id d)
                              (policy_chunks (stored db))))) by exact Hcount.
  rewrite (chunk_counts_add_up _ _ Hids). f_equal. apply filter_nothing.
  intros r Hr. destruct (Hfk r Hr) as (d & Hd & E).
  apply existsb_exists. exists d. split; [exact Hd | apply Z.eqb_eq; exact E].
Qed.

(** X7. On a coherent store [get_document_stats] reports the number of
    rows of the two tables, although it reads [policy_documents] only; the
    average is the integer 0 when there is no chunk. *)
Theorem document_stats_count_the_tables (S : Server) (B : Backend) (db : database) :
  coherent db -> connect_fails S = false -> stats_fails B = false ->
  exists stats,
    get_document_stats S B db = Returned stats /\
    total_documents stats = len (policy_documents (stored db)) /\
    total_chunks stats = len (policy_chunks (stored db)) /\
    (policy_chunks (stored db) = [] ->
     avg_chunks_per_document stats = S754_zero false) /\
    (policy_chunks (stored db) <> [] ->
     avg_chunks_per_document stats
     = float_of_avg B (len (policy_chunks (stored db)))
                      (len (policy_documents (stored db)))).
Proof.
  intros Hco Hc Hs. unfold get_document_stats. rewrite Hc, Hs. cbv zeta.
  rewrite (total_chunks_add_up db Hco).
  destruct Hco as (_ & Hids & _).
  eexists. split; [reflexivity|]. cbn [total_documents total_chunks avg_chunks_per_document].
  split. { rewrite (nodup_fixed_point Z.eq_dec Hids). unfold len. rewrite length_map. reflexivity. }
  split; [reflexivity|]. split.
  - intro E. rewrite E. reflexivity.
  - intro E. destruct (policy_chunks (stored db)) as [|r l]; [contradiction|].
    reflexivity.
Qed.

(** The store after "Hello. World." was ingested is coherent. *)
Lemma hello_ingested_coherent : coherent (w_db hello_ingested).
Proof.
  set (db := w_db hello_ingested). vm_compute in db. subst db.
  unfold coherent, consistent, chunks_of. simpl.
  repeat split; try (repeat constructor; simpl; tauto).
  - intros d [E|[]]. subst d. simpl. lia.
  - destruct H as [E|[]]. subst r. simpl. lia.
  - destruct H as [E|[]]. subst r. simpl. lia.
  - intros r [E|[]]. subst r. eexists. split; [left; reflexivity | reflexivity].
  - intros d [E|[]]. subst d. reflexivity.
Qed.

(** So is the store after the second text was ingested. *)
Lemma fire_ingested_coherent : coherent (w_db fire_ingested).
Proof.
  set (db := w_db fire_ingested). vm_compute in db. subst db.
  unfold coherent, consistent, chunks_of. simpl.
  repeat split.
  all: try (intros d [E|[E|[]]]; subst d; simpl; lia).
  all: try (intros d [E|[E|[]]]; subst d; reflexivity).
  all: try (intros r [E|[E|[]]]; subst r;
            first [ eexists; split; [left; reflexivity | reflexivity]
                  | eexists; split; [right; left; reflexivity | reflexivity] ]).
  all: try match goal with
           | H : _ \/ _ |- _ < _ => destruct H as [E|[E|[]]]; subst; simpl; lia
           | H : _ \/ _ |- exists _, _ =>
               destruct H as [E|[E|[]]]; subst;
               first [ eexists; split; [left; reflexivity | reflexivity]
                     | eexists; split; [right; left; reflexivity | reflexivity] ]
           end.
  all: repeat constructor; simpl; intuition (try discriminate; try congruence).
Qed.

Lemma document_stats_count_the_tables_witness :
  exists stats,
    get_document_stats healthy plain_backend (w_db hello_ingested) = Returned stats /\
    total_documents stats = len (policy_documents (stored (w_db hello_ingested))) /\
    total_chunks stats = len (policy_chunks (stored (w_db hello_ingested))) /\
    (policy_chunks (stored (w_db hello_ingested)) = [] ->
     avg_chunks_per_document stats = S754_zero false) /\
    (policy_chunks (stored (w_db hello_ingested)) <> [] ->
     avg_chunks_per_document stats
     = float_of_avg plain_backend (len (policy_chunks (stored (w_db hello_ingested))))
                      (len (policy_documents (stored (w_db hello_ingested))))).
Proof.
  apply (document_stats_count_the_tables healthy plain_backend (w_db hello_ingested)).
  - exact hello_ingested_coherent.
  - reflexivity.
  - reflexivity.
Defined.

(* ===================================================================== *)
(** * What an ingestion does to the sequences and to the tables           *)
(* ===================================================================== *)

Lemma insert_chunk_rows_sequence (S : Server) (records : list chunk_record) :
  forall (w : world) (r : res unit) (w' : world),
    insert_chunk_rows S records w = (r, w') ->
    chunks_id_seq (w_db w) <= chunks_id_seq (w_db w') /\
    (r = Returned tt -> chunks_id_seq (w_db w') = chunks_id_seq (w_db w) + len records).
Proof.
  induction records as [|k records IH]; intros w r w' H.
  - simpl in H. unfold ret in H. inversion H; subst.
    split; [lia | intros _; unfold len; simpl; lia].
  - cbn [insert_chunk_rows] in H. unfold bind in H.
    destruct (insert_chunk_row S k w) as [r1 w1] eqn:H1.
    assert (chunks_id_seq (w_db w1) = chunks_id_seq (w_db w) + 1 /\
            r1 <> Diverged) as [Hseq Hnd].
    { unfold insert_chunk_row in H1.
      destruct (existsb _ (policy_chunks (w_view w)));
        [inversion H1; subst; simpl; split; [reflexivity | discriminate]|].
      destruct (negb _);
        inversion H1; subst; simpl; (split; [reflexivity | discriminate]). }
    destruct r1 as [[]| e |].
    + destruct (IH w1 r w' H) as [Hle Heq]. split; [lia|].
      intro E. rewrite (Heq E). unfold len. cbn [List.length].
      rewrite Nat2Z.inj_succ. lia.
    + inversion H; subst. split; [lia | discriminate].
    + exfalso. exact (Hnd eq_refl).
Qed.

Lemma insert_pages_sequence (S : Server) :
  forall (n : nat) (records : list chunk_record) (w : world) (r : res unit) (w' : world),
    insert_pages n S records w = (r, w') ->
    chunks_id_seq (w_db w) <= chunks_id_seq (w_db w').
Proof.
  induction n as [|n IH]; intros records w r w' H.
  - destruct records; inversion H; subst; lia.
  - destruct records as [|k records]; [inversion H; subst; lia|].
    cbn [insert_pages] in H.
    destruct (refused (firstn 100 (k :: records))); [inversion H; subst; lia|].
    destruct (insert_chunks_fails S); [inversion H; subst; lia|].
    unfold bind in H.
    destruct (insert_chunk_rows S (firstn 100 (k :: records)) w) as [r1 w1] eqn:E1.
    destruct (insert_chunk_rows_sequence _ _ _ _ _ E1) as [Q _].
    destruct r1 as [[]| e |]; [| inversion H; subst; exact Q ..].
    apply IH in H. lia.
Qed.

(** The row that a first ingestion adds to [policy_documents]. *)
Lemma add_policy_document_effect (fuel : nat) (rag : PolicyWordingRAG) (S : Server)
    (document_text document_name : option text) (pdf_bytes : option pdf)
    (metadata : option json) (w : world) (r : res (Z * Z)) (w' : world) :
  add_policy_document fuel rag S document_text document_name pdf_bytes metadata w = (r, w') ->
  documents_id_seq (w_db w) <= documents_id_seq (w_db w') /\
  chunks_id_seq (w_db w) <= chunks_id_seq (w_db w') /\
  (stored (w_db w') = stored (w_db w) \/
   exists cs txt name name',
     source_chunks fuel rag document_text pdf_bytes = Returned (cs, txt) /\
     document_name = Some name /\ varchar 255 name = Some name' /\
     r = Returned (documents_id_seq (w_db w), len cs) /\
     documents_id_seq (w_db w') = documents_id_seq (w_db w) + 1 /\
     chunks_id_seq (w_db w') = chunks_id_seq (w_db w) + len cs /\
     policy_documents (stored (w_db w')) =
       policy_documents (stored (w_db w)) ++
       [ {| d_id := documents_id_seq (w_db w); d_document_name := name';
            d_document_hash := sha256 (runtime rag) txt;
            d_upload_date := current_timestamp S;
            d_total_chunks := len cs;
            d_metadata := stored_metadata metadata |} ]).
Proof.
  unfold add_policy_document. intro H.
  destruct (connect_fails S).
  { inversion H; subst. split; [lia|]. split; [lia|]. left. reflexivity. }
  unfold add_policy_document_body in H. unfold bind at 1 in H.
  rewrite chunk_source_spec in H.
  destruct (source_chunks fuel rag document_text pdf_bytes) as [[cs txt]| e |] eqn:Hsrc;
    [| inversion H; subst; simpl; split; [lia|]; split; [lia|]; left; reflexivity ..].
  simpl fst in H. simpl snd in H.
  unfold bind at 1 in H. unfold compute_document_hash in H.
  destruct (utf8_encodable txt) eqn:Hutf;
    [| unfold raise in H; inversion H; subst; simpl;
       split; [lia|]; split; [lia|]; left; reflexivity].
  unfold bind at 1 in H. unfold emit, ret in H.
  unfold bind at 1 in H. unfold select_document_by_hash in H.
  destruct (select_fails S);
    [inversion H; subst; simpl; split; [lia|]; split; [lia|]; left; reflexivity|].
  cbn [w_db w_view w_trace logged open_connection] in H.
  destruct (find (fun d => N.eqb (d_document_hash d) (sha256 (runtime rag) txt))
                 (policy_documents (stored (w_db w)))) as [row|] eqn:Hfind;
    [inversion H; subst; simpl; split; [lia|]; split; [lia|]; left; reflexivity|].
  unfold bind at 1 in H. unfold bind at 1 in H.
  cbn [w_db w_view w_trace] in H.
  match type of H with
  | context [insert_document S ?dn ?h ?n ?md ?w0] =>
      destruct (insert_document S dn h n md w0) as [rd wd] eqn:Hdoc;
      pose proof (insert_document_spec _ _ _ _ _ _ _ _ Hdoc) as (D1 & D2 & D3 & D4)
  end.
  cbn [w_db w_view w_trace] in D1, D2, D3, D4.
  destruct rd as [id| e |]; [| | contradiction].
  2:{ inversion H; subst. simpl. split; [lia|]. split; [lia|]. left. exact D1. }
  destruct D4 as (Hid & Df & Dx & name & name' & metadata' & Hname & Da & Dv & Dj & Hwd).
  subst id wd. clear Hdoc D1 D2 D3.
  unfold bind at 1 in H. unfold insert_chunks in H. unfold bind at 1 in H.
  match type of H with
  | context [insert_pages ?n S ?recs ?w0] =>
      destruct (insert_pages n S recs w0) as [r1 w1] eqn:Hpages;
      pose proof (insert_pages_spec S n recs w0 r1 w1 (le_n _) Hpages) as Hspec;
      cbn [w_db w_view w_trace stored documents_id_seq chunks_id_seq
           policy_documents policy_chunks] in Hspec;
      destruct Hspec as (R1 & R2 & R3 & R4 & R5);
      pose proof (insert_pages_sequence _ _ _ _ _ _ Hpages) as Q1;
      cbn [w_db chunks_id_seq] in Q1
  end.
  destruct r1 as [[]| e |]; [| | contradiction].
  2:{ inversion H; subst. simpl. split; [lia|]. split; [lia|]. left. exact R1. }
  destruct R5 as (Hrows & _ & _).
  destruct (insert_chunk_rows_sequence _ _ _ _ _ Hrows) as [_ Q2].
  cbn [w_db chunks_id_seq] in Q2.
  unfold emit, bind, commit, ret in H.
  destruct (commit_fails S).
  { inversion H; subst. simpl. split; [lia|]. split; [lia|]. left. exact R1. }
  inversion H; subst. clear H. simpl.
  specialize (Q2 eq_refl). unfold len in Q2.
  rewrite chunk_records_length in Q2
    by (rewrite generate_embeddings_batch_length; apply length_map).
  split; [lia|]. split; [lia|]. right.
  exists cs, txt, name, name'.
  split; [reflexivity|]. split; [reflexivity|]. split; [exact Dv|].
  split; [reflexivity|]. split; [exact R2|]. split; [exact Q2|].
  rewrite R4. unfold stored_metadata. rewrite Dj. reflexivity.
Qed.

(* ===================================================================== *)
(** * The store stays coherent                                            *)
(* ===================================================================== *)

Lemma rows_of_keys (S : Server) (records : list chunk_record) :
  forall i,
    map (fun r => (r_document_id r, r_chunk_index r)) (rows_of S i records)
    = map (fun k => (k_document_id k, k_chunk_index k)) records.
Proof.
  induction records as [|k records IH]; intro i; [reflexivity|].
  simpl. f_equal. apply IH.
Qed.

Lemma rows_of_ids (S : Server) (records : list chunk_record) :
  forall i row, In row (rows_of S i records) -> i <= r_id row < i + len records.
Proof.
  unfold len. induction records as [|k records IH]; intros i row H; [contradiction|].
  cbn [List.length]. rewrite Nat2Z.inj_succ. destruct H as [H|H].
  - subst row. simpl. lia.
  - specialize (IH (i + 1) row H). lia.
Qed.

Lemma rows_of_ids_distinct (S : Server) (records : list chunk_record) :
  forall i, NoDup (map r_id (rows_of S i records)).
Proof.
  induction records as [|k records IH]; intro i; [constructor|].
  simpl. constructor; [|apply IH].
  intro H. apply in_map_iff in H. destruct H as (row & E & Hrow).
  apply rows_of_ids in Hrow. lia.
Qed.

Lemma rows_of_document (S : Server) (id : Z) (cs : list chunk) :
  forall es i row, In row (rows_of S i (chunk_records id cs es)) -> r_document_id row = id.
Proof.
  intros es i row H. apply (rows_of_origin S id cs es i row H).
Qed.

Lemma filter_none {A} (f : A -> bool) (l : list A) :
  (forall x, In x l -> f x = false) -> filter f l = [].
Proof.
  induction l as [|x l IH]; intro H; simpl; [reflexivity|].
  rewrite (H x (or_introl eq_refl)). apply IH. intros y Hy. apply H. right. exact Hy.
Qed.

Lemma NoDup_map_filter {A B} (key : A -> B) (keep : A -> bool) :
  forall rows : list A,
    NoDup (map key rows) -> NoDup (map key (filter keep rows)).
Proof.
  intros rows. induction rows as [|row rows IH]; intro Hnd; [exact Hnd|].
  apply NoDup_cons_iff in Hnd. destruct Hnd as [Hfresh Hnd]. cbn [filter].
  destruct (keep row); [|exact (IH Hnd)].
  cbn [map]. apply NoDup_cons_iff. split; [|exact (IH Hnd)].
  intro Hin. apply Hfresh. apply in_map_iff in Hin. apply in_map_iff.
  destruct Hin as (other & Hkey & Hother). exists other.
  split; [exact Hkey|].
  destruct (proj1 (filter_In keep other rows) Hother) as [Hrows _]. exact Hrows.
Qed.

Lemma app_one_differs {A} (l : list A) (x : A) : l ++ [x] <> l.
Proof.
  intro H. apply (f_equal (@List.length A)) in H. rewrite length_app in H.
  simpl in H. lia.
Qed.

(** A coherent store stays coherent when the sequences move on. *)
Lemma coherent_sequences (t : tables) (s1 s2 s1' s2' : Z) :
  s1 <= s1' -> s2 <= s2' ->
  coherent {| stored := t; documents_id_seq := s1; chunks_id_seq := s2 |} ->
  coherent {| stored := t; documents_id_seq := s1'; chunks_id_seq := s2' |}.
Proof.
  intros H1 H2 ((Hd & Hr) & Hrest). split; [|exact Hrest].
  split; simpl in *.
  - intros d Hin. specialize (Hd d Hin). lia.
  - intros r Hin. specialize (Hr r Hin). lia.
Qed.

Lemma add_policy_document_coherent (fuel : nat) (rag : PolicyWordingRAG)
    (S : Server) (document_text document_name : option text) (pdf_bytes : option pdf)
    (metadata : option json) (w : world) (r : res (Z * Z)) (w' : world) :
  coherent (w_db w) ->
  add_policy_document fuel rag S document_text document_name pdf_bytes metadata w
    = (r, w') ->
  coherent (w_db w').
Proof.
  intros Hco Hadd.
  destruct (add_policy_document_effect _ _ _ _ _ _ _ _ _ _ Hadd) as (Hs1 & Hs2 & Heff).
  destruct Heff as [Hsame | (cs0 & txt0 & name0 & name0' & Hsrc0 & _ & _ & _ & Hseq & Hcseq & _)].
  { destruct (w_db w') as [t' a' b'], (w_db w) as [t a b]. simpl in *. subst t'.
    apply (coherent_sequences t a b a' b' Hs1 Hs2 Hco). }
  destruct (add_policy_document_cases _ _ _ _ _ _ _ _ _ _ Hadd)
    as [(_ & Hsame & _) | [(cs & txt & row & _ & _ & _ & _ & Hdb & _) | Hins]].
  { destruct (w_db w') as [t' a' b'], (w_db w) as [t a b]. simpl in *. subst t'.
    apply (coherent_sequences t a b a' b' Hs1 Hs2 Hco). }
  { rewrite Hdb. exact Hco. }
  destruct Hins as (cs & txt & name & Hsrc & _ & Hfind & Hins). cbv zeta in Hins.
  destruct Hins as (_ & Hnd & Hdocs & Hchunks & _).
  assert (cs0 = cs) by congruence. subst cs0. clear Hsrc0 Hsrc.
  set (id := documents_id_seq (w_db w)) in *.
  set (records := chunk_records id cs
                    (generate_embeddings_batch (embedding_generator rag) (map c_text cs)))
    in *.
  set (rows := rows_of S (chunks_id_seq (w_db w)) records) in *.
  assert (List.length records = List.length cs) as Hlen.
  { unfold records. apply chunk_records_length.
    rewrite generate_embeddings_batch_length. apply length_map. }
  assert (List.length rows = List.length cs) as Hlen'.
  { unfold rows. rewrite rows_of_length. exact Hlen. }
  assert (forall row, In row rows -> r_document_id row = id) as Hdoc.
  { intros row Hrow. apply (rows_of_document S id cs _ _ row Hrow). }
  assert (forall row, In row rows ->
            chunks_id_seq (w_db w) <= r_id row < chunks_id_seq (w_db w) + len cs) as Hids.
  { intros row Hrow. apply rows_of_ids in Hrow. unfold len in *. lia. }
  destruct Hco as ((Hcd & Hcr) & Hnid & Hnh & Hnr & Hnk & Hfk & Hcount).
  unfold coherent, consistent, chunks_of. rewrite Hdocs, Hchunks.
  split; [split|].
  - intros d Hd. apply in_app_or in Hd. destruct Hd as [Hd|[Hd|[]]].
    + specialize (Hcd d Hd). lia.
    + subst d. simpl. fold id. lia.
  - intros row Hrow. apply in_app_or in Hrow. destruct Hrow as [Hrow|Hrow].
    + specialize (Hcr row Hrow). lia.
    + specialize (Hids row Hrow). rewrite (Hdoc row Hrow). fold id in Hseq. lia.
  - split; [|split; [|split; [|split; [|split]]]].
    + rewrite map_app. apply NoDup_app; [exact Hnid | repeat constructor; simpl; tauto |].
      intros x Hx [E|[]]. simpl in E. apply in_map_iff in Hx.
      destruct Hx as (d & Ed & Hd). specialize (Hcd d Hd). fold id in E. lia.
    + rewrite map_app. apply NoDup_app; [exact Hnh | repeat constructor; simpl; tauto |].
      intros x Hx [E|[]]. simpl in E. apply in_map_iff in Hx.
      destruct Hx as (d & Ed & Hd).
      unfold document_with_hash in Hfind.
      pose proof (find_none _ _ Hfind d Hd) as C. simpl in C.
      apply N.eqb_neq in C. apply C. congruence.
    + rewrite map_app. apply NoDup_app; [exact Hnr | apply rows_of_ids_distinct |].
      intros x Hx Hx'. apply in_map_iff in Hx. destruct Hx as (row & E & Hrow).
      apply in_map_iff in Hx'. destruct Hx' as (row' & E' & Hrow').
      specialize (Hcr row Hrow). specialize (Hids row' Hrow'). lia.
    + rewrite map_app. apply NoDup_app; [exact Hnk | |].
      * unfold rows. rewrite rows_of_keys. unfold records.
        rewrite chunk_records_indices
          by (rewrite generate_embeddings_batch_length; apply length_map).
        rewrite <- (map_map c_chunk_index (fun i => (id, i))).
        apply NoDup_map_pair. exact Hnd.
      * intros x Hx Hx'. apply in_map_iff in Hx. destruct Hx as (row & E & Hrow).
        apply in_map_iff in Hx'. destruct Hx' as (row' & E' & Hrow').
        specialize (Hcr row Hrow). pose proof (Hdoc row' Hrow') as D.
        subst x. inversion E'. fold id in Hcr. lia.
    + intros row Hrow. apply in_app_or in Hrow. destruct Hrow as [Hrow|Hrow].
      * destruct (Hfk row Hrow) as (d & Hd & E). exists d.
        split; [apply in_or_app; left; exact Hd | exact E].
      * eexists. split; [apply in_or_app; right; left; reflexivity|].
        simpl. symmetry. apply (Hdoc row Hrow).
    + intros d Hd. rewrite filter_app. unfold len. rewrite length_app.
      apply in_app_or in Hd. destruct Hd as [Hd|[Hd|[]]].
      * rewrite (filter_none _ rows).
        -- simpl List.length. rewrite Nat.add_0_r. apply (Hcount d Hd).
        -- intros row Hrow. apply Z.eqb_neq. rewrite (Hdoc row Hrow).
           specialize (Hcd d Hd). fold id in Hcd. lia.
      * subst d. cbn [d_id d_total_chunks].
        rewrite (filter_none _ (policy_chunks (stored (w_db w)))).
        -- rewrite (filter_nothing _ rows).
           ++ simpl List.length. unfold len. lia.
           ++ intros row Hrow. apply Z.eqb_eq. fold id. apply (Hdoc row Hrow).
        -- intros row Hrow. apply Z.eqb_neq. specialize (Hcr row Hrow).
           fold id. lia.
Qed.

(** X8. A coherent store is coherent again after [add_policy_document],
    however the call ends: the keys stay unique, every chunk has its
    document, identifiers stay below the sequences, and [total_chunks] is
    the number of chunks of its document. *)
Theorem ingestion_keeps_the_store_coherent (fuel : nat) (rag : PolicyWordingRAG)
    (S : Server) (document_text document_name : option text) (pdf_bytes : option pdf)
    (metadata : option json) (w : world) (r : res (Z * Z)) (w' : world) :
  coherent (w_db w) ->
  add_policy_document fuel rag S document_text document_name pdf_bytes metadata w
    = (r, w') ->
  coherent (w_db w').
Proof.
  apply add_policy_document_coherent.
Qed.

Lemma ingestion_keeps_the_store_coherent_witness : coherent (w_db fire_ingested).
Proof.
  apply (ingestion_keeps_the_store_coherent 1 example_rag (healthy_at 5)
           (Some fire_text) (Some policy_name) None None hello_ingested
           (Returned (2, 1)) fire_ingested).
  - exact hello_ingested_coherent.
  - vm_compute. reflexivity.
Defined.

Lemma filter_filter_implied {A} (p q : A -> bool) (l : list A) :
  (forall x, p x = true -> q x = true) ->
  filter p (filter q l) = filter p l.
Proof.
  intro H. induction l as [|x l IH]; [reflexivity|]. simpl.
  destruct (q x) eqn:Eq; simpl.
  - rewrite IH. reflexivity.
  - destruct (p x) eqn:Ep; [|exact IH].
    rewrite (H x Ep) in Eq. discriminate.
Qed.

(** Taking one document and its chunks away leaves a coherent store. *)
Lemma coherent_without_document (db : database) (id : Z) :
  coherent db ->
  coherent
    {| stored :=
         {| policy_documents :=
              filter (fun d => negb (d_id d =? id)) (policy_documents (stored db));
            policy_chunks :=
              filter (fun r => negb (r_document_id r =? id)) (policy_chunks (stored db)) |};
       documents_id_seq := documents_id_seq db;
       chunks_id_seq := chunks_id_seq db |}.
Proof.
  intros ((Hcd & Hcr) & Hnid & Hnh & Hnr & Hnk & Hfk & Hcount).
  unfold coherent, consistent, chunks_of. simpl.
  split; [split|split; [|split; [|split; [|split; [|split]]]]].
  - intros d Hd. apply filter_In in Hd. apply Hcd. tauto.
  - intros r Hr. apply filter_In in Hr. apply Hcr. tauto.
  - apply NoDup_map_filter. exact Hnid.
  - apply NoDup_map_filter. exact Hnh.
  - apply NoDup_map_filter. exact Hnr.
  - apply NoDup_map_filter. exact Hnk.
  - intros r Hr. apply filter_In in Hr. destruct Hr as [Hr Hne].
    destruct (Hfk r Hr) as (d & Hd & E). exists d. split; [|exact E].
    apply filter_In. split; [exact Hd|]. rewrite E. exact Hne.
  - intros d Hd. apply filter_In in Hd. destruct Hd as [Hd Hne].
    rewrite (Hcount d Hd). unfold chunks_of. f_equal. symmetry.
    apply filter_filter_implied. intros r E. apply Z.eqb_eq in E. rewrite E. exact Hne.
Qed.

Lemma deletion_coherent (S : Server) (B : Backend) (id : Z) (w : world) :
  coherent (w_db w) ->
  coherent (w_db (snd (delete_document S B id w))) /\
  coherent (w_db (snd (clear_all_documents S B w))).
Proof.
  intro Hco. split.
  - rewrite delete_document_run.
    destruct (connect_fails S); [exact Hco|].
    destruct (delete_fails B); [exact Hco|].
    destruct (commit_fails S); [exact Hco|].
    cbv zeta. cbn [snd w_db].
    destruct (existsb (fun d => d_id d =? id) (policy_documents (stored (w_db w))))
      eqn:E.
    + apply coherent_without_document. exact Hco.
    + rewrite filter_nothing.
      * destruct (w_db w) as [[docs chunks] a b]. exact Hco.
      * intros d Hd. apply negb_true_iff. destruct (d_id d =? id) eqn:E'; [|reflexivity].
        exfalso.
        assert (existsb (fun d => d_id d =? id) (policy_documents (stored (w_db w)))
                = true) as C
          by (apply existsb_exists; exists d; split; assumption).
        rewrite C in E. discriminate.
  - rewrite clear_all_documents_run.
    destruct (connect_fails S); [exact Hco|].
    destruct (delete_fails B || commit_fails S); [exact Hco|].
    cbv zeta. cbn [snd w_db].
    destruct Hco as ((Hcd & Hcr) & Hnid & Hnh & Hnr & Hnk & Hfk & Hcount).
    rewrite filter_none.
    + unfold coherent, consistent, chunks_of. simpl.
      repeat split; try apply NoDup_nil; try (intros ? []); try contradiction.
    + intros r Hr. apply negb_false_iff. apply existsb_exists.
      destruct (Hfk r Hr) as (d & Hd & E). exists d.
      split; [exact Hd | apply Z.eqb_eq; exact E].
Qed.

(** X9. Deleting keeps the store coherent: after [delete_document] and
    after [clear_all_documents], however they end, the keys are unique,
    no chunk is left without its document, and the counts are right. *)
Theorem deletion_keeps_the_store_coherent (S : Server) (B : Backend) (id : Z)
    (w : world) :
  coherent (w_db w) ->
  coherent (w_db (snd (delete_document S B id w))) /\
  coherent (w_db (snd (clear_all_documents S B w))).
Proof.
  apply deletion_coherent.
Qed.

Lemma deletion_keeps_the_store_coherent_witness :
  coherent (w_db (snd (delete_document healthy plain_backend 1 fire_ingested))) /\
  coherent (w_db (snd (clear_all_documents healthy plain_backend fire_ingested))).
Proof.
  apply (deletion_keeps_the_store_coherent healthy plain_backend 1 fire_ingested).
  exact fire_ingested_coherent.
Defined.

(* ===================================================================== *)
(** * The dimension of the stored embeddings                              *)
(* ===================================================================== *)

Lemma encode_batch_outputs (G : EmbeddingGenerator) (batch : list text) :
  forall es e, encode_batch G batch = Some es -> In e es ->
    exists t, In t batch /\ model_encode G t = Some e.
Proof.
  induction batch as [|t batch IH]; intros es e H Hin; simpl in H.
  - inversion H; subst. contradiction.
  - destruct (model_encode G t) as [e0|] eqn:E; [|discriminate].
    destruct (encode_batch G batch) as [es0|]; [|discriminate].
    inversion H; subst. destruct Hin as [Hin|Hin].
    + subst. exists t. split; [left; reflexivity | exact E].
    + destruct (IH es0 e eq_refl Hin) as (t' & Ht' & E').
      exists t'. split; [right; exact Ht' | exact E'].
Qed.

Lemma encode_batches_outputs (G : EmbeddingGenerator) (b : nat) :
  forall n texts es e,
    encode_batches n G b texts = Some es -> In e es ->
    exists t, In t texts /\ model_encode G t = Some e.
Proof.
  induction n as [|n IH]; intros texts es e H Hin.
  - destruct texts; simpl in H; inversion H; subst; contradiction.
  - destruct texts as [|t texts]; [simpl in H; inversion H; subst; contradiction|].
    cbn [encode_batches] in H.
    destruct (encode_batch G (firstn b (t :: texts))) as [es1|] eqn:E1; [|discriminate].
    destruct (encode_batches n G b (skipn b (t :: texts))) as [es2|] eqn:E2;
      [|discriminate].
    inversion H; subst. apply in_app_or in Hin. destruct Hin as [Hin|Hin].
    + destruct (encode_batch_outputs G _ _ _ E1 Hin) as (t' & Ht' & E').
      exists t'. split; [apply In_firstn in Ht'; exact Ht' | exact E'].
    + destruct (IH _ _ _ E2 Hin) as (t' & Ht' & E').
      exists t'. split; [apply In_skipn in Ht'; exact Ht' | exact E'].
Qed.

Lemma generate_embeddings_batch_dimension (G : EmbeddingGenerator) (texts : list text) :
  model_has_dimension G ->
  forall e, In e (generate_embeddings_batch G texts) ->
            List.length e = embedding_dim G.
Proof.
  intros Hm e. unfold generate_embeddings_batch.
  destruct (encode_batches (List.length texts) G 32 texts) as [es|] eqn:E.
  - intro Hin. destruct (encode_batches_outputs _ _ _ _ _ _ E Hin) as (t & _ & Ht).
    apply (Hm t e Ht).
  - intro Hin. apply in_map_iff in Hin. destruct Hin as (t & Ht & _). subst e.
    apply repeat_length.
Qed.

Lemma generate_embedding_dimension (G : EmbeddingGenerator) (t : text) :
  model_has_dimension G -> List.length (generate_embedding G t) = embedding_dim G.
Proof.
  intro Hm. unfold generate_embedding.
  destruct (model_encode G t) as [e|] eqn:E; [apply (Hm t e E) | apply repeat_length].
Qed.

(** X10. When the model gives vectors of the announced dimension, every
    embedding that [add_policy_document] stores has that dimension, be it
    a vector of the model or the zero vector of a failed batch: a store
    whose embeddings have the dimension keeps it. *)
Theorem ingestion_keeps_the_dimension (fuel : nat) (rag : PolicyWordingRAG)
    (S : Server) (document_text document_name : option text) (pdf_bytes : option pdf)
    (metadata : option json) (w : world) (r : res (Z * Z)) (w' : world) :
  model_has_dimension (embedding_generator rag) ->
  dimensioned (embedding_dim (embedding_generator rag)) (stored (w_db w)) ->
  add_policy_document fuel rag S document_text document_name pdf_bytes metadata w
    = (r, w') ->
  dimensioned (embedding_dim (embedding_generator rag)) (stored (w_db w')).
Proof.
  intros Hm Hdim Hadd.
  destruct (add_policy_document_cases _ _ _ _ _ _ _ _ _ _ Hadd)
    as [(_ & Hsame & _) | [(cs & txt & row & _ & _ & _ & _ & Hdb & _) | Hins]].
  - rewrite Hsame. exact Hdim.
  - rewrite Hdb. exact Hdim.
  - destruct Hins as (cs & txt & name & _ & _ & _ & Hins). cbv zeta in Hins.
    destruct Hins as (_ & _ & _ & Hchunks & _).
    intros row Hrow. rewrite Hchunks in Hrow. apply in_app_or in Hrow.
    destruct Hrow as [Hrow|Hrow]; [apply (Hdim row Hrow)|].
    apply rows_of_origin in Hrow.
    destruct Hrow as (_ & c & e & _ & He & _ & _ & _ & Hemb).
    rewrite Hemb. apply (generate_embeddings_batch_dimension _ _ Hm e He).
Qed.

Lemma length_model_has_dimension : model_has_dimension (embedding_generator example_rag).
Proof.
  intros t e H. simpl in H. unfold length_model in H. inversion H. reflexivity.
Qed.

Lemma ingestion_keeps_the_dimension_witness :
  dimensioned (embedding_dim (embedding_generator example_rag))
    (stored (w_db hello_ingested)).
Proof.
  apply (ingestion_keeps_the_dimension 1 example_rag healthy (Some hello_text)
           (Some policy_name) None None (at_rest empty_database)
           (Returned (1, 1)) hello_ingested).
  - exact length_model_has_dimension.
  - intros row [].
  - vm_compute. reflexivity.
Defined.

(** X11. On a store whose embeddings have the dimension of the query
    embedding, no candidate is lost to an error: the search returns
    [top_k] entries, or all candidates when there are fewer. *)
Theorem search_counts_on_a_dimensioned_store (rag : PolicyWordingRAG) (S : Server)
    (query : text) (top_k : Z) (document_id : option Z) (min_page : Z) (db : database) :
  model_has_dimension (embedding_generator rag) ->
  dimensioned (embedding_dim (embedding_generator rag)) (stored db) ->
  connect_fails S = false -> select_fails S = false -> 0 <= top_k ->
  exists results,
    search_similar_chunks rag S query top_k document_id min_page db = Returned results /\
    len results = Z.min top_k (len (select_chunks (stored db) document_id min_page)).
Proof.
  intros Hm Hdim Hc Hs Hk. unfold search_similar_chunks. rewrite Hc, Hs.
  set (q := generate_embedding (embedding_generator rag) query).
  set (cands := select_chunks (stored db) document_id min_page).
  assert (Forall (fun c => List.length (r_embedding (fst c)) = List.length q) cands)
    as Hall.
  { apply Forall_forall. intros [r d] Hin. simpl.
    apply select_chunks_In in Hin. destruct Hin as (Hr & _).
    rewrite (Hdim r Hr). unfold q. symmetry.
    apply generate_embedding_dimension. exact Hm. }
  destruct (score_rows_aligned q cands Hall) as (scored & Hsc).
  pose proof (Forall2_length_eq _ _ _ (score_rows_scored _ _ _ Hsc)) as Hlen.
  destruct cands as [|c cands'] eqn:Ec.
  - exists []. split; [reflexivity|]. unfold len. simpl. lia.
  - rewrite Hsc. eexists. split; [reflexivity|].
    rewrite slice_prefix. unfold len.
    replace (top_k <? 0) with false by (symmetry; apply Z.ltb_ge; lia).
    rewrite length_firstn, sort_desc_length, <- Hlen. lia.
Qed.

Lemma search_counts_on_a_dimensioned_store_witness :
  exists results,
    search_similar_chunks example_rag healthy (str "fire") 5 None 0 (w_db hello_ingested)
      = Returned results /\
    len results = Z.min 5 (len (select_chunks (stored (w_db hello_ingested)) None 0)).
Proof.
  apply (search_counts_on_a_dimensioned_store example_rag healthy (str "fire") 5 None 0
           (w_db hello_ingested)).
  - exact length_model_has_dimension.
  - intros row Hrow. vm_compute in Hrow. destruct Hrow as [E|[]]. subst row. reflexivity.
  - reflexivity.
  - reflexivity.
  - lia.
Defined.

(* ===================================================================== *)
(** * Listing the documents                                               *)
(* ===================================================================== *)

Lemma newest_first_head (rows ordered : list document_row) (d : document_row) :
  newest_first rows ordered -> In d rows ->
  exists first rest,
    ordered = first :: rest /\ In first rows /\
    forall x, In x rows -> d_upload_date x <= d_upload_date first.
Proof.
  intros [Hperm Hsorted] Hd.
  destruct ordered as [|first rest].
  - apply Permutation_nil in Hperm. subst rows. contradiction.
  - exists first, rest. split; [reflexivity|]. split.
    + apply (Permutation_in _ Hperm). left. reflexivity.
    + intros x Hx. apply (Permutation_in _ (Permutation_sym Hperm)) in Hx.
      apply StronglySorted_inv in Hsorted. destruct Hsorted as [_ Hall].
      destruct Hx as [Hx|Hx]; [subst; lia|].
      rewrite Forall_forall in Hall. apply (Hall x Hx).
Qed.

(** X12. After [add_policy_document] has returned an identifier,
    [list_documents] is not empty and starts with a document of the latest
    upload date.  That is the document of the identifier when the call
    stored it at a time later than every other upload; when the call found
    the text already stored and a later upload exists, the list starts
    with another document. *)
Theorem latest_upload_is_listed_first (fuel : nat) (rag : PolicyWordingRAG)
    (S S' : Server) (B : Backend) (F : Formatter)
    (document_text document_name : option text) (pdf_bytes : option pdf)
    (metadata : option json) (w w' : world) (id n : Z) :
  add_policy_document fuel rag S document_text document_name pdf_bytes metadata w
    = (Returned (id, n), w') ->
  connect_fails S' = false -> list_fails B = false ->
  newest_first (policy_documents (stored (w_db w')))
    (order_by_upload_date_desc B (policy_documents (stored (w_db w')))) ->
  exists first rest,
    list_documents S' B F (w_db w') = Returned (listed F first :: map (listed F) rest) /\
    In first (policy_documents (stored (w_db w'))) /\
    (forall d, In d (policy_documents (stored (w_db w'))) ->
       d_upload_date d <= d_upload_date first) /\
    (stored (w_db w') <> stored (w_db w) ->
     (forall d, In d (policy_documents (stored (w_db w))) ->
        d_upload_date d < current_timestamp S) ->
     d_id first = id /\ d_total_chunks first = n) /\
    (forall later,
       In later (policy_documents (stored (w_db w'))) ->
       (forall d, In d (policy_documents (stored (w_db w'))) -> d_id d = id ->
          d_upload_date d < d_upload_date later) ->
       d_id first <> id).
Proof.
  intros Hadd Hc Hl Hnew.
  assert (exists d, In d (policy_documents (stored (w_db w'))) /\ d_id d = id) as (d0 & Hd0 & Hid0).
  { destruct (add_policy_document_cases _ _ _ _ _ _ _ _ _ _ Hadd)
      as [(Hno & _) | [(cs & txt & row & _ & _ & Hfind & Hr & Hdb & _) | Hins]].
    - exfalso. exact (Hno _ eq_refl).
    - inversion Hr; subst. exists row. split; [|reflexivity].
      rewrite Hdb. unfold document_with_hash in Hfind.
      apply find_some in Hfind. tauto.
    - destruct Hins as (cs & txt & name & _ & _ & _ & Hins). cbv zeta in Hins.
      destruct Hins as (Hr & _ & Hdocs & _). inversion Hr; subst.
      eexists. split; [rewrite Hdocs; apply in_or_app; right; left; reflexivity|].
      reflexivity. }
  destruct (newest_first_head _ _ d0 Hnew Hd0) as (first & rest & Hord & Hfirst & Hmax).
  exists first, rest. split.
  { unfold list_documents. rewrite Hc, Hl, Hord. reflexivity. }
  split; [exact Hfirst|]. split; [exact Hmax|]. split.
  - intros Hchanged Hearlier.
    destruct (add_policy_document_effect _ _ _ _ _ _ _ _ _ _ Hadd)
      as (_ & _ & [Hsame | (cs & txt & name & name' & _ & _ & _ & Hr & _ & _ & Hdocs)]);
      [contradiction|].
    inversion Hr; subst. rewrite Hdocs in Hfirst, Hmax.
    apply in_app_or in Hfirst. destruct Hfirst as [Hfirst|[Hfirst|[]]].
    + exfalso. specialize (Hearlier first Hfirst).
      match type of Hmax with
      | forall x, In x (_ ++ [?new]) -> _ =>
          assert (d_upload_date new <= d_upload_date first) as Hm
            by (apply Hmax; apply in_or_app; right; left; reflexivity)
      end.
      simpl in Hm. lia.
    + subst first. split; reflexivity.
  - intros later Hlater Hnewer E.
    specialize (Hnewer first Hfirst E). specialize (Hmax later Hlater). lia.
Qed.

Lemma latest_upload_is_listed_first_witness :
  exists first rest,
    list_documents healthy plain_backend plain_formatter (w_db fire_ingested)
      = Returned (listed plain_formatter first :: map (listed plain_formatter) rest) /\
    In first (policy_documents (stored (w_db fire_ingested))) /\
    (forall d, In d (policy_documents (stored (w_db fire_ingested))) ->
       d_upload_date d <= d_upload_date first) /\
    (stored (w_db fire_ingested) <> stored (w_db hello_ingested) ->
     (forall d, In d (policy_documents (stored (w_db hello_ingested))) ->
        d_upload_date d < current_timestamp (healthy_at 5)) ->
     d_id first = 2 /\ d_total_chunks first = 1) /\
    (forall later,
       In later (policy_documents (stored (w_db fire_ingested))) ->
       (forall d, In d (policy_documents (stored (w_db fire_ingested))) -> d_id d = 2 ->
          d_upload_date d < d_upload_date later) ->
       d_id first <> 2).
Proof.
  apply (latest_upload_is_listed_first 1 example_rag (healthy_at 5) healthy plain_backend
           plain_formatter (Some fire_text) (Some policy_name) None None
           hello_ingested fire_ingested 2 1).
  - vm_compute. reflexivity.
  - reflexivity.
  - reflexivity.
  - set (rows := policy_documents (stored (w_db fire_ingested))).
    vm_compute in rows. subst rows. unfold newest_first. simpl. split.
    + apply perm_swap.
    + repeat constructor; simpl; lia.
Defined.

(* ===================================================================== *)
(** * Ingestions that store nothing                                       *)
(* ===================================================================== *)

(** X13. A document is stored only under a name that fits the column:
    without a name (the default of the parameter), or with a name of more
    than 255 characters that are not all spaces beyond the 255th, the
    tables stay as they are, and the call can only return a document that
    was stored before. *)
Theorem document_is_stored_only_under_a_name (fuel : nat) (rag : PolicyWordingRAG)
    (S : Server) (document_text document_name : option text) (pdf_bytes : option pdf)
    (metadata : option json) (w : world) (r : res (Z * Z)) (w' : world) :
  add_policy_document fuel rag S document_text document_name pdf_bytes metadata w
    = (r, w') ->
  (forall name, document_name = Some name -> varchar 255 name = None) ->
  stored (w_db w') = stored (w_db w) /\
  forall id n,
    r = Returned (id, n) ->
    exists row, In row (policy_documents (stored (w_db w))) /\
                d_id row = id /\ d_total_chunks row = n.
Proof.
  intros Hadd Hname.
  assert (stored (w_db w') = stored (w_db w)) as Hsame.
  { destruct (add_policy_document_effect _ _ _ _ _ _ _ _ _ _ Hadd)
      as (_ & _ & [Hsame | (cs & txt & name & name' & _ & E & Hv & _)]);
      [exact Hsame|].
    rewrite (Hname name E) in Hv. discriminate. }
  split; [exact Hsame|].
  intros id n Hr. subst r.
  destruct (add_policy_document_cases _ _ _ _ _ _ _ _ _ _ Hadd)
    as [(Hno & _) | [(cs & txt & row & _ & _ & Hfind & Hr & _) | Hins]].
  - exfalso. exact (Hno _ eq_refl).
  - inversion Hr; subst. exists row. unfold document_with_hash in Hfind.
    apply find_some in Hfind. tauto.
  - exfalso. destruct Hins as (cs & txt & name & _ & _ & _ & Hins). cbv zeta in Hins.
    destruct Hins as (_ & _ & Hdocs & _). rewrite Hsame in Hdocs.
    exact (app_one_differs _ _ (eq_sym Hdocs)).
Qed.

Lemma document_is_stored_only_under_a_name_witness :
  let result := add_policy_document 1 example_rag healthy (Some hello_text) None None
                  None (at_rest empty_database) in
  stored (w_db (snd result)) = stored (w_db (at_rest empty_database)) /\
  forall id n,
    fst result = Returned (id, n) ->
    exists row, In row (policy_documents (stored (w_db (at_rest empty_database)))) /\
                d_id row = id /\ d_total_chunks row = n.
Proof.
  apply (document_is_stored_only_under_a_name 1 example_rag healthy (Some hello_text)
           None None None (at_rest empty_database)).
  - vm_compute. reflexivity.
  - intros name H. discriminate H.
Defined.

(** X14. A PDF from which no text comes (it cannot be read, or every page
    is blank) is refused before the digest is taken and before any
    statement is sent: the call raises, and only the chunking and the
    rollback are on record. *)
Theorem pdf_without_text_is_refused (fuel : nat) (rag : PolicyWordingRAG) (S : Server)
    (document_text document_name : option text) (f : pdf) (metadata : option json)
    (w : world) :
  given document_text = None ->
  extract_text_from_pdf (runtime rag) f = [] ->
  connect_fails S = false ->
  add_policy_document fuel rag S document_text document_name (Some f) metadata w
  = (Raised (PlainException "Failed to extract text from PDF"),
     {| w_db := w_db w; w_view := stored (w_db w);
        w_trace := w_trace w ++ [EvChunk 0; EvRollback] |}).
Proof.
  intros Hg He Hc. unfold add_policy_document. rewrite Hc.
  unfold add_policy_document_body. unfold bind at 1.
  rewrite chunk_source_spec. unfold source_chunks, source_events.
  rewrite Hg. unfold process_pdf_bytes. rewrite He. simpl.
  unfold close_connection, rollback, logged, open_connection. simpl.
  rewrite <- app_assoc. reflexivity.
Qed.

Lemma pdf_without_text_is_refused_witness :
  add_policy_document 1 example_rag healthy None (Some policy_name) (Some blank_pdf)
    None (at_rest empty_database)
  = (Raised (PlainException "Failed to extract text from PDF"),
     {| w_db := w_db (at_rest empty_database);
        w_view := stored (w_db (at_rest empty_database));
        w_trace := w_trace (at_rest empty_database) ++ [EvChunk 0; EvRollback] |}).
Proof.
  apply (pdf_without_text_is_refused 1 example_rag healthy None (Some policy_name)
           blank_pdf None (at_rest empty_database)); reflexivity.
Defined.

(* ===================================================================== *)
(** * Texts without visible characters                                    *)
(* ===================================================================== *)

Lemma collapse_from_blank (t : text) :
  forallb isspace t = true -> collapse_from true t = [].
Proof.
  induction t as [|c t IH]; intro H; [reflexivity|].
  simpl in H. apply andb_true_iff in H. destruct H as [Hc Ht].
  simpl. rewrite Hc. apply IH. exact Ht.
Qed.

Lemma normalize_blank (t : text) : forallb isspace t = true -> normalize t = [].
Proof.
  intro H. unfold normalize, re_sub_whitespace. destruct t as [|c t]; [reflexivity|].
  simpl in H. apply andb_true_iff in H. destruct H as [Hc Ht].
  simpl. rewrite Hc, (collapse_from_blank t Ht). reflexivity.
Qed.

Lemma isspace_not_surrogate (c : char) :
  isspace c = true -> negb ((55296 <=? c) && (c <=? 57343))%N = true.
Proof.
  intro H. apply negb_true_iff. apply andb_false_iff. left. apply N.leb_gt.
  unfold isspace in H.
  repeat match type of H with
         | (_ || _)%bool = true => apply orb_true_iff in H; destruct H as [H|H]
         | (_ && _)%bool = true => apply andb_true_iff in H; destruct H as [H H']
         end;
    repeat match goal with
           | H : (_ <=? _)%N = true |- _ => apply N.leb_le in H
           | H : (_ =? _)%N = true |- _ => apply N.eqb_eq in H
           end; lia.
Qed.

Lemma blank_is_utf8_encodable (t : text) :
  forallb isspace t = true -> utf8_encodable t = true.
Proof.
  unfold utf8_encodable. induction t as [|c t IH]; intro H; [reflexivity|].
  simpl in H. apply andb_true_iff in H. destruct H as [Hc Ht].
  simpl. rewrite (isspace_not_surrogate c Hc), (IH Ht). reflexivity.
Qed.

(** Whitespace is text that psycopg2 adapts. *)
Lemma blank_is_adapted (t : text) : forallb isspace t = true -> adapt t = None.
Proof.
  intro H. apply adapt_spec. intros ch Hch.
  rewrite forallb_forall in H. specialize (H ch Hch).
  split; [apply isspace_not_surrogate; exact H|].
  intro E. subst ch. discriminate H.
Qed.

(** X15. A text of whitespace only is not refused: on a server that
    answers, a first ingestion under a name that psycopg2 adapts (no NUL, no
    surrogate) and that fits the column, with metadata that [jsonb] takes,
    stores it as a document of zero chunks and adds no chunk row. *)
Theorem blank_text_is_stored_without_chunks (fuel : nat) (rag : PolicyWordingRAG)
    (S : Server) (c : char) (t name name' : text) (metadata : option json)
    (db : database) :
  answers S -> consistent db ->
  forallb isspace (c :: t) = true ->
  document_with_hash (sha256 (runtime rag) (c :: t)) (stored db) = None ->
  adapt name = None ->
  varchar 255 name = Some name' ->
  jsonb_object (match metadata with Some m => m | None => [] end) <> None ->
  exists w',
    add_policy_document fuel rag S (Some (c :: t)) (Some name) None metadata (at_rest db)
      = (Returned (documents_id_seq db, 0), w') /\
    policy_documents (stored (w_db w')) =
      policy_documents (stored db) ++
      [ {| d_id := documents_id_seq db; d_document_name := name';
           d_document_hash := sha256 (runtime rag) (c :: t);
           d_upload_date := current_timestamp S;
           d_total_chunks := 0;
           d_metadata := stored_metadata metadata |} ] /\
    policy_chunks (stored (w_db w')) = policy_chunks (stored db).
Proof.
  intros Hans Hco Hblank Hfind Hadapt Hname Hjson.
  assert (chunk_text fuel (pdf_processor rag) (c :: t) 1 = Some []) as Hchunk.
  { unfold chunk_text. rewrite (normalize_blank _ Hblank).
    destruct fuel; reflexivity. }
  destruct (plain_text_ingestion_succeeds fuel rag S c t name name' metadata db []
              Hans Hco Hchunk (blank_is_adapted _ Hblank) Hfind Hadapt Hname Hjson)
    as (w' & Hadd).
  exists w'. split; [exact Hadd|].
  destruct (add_policy_document_effect _ _ _ _ _ _ _ _ _ _ Hadd)
    as (_ & _ & [Hsame | (cs & txt & n0 & n0' & Hsrc & En & Hv & Hr & _ & _ & Hdocs)]).
  - exfalso.
    destruct (add_policy_document_cases _ _ _ _ _ _ _ _ _ _ Hadd)
      as [(Hno & _) | [(cs & txt & row & Hsrc & _ & Hfind' & _) | Hins]].
    + exact (Hno _ eq_refl).
    + unfold source_chunks in Hsrc. simpl in Hsrc. rewrite Hchunk in Hsrc.
      inversion Hsrc; subst. simpl in Hfind'. rewrite Hfind in Hfind'. discriminate.
    + destruct Hins as (cs & txt & nm & _ & _ & _ & Hins). cbv zeta in Hins.
      destruct Hins as (_ & _ & Hdocs & _). rewrite Hsame in Hdocs.
      exact (app_one_differs _ _ (eq_sym Hdocs)).
  - unfold source_chunks in Hsrc. simpl in Hsrc. rewrite Hchunk in Hsrc.
    inversion Hsrc; subst cs txt. inversion En; subst n0.
    rewrite Hname in Hv. inversion Hv; subst n0'.
    split; [exact Hdocs|].
    destruct (add_policy_document_cases _ _ _ _ _ _ _ _ _ _ Hadd)
      as [(Hno & _) | [(cs & txt & row & _ & _ & _ & _ & Hdb & _) | Hins]].
    + exfalso. exact (Hno _ eq_refl).
    + rewrite Hdb. reflexivity.
    + destruct Hins as (cs & txt & nm & Hsrc' & _ & _ & Hins). cbv zeta in Hins.
      destruct Hins as (_ & _ & _ & Hchunks & _).
      unfold source_chunks in Hsrc'. simpl in Hsrc'. rewrite Hchunk in Hsrc'.
      inversion Hsrc'; subst cs txt. simpl in Hchunks. rewrite app_nil_r in Hchunks.
      exact Hchunks.
Qed.

Lemma blank_text_is_stored_without_chunks_witness :
  exists w',
    add_policy_document 1 example_rag healthy (Some (32%N :: [32%N; 32%N]))
      (Some policy_name) None None (at_rest empty_database)
      = (Returned (documents_id_seq empty_database, 0), w') /\
    policy_documents (stored (w_db w')) =
      policy_documents (stored empty_database) ++
      [ {| d_id := documents_id_seq empty_database; d_document_name := policy_name;
           d_document_hash := sha256 (runtime example_rag) (32%N :: [32%N; 32%N]);
           d_upload_date := current_timestamp healthy;
           d_total_chunks := 0;
           d_metadata := [] |} ] /\
    policy_chunks (stored (w_db w')) = policy_chunks (stored empty_database).
Proof.
  apply (blank_text_is_stored_without_chunks 1 example_rag healthy 32%N [32%N; 32%N]
           policy_name policy_name None empty_database).
  - repeat split.
  - split; intros ? [].
  - reflexivity.
  - reflexivity.
  - reflexivity.
  - reflexivity.
  - discriminate.
Defined.

(* ===================================================================== *)
(** * A first ingestion and the lookup that follows                       *)
(* ===================================================================== *)

(** X16. On a server that answers and a store whose identifiers were
    drawn from the sequences, the first ingestion of a text that the
    chunker gets through goes through when the text and the name are
    strings that psycopg2 adapts (no NUL, no surrogate), the name fits the
    column and [jsonb] takes the metadata: it returns the next identifier
    and the number of chunks, each sequence moves on by what was drawn, the
    digest now leads to the new document, and that document has as many
    chunk rows as [total_chunks] says. *)
Theorem first_ingestion_of_a_text_is_found_again (fuel : nat) (rag : PolicyWordingRAG)
    (S : Server) (c : char) (t name name' : text) (metadata : option json)
    (db : database) (cs : list chunk) :
  answers S -> consistent db ->
  chunk_text fuel (pdf_processor rag) (c :: t) 1 = Some cs ->
  adapt (c :: t) = None ->
  document_with_hash (sha256 (runtime rag) (c :: t)) (stored db) = None ->
  adapt name = None ->
  varchar 255 name = Some name' ->
  jsonb_object (match metadata with Some m => m | None => [] end) <> None ->
  exists w' row,
    add_policy_document fuel rag S (Some (c :: t)) (Some name) None metadata (at_rest db)
      = (Returned (documents_id_seq db, len cs), w') /\
    documents_id_seq (w_db w') = documents_id_seq db + 1 /\
    chunks_id_seq (w_db w') = chunks_id_seq db + len cs /\
    document_with_hash (sha256 (runtime rag) (c :: t)) (stored (w_db w')) = Some row /\
    d_id row = documents_id_seq db /\ d_document_name row = name' /\
    d_total_chunks row = len cs /\
    len (chunks_of (documents_id_seq db) (stored (w_db w'))) = len cs.
Proof.
  intros Hans Hco Hchunk Htext Hfind Hadapt Hname Hjson.
  destruct (plain_text_ingestion_succeeds fuel rag S c t name name' metadata db cs
              Hans Hco Hchunk Htext Hfind Hadapt Hname Hjson) as (w' & Hadd).
  assert (source_chunks fuel rag (Some (c :: t)) None = Returned (cs, c :: t)) as Hsource.
  { unfold source_chunks. simpl. rewrite Hchunk. reflexivity. }
  destruct (add_policy_document_cases _ _ _ _ _ _ _ _ _ _ Hadd)
    as [(Hno & _) | [(cs1 & txt1 & row & Hsrc & _ & Hfind' & _) | Hins]].
  { exfalso. exact (Hno _ eq_refl). }
  { exfalso. rewrite Hsource in Hsrc. inversion Hsrc; subst.
    simpl in Hfind'. rewrite Hfind in Hfind'. discriminate. }
  destruct Hins as (cs1 & txt1 & nm & Hsrc & _ & _ & Hins). cbv zeta in Hins.
  destruct Hins as (_ & _ & Hdocs1 & Hchunks & _).
  rewrite Hsource in Hsrc. inversion Hsrc; subst cs1 txt1. clear Hsrc.
  destruct (add_policy_document_effect _ _ _ _ _ _ _ _ _ _ Hadd)
    as (_ & _ & [Hsame | (cs2 & txt2 & n0 & n0' & Hsrc & En & Hv & _ & Hseq & Hcseq & Hdocs)]).
  { exfalso. rewrite Hsame in Hdocs1. exact (app_one_differs _ _ (eq_sym Hdocs1)). }
  rewrite Hsource in Hsrc. inversion Hsrc; subst cs2 txt2. clear Hsrc.
  inversion En; subst n0. rewrite Hname in Hv. inversion Hv; subst n0'.
  simpl in *.
  eexists w', _. split; [exact Hadd|]. split; [exact Hseq|]. split; [exact Hcseq|].
  split.
  { unfold document_with_hash in *. rewrite Hdocs, find_snoc, Hfind. simpl.
    rewrite N.eqb_refl. reflexivity. }
  simpl. split; [reflexivity|]. split; [reflexivity|]. split; [reflexivity|].
  unfold chunks_of. rewrite Hchunks, filter_app.
  destruct Hco as [_ Hcr].
  rewrite filter_none.
  - rewrite filter_nothing.
    + unfold len. simpl. rewrite rows_of_length. f_equal.
      apply chunk_records_length.
      rewrite generate_embeddings_batch_length. apply length_map.
    + intros row Hrow. apply Z.eqb_eq. apply (rows_of_document _ _ _ _ _ _ Hrow).
  - intros row Hrow. apply Z.eqb_neq. specialize (Hcr row Hrow). lia.
Qed.

Lemma first_ingestion_of_a_text_is_found_again_witness :
  exists w' row,
    add_policy_document 1 example_rag healthy (Some (72%N :: str "ello. World."))
      (Some policy_name) None None (at_rest empty_database)
      = (Returned (documents_id_seq empty_database, len [hello_chunk]), w') /\
    documents_id_seq (w_db w') = documents_id_seq empty_database + 1 /\
    chunks_id_seq (w_db w') = chunks_id_seq empty_database + len [hello_chunk] /\
    document_with_hash (sha256 (runtime example_rag) (72%N :: str "ello. World."))
      (stored (w_db w')) = Some row /\
    d_id row = documents_id_seq empty_database /\ d_document_name row = policy_name /\
    d_total_chunks row = len [hello_chunk] /\
    len (chunks_of (documents_id_seq empty_database) (stored (w_db w')))
      = len [hello_chunk].
Proof.
  apply (first_ingestion_of_a_text_is_found_again 1 example_rag healthy 72%N
           (str "ello. World.") policy_name policy_name None empty_database
           [hello_chunk]).
  - repeat split.
  - split; intros ? [].
  - vm_compute. reflexivity.
  - reflexivity.
  - reflexivity.
  - reflexivity.
  - reflexivity.
  - discriminate.
Defined.

(* ===================================================================== *)
(** * The chunks of a text                                                *)
(* ===================================================================== *)

(** A property of the loop state that every iteration keeps holds for the
    state in which the loop ends. *)
Lemma chunk_loop_invariant (Q : loop_state -> Prop) (P : PDFProcessor) (t : text)
    (pg : Z) :
  (forall st, (ls_start st <? len t) = true -> Q st -> Q (chunk_step P t pg st)) ->
  forall fuel st cs,
    chunk_loop fuel P t pg st = Some cs -> Q st ->
    exists st', Q st' /\ ls_chunks st' = cs /\ (ls_start st' <? len t) = false.
Proof.
  intro Hstep. induction fuel as [|fuel IH]; intros st cs H HQ.
  - rewrite chunk_loop_O in H. destruct (ls_start st <? len t) eqn:E; [discriminate|].
    inversion H; subst. exists st. auto.
  - rewrite chunk_loop_S in H. destruct (ls_start st <? len t) eqn:E.
    + apply (IH _ _ H). apply Hstep; assumption.
    + inversion H; subst. exists st. auto.
Qed.

Lemma rfind_range (t : text) (c : char) (start stop : Z) :
  let n := len t in
  let stop' := if n <? stop then n
               else if stop <? 0 then Z.max 0 (stop + n) else stop in
  let start' := if start <? 0 then Z.max 0 (start + n) else start in
  rfind t c start stop = -1 \/ start' <= rfind t c start stop < stop'.
Proof.
  cbv zeta. unfold rfind.
  set (n := len t).
  set (stop' := if n <? stop then n
                else if stop <? 0 then Z.max 0 (stop + n) else stop).
  set (start' := if start <? 0 then Z.max 0 (start + n) else start).
  destruct (stop' - start' <? 1) eqn:E; [left; reflexivity|].
  apply Z.ltb_ge in E.
  assert (0 <= start') as Hs.
  { unfold start'. destruct (start <? 0) eqn:E'; [lia | apply Z.ltb_ge in E'; lia]. }
  pose proof (last_index_spec c
                (firstn (Z.to_nat (stop' - start')) (skipn (Z.to_nat start') t))
                start' (-1) Hs) as Hspec.
  cbv zeta in Hspec. destruct Hspec as [[Hp _] | (Hp & _)].
  - left. exact Hp.
  - right. unfold len in Hp. rewrite length_firstn in Hp. lia.
Qed.

Lemma slice_length {A} (l : list A) (a b : Z) :
  len (slice l a b) <= Z.max 0 (slice_index (len l) b - slice_index (len l) a).
Proof.
  unfold slice, len at 1. rewrite length_firstn. lia.
Qed.

(** A window never holds more than [chunk_size] characters. *)
Lemma window_length (P : PDFProcessor) (t : text) (start : Z) :
  0 <= chunk_size P ->
  len (slice t start (window_end P t start)) <= chunk_size P.
Proof.
  intro Hz. etransitivity; [apply slice_length|].
  unfold window_end, sentence_end_of. set (n := len t).
  assert (0 <= n) as Hn by (unfold n, len; lia).
  set (stop := start + chunk_size P).
  destruct (stop <? n) eqn:E.
  2:{ apply Z.ltb_ge in E. unfold slice_index.
      destruct (stop <? 0) eqn:E1; destruct (start <? 0) eqn:E2;
        try apply Z.ltb_lt in E1; try apply Z.ltb_ge in E1;
        try apply Z.ltb_lt in E2; try apply Z.ltb_ge in E2; unfold stop in *; lia. }
  apply Z.ltb_lt in E.
  pose proof (rfind_range t DOT start stop) as H1.
  pose proof (rfind_range t BANG start stop) as H2.
  pose proof (rfind_range t QUESTION start stop) as H3.
  cbv zeta in H1, H2, H3. fold n in H1, H2, H3.
  replace (n <? stop) with false in * by (symmetry; apply Z.ltb_ge; lia).
  set (se := Z.max (Z.max (rfind t DOT start stop) (rfind t BANG start stop))
                   (rfind t QUESTION start stop)).
  assert (se = -1 \/
          (if start <? 0 then Z.max 0 (start + n) else start) <= se
          < (if stop <? 0 then Z.max 0 (stop + n) else stop)) as Hse.
  { unfold se. destruct H1 as [H1|H1], H2 as [H2|H2], H3 as [H3|H3]; lia. }
  clearbody se. clear H1 H2 H3.
  destruct (start <? se) eqn:E3.
  - apply Z.ltb_lt in E3. unfold slice_index.
    destruct (se + 1 <? 0) eqn:E4; [apply Z.ltb_lt in E4 | apply Z.ltb_ge in E4];
      destruct (start <? 0) eqn:E5; [apply Z.ltb_lt in E5 | apply Z.ltb_ge in E5
                                     | apply Z.ltb_lt in E5 | apply Z.ltb_ge in E5];
      destruct (stop <? 0) eqn:E6;
      try apply Z.ltb_lt in E6; try apply Z.ltb_ge in E6; unfold stop in *; lia.
  - apply Z.ltb_ge in E3. unfold slice_index.
    destruct (stop <? 0) eqn:E1; destruct (start <? 0) eqn:E2;
      try apply Z.ltb_lt in E1; try apply Z.ltb_ge in E1;
      try apply Z.ltb_lt in E2; try apply Z.ltb_ge in E2; unfold stop in *; lia.
Qed.

Lemma lstrip_length (t : text) : len (lstrip t) <= len t.
Proof.
  destruct (lstrip_suffix t) as (p & E). unfold len. rewrite E at 2.
  rewrite length_app. lia.
Qed.

Lemma strip_length (t : text) : len (strip t) <= len t.
Proof.
  unfold strip. destruct (rstrip_prefix (lstrip t)) as (s & E).
  pose proof (lstrip_length t) as H. unfold len in *.
  rewrite E in H. rewrite length_app in H. lia.
Qed.

(** X17. No chunk is longer than [chunk_size] characters, and none is
    empty, whatever the overlap and wherever the windows were cut. *)
Theorem chunks_fit_the_window (fuel : nat) (P : PDFProcessor) (t : text) (pg : Z)
    (cs : list chunk) (c : chunk) :
  0 <= chunk_size P ->
  chunk_text fuel P t pg = Some cs -> In c cs ->
  0 < len (c_text c) <= chunk_size P.
Proof.
  intros Hz H Hin. unfold chunk_text in H.
  destruct (chunk_loop_invariant
              (fun st => forall c, In c (ls_chunks st) ->
                                   0 < len (c_text c) <= chunk_size P)
              P (normalize t) pg) with (fuel := fuel) (st := initial_state) (cs := cs)
    as (st' & HQ & E & _).
  - intros st _ HQ. unfold chunk_step.
    destruct (strip (slice (normalize t) (ls_start st)
                       (window_end P (normalize t) (ls_start st)))) as [|x body] eqn:Eb;
      [exact HQ|].
    cbn [ls_chunks]. intros c' Hc'. apply in_app_or in Hc'.
    destruct Hc' as [Hc'|[Hc'|[]]]; [apply (HQ c' Hc')|].
    subst c'. cbn [c_text]. rewrite <- Eb. split.
    + rewrite Eb. unfold len. simpl. lia.
    + etransitivity; [apply strip_length | apply window_length; exact Hz].
  - exact H.
  - intros c' [].
  - subst cs. apply (HQ c Hin).
Qed.

Lemma chunks_fit_the_window_witness :
  0 < len (c_text hello_chunk) <= chunk_size default_processor.
Proof.
  apply (chunks_fit_the_window 1 default_processor hello_text 1 [hello_chunk] hello_chunk).
  - simpl. lia.
  - vm_compute. reflexivity.
  - left. reflexivity.
Defined.

(** Where the chunks of a text lie. *)
Lemma chunk_text_located (fuel : nat) (P : PDFProcessor) (t : text) (pg : Z)
    (cs : list chunk) (c : chunk) :
  chunk_text fuel P t pg = Some cs -> In c cs ->
  c_page_number c = pg /\
  c_start_char c < len (normalize t) /\
  c_end_char c = window_end P (normalize t) (c_start_char c).
Proof.
  intros H Hin. unfold chunk_text in H.
  destruct (chunk_loop_invariant
              (fun st => forall c, In c (ls_chunks st) ->
                 c_page_number c = pg /\
                 c_start_char c < len (normalize t) /\
                 c_end_char c = window_end P (normalize t) (c_start_char c))
              P (normalize t) pg) with (fuel := fuel) (st := initial_state) (cs := cs)
    as (st' & HQ & E & _).
  - intros st Hlt HQ. unfold chunk_step.
    destruct (strip (slice (normalize t) (ls_start st)
                       (window_end P (normalize t) (ls_start st)))) as [|x body];
      [exact HQ|].
    cbn [ls_chunks]. intros c' Hc'. apply in_app_or in Hc'.
    destruct Hc' as [Hc'|[Hc'|[]]]; [apply (HQ c' Hc')|].
    subst c'. cbn [c_page_number c_start_char c_end_char].
    apply Z.ltb_lt in Hlt. auto.
  - exact H.
  - intros c' [].
  - subst cs. apply (HQ c Hin).
Qed.

(** X18. The chunks of a text are numbered 0, 1, 2, ... in the order of
    the list and carry the page number of the call; each starts before the
    end of the normalized text, ends where its window was cut, and its text
    is the trimmed slice between the two offsets. *)
Theorem chunks_are_numbered_and_located (fuel : nat) (P : PDFProcessor) (t : text)
    (pg : Z) (cs : list chunk) (i : nat) (c : chunk) :
  chunk_text fuel P t pg = Some cs -> nth_error cs i = Some c ->
  c_chunk_index c = Z.of_nat i /\
  c_page_number c = pg /\
  c_start_char c < len (normalize t) /\
  c_end_char c = window_end P (normalize t) (c_start_char c) /\
  c_text c = strip (slice (normalize t) (c_start_char c) (c_end_char c)).
Proof.
  intros H Hn.
  destruct (chunk_text_well_numbered fuel P t pg cs H i c Hn) as (Hi & _ & Ht).
  destruct (chunk_text_located fuel P t pg cs c H (nth_error_In _ _ Hn))
    as (Hp & Hs & He).
  repeat split; assumption.
Qed.

Lemma chunks_are_numbered_and_located_witness :
  c_chunk_index hello_chunk = Z.of_nat 0 /\
  c_page_number hello_chunk = 1 /\
  c_start_char hello_chunk < len (normalize hello_text) /\
  c_end_char hello_chunk
    = window_end default_processor (normalize hello_text) (c_start_char hello_chunk) /\
  c_text hello_chunk
    = strip (slice (normalize hello_text) (c_start_char hello_chunk)
               (c_end_char hello_chunk)).
Proof.
  apply (chunks_are_numbered_and_located 1 default_processor hello_text 1
           [hello_chunk] 0 hello_chunk).
  - vm_compute. reflexivity.
  - reflexivity.
Defined.

(** X19. Where a window is cut.  For a chunk that starts at an offset of
    the text: if the window reaches the end of the text, the chunk ends at
    [start + chunk_size]; otherwise it ends right after the last sentence
    terminator that lies strictly between the start and
    [start + chunk_size], and at [start + chunk_size] when there is none. *)
Theorem chunk_ends_after_the_last_terminator (fuel : nat) (P : PDFProcessor) (t : text)
    (pg : Z) (cs : list chunk) (c : chunk) :
  0 < chunk_size P ->
  chunk_text fuel P t pg = Some cs -> In c cs ->
  0 <= c_start_char c ->
  let start := c_start_char c in
  let stop := start + chunk_size P in
  (len (normalize t) <= stop -> c_end_char c = stop) /\
  (stop < len (normalize t) ->
   (exists p, start < p < stop /\ terminator_at (normalize t) p /\
              (forall i, p < i < stop -> ~ terminator_at (normalize t) i) /\
              c_end_char c = p + 1) \/
   ((forall i, start < i < stop -> ~ terminator_at (normalize t) i) /\
    c_end_char c = stop)).
Proof.
  intros Hz H Hin Hs. cbv zeta.
  destruct (chunk_text_located fuel P t pg cs c H Hin) as (_ & _ & He).
  split.
  - intro Hlong. rewrite He. unfold window_end.
    replace (c_start_char c + chunk_size P <? len (normalize t)) with false
      by (symmetry; apply Z.ltb_ge; lia).
    reflexivity.
  - intro Hshort. rewrite He.
    apply (window_end_rule P (normalize t) (c_start_char c) Hs Hz Hshort).
Qed.

Lemma chunk_ends_after_the_last_terminator_witness :
  let c := {| c_text := str "Hello."; c_page_number := 1; c_chunk_index := 0;
              c_start_char := 0; c_end_char := 6 |} in
  let start := c_start_char c in
  let stop := start + chunk_size small_processor in
  (len (normalize hello_text) <= stop -> c_end_char c = stop) /\
  (stop < len (normalize hello_text) ->
   (exists p, start < p < stop /\ terminator_at (normalize hello_text) p /\
              (forall i, p < i < stop -> ~ terminator_at (normalize hello_text) i) /\
              c_end_char c = p + 1) \/
   ((forall i, start < i < stop -> ~ terminator_at (normalize hello_text) i) /\
    c_end_char c = stop)).
Proof.
  apply (chunk_ends_after_the_last_terminator 2 small_processor hello_text 1
           hello_sentences).
  - simpl. lia.
  - vm_compute. reflexivity.
  - left. reflexivity.
  - simpl. lia.
Defined.

(** ** The text of a chunk *)

Lemma firstn_prefix {A} (n : nat) (l : list A) : exists s, l = firstn n l ++ s.
Proof. exists (skipn n l). symmetry. apply firstn_skipn. Qed.

Lemma skipn_suffix {A} (n : nat) (l : list A) : exists p, l = p ++ skipn n l.
Proof. exists (firstn n l). symmetry. apply firstn_skipn. Qed.

Lemma rstrip_last (t : text) (c : char) :
  hd_error (rev (rstrip t)) = Some c -> isspace c = false.
Proof.
  unfold rstrip. rewrite rev_involutive. apply lstrip_head.
Qed.

Lemma prefix_head {A} (p s : list A) (c : A) :
  hd_error p = Some c -> hd_error (p ++ s) = Some c.
Proof. destruct p; simpl; [discriminate | auto]. Qed.

Lemma strip_head (t : text) (c : char) :
  hd_error (strip t) = Some c -> isspace c = false.
Proof.
  unfold strip. intro H. destruct (rstrip_prefix (lstrip t)) as (s & E).
  apply (lstrip_head t). rewrite E. apply prefix_head. exact H.
Qed.

Lemma single_spaced_strip (t : text) : single_spaced t -> single_spaced (strip t).
Proof.
  intro H. unfold strip.
  destruct (lstrip_suffix t) as (p & E). rewrite E in H.
  apply single_spaced_suffix in H.
  destruct (rstrip_prefix (lstrip t)) as (s & E'). rewrite E' in H.
  apply single_spaced_prefix in H. exact H.
Qed.

Lemma single_spaced_slice (t : text) (a b : Z) :
  single_spaced t -> single_spaced (slice t a b).
Proof.
  intro H. unfold slice.
  destruct (skipn_suffix (Z.to_nat (slice_index (len t) a)) t) as (p & E).
  rewrite E in H. apply single_spaced_suffix in H.
  destruct (firstn_prefix (Z.to_nat (slice_index (len t) b - slice_index (len t) a))
              (skipn (Z.to_nat (slice_index (len t) a)) t)) as (s & E').
  rewrite E' in H. apply single_spaced_prefix in H. exact H.
Qed.

(** X20. The text of a chunk has no whitespace at either end, its only
    whitespace characters are single spaces (tabs, line breaks and runs of
    blanks of the source are gone), and it is not empty. *)
Theorem chunk_texts_are_trimmed_and_single_spaced (fuel : nat) (P : PDFProcessor)
    (t : text) (pg : Z) (cs : list chunk) (c : chunk) :
  chunk_text fuel P t pg = Some cs -> In c cs ->
  c_text c <> [] /\
  (forall x, In x (c_text c) -> isspace x = true -> x = 32%N) /\
  single_spaced (c_text c) /\
  (forall x, hd_error (c_text c) = Some x -> isspace x = false) /\
  (forall x, hd_error (rev (c_text c)) = Some x -> isspace x = false).
Proof.
  intros H Hin. apply In_nth_error in Hin. destruct Hin as (i & Hn).
  destruct (chunk_text_well_numbered fuel P t pg cs H i c Hn) as (_ & Hne & Ht).
  destruct (normalize_is_collapsed_and_trimmed t) as (Hsp & Hss & _ & _).
  split; [exact Hne|]. rewrite Ht. split; [|split; [|split]].
  - intros x Hx. apply In_strip, In_slice in Hx. apply (Hsp x Hx).
  - apply single_spaced_strip, single_spaced_slice. exact Hss.
  - apply strip_head.
  - unfold strip. apply rstrip_last.
Qed.

Lemma chunk_texts_are_trimmed_and_single_spaced_witness :
  c_text hello_chunk <> [] /\
  (forall x, In x (c_text hello_chunk) -> isspace x = true -> x = 32%N) /\
  single_spaced (c_text hello_chunk) /\
  (forall x, hd_error (c_text hello_chunk) = Some x -> isspace x = false) /\
  (forall x, hd_error (rev (c_text hello_chunk)) = Some x -> isspace x = false).
Proof.
  apply (chunk_texts_are_trimmed_and_single_spaced 1 default_processor hello_text 1
           [hello_chunk] hello_chunk).
  - vm_compute. reflexivity.
  - left. reflexivity.
Defined.

(** ** Short texts and blank texts *)

Lemma lstrip_fixed (t : text) :
  (forall c, hd_error t = Some c -> isspace c = false) -> lstrip t = t.
Proof.
  destruct t as [|c t]; intro H; [reflexivity|].
  simpl. rewrite (H c eq_refl). reflexivity.
Qed.

Lemma rstrip_fixed (t : text) :
  (forall c, hd_error (rev t) = Some c -> isspace c = false) -> rstrip t = t.
Proof.
  intro H. unfold rstrip. rewrite (lstrip_fixed _ H). apply rev_involutive.
Qed.

Lemma strip_normalize (t : text) : strip (normalize t) = normalize t.
Proof.
  destruct (normalize_is_collapsed_and_trimmed t) as (_ & _ & Hh & Hl).
  unfold strip. rewrite (lstrip_fixed _ Hh). apply (rstrip_fixed _ Hl).
Qed.

Lemma slice_whole {A} (l : list A) (b : Z) : len l <= b -> slice l 0 b = l.
Proof.
  intro H. rewrite slice_prefix.
  assert (0 <= len l) by (unfold len; lia).
  replace (b <? 0) with false by (symmetry; apply Z.ltb_ge; lia).
  apply firstn_all2. unfold len in *. lia.
Qed.

Lemma chunk_loop_done (fuel : nat) (P : PDFProcessor) (t : text) (pg : Z)
    (st : loop_state) :
  (ls_start st <? len t) = false -> chunk_loop fuel P t pg st = Some (ls_chunks st).
Proof.
  intro H. destruct fuel; [rewrite chunk_loop_O | rewrite chunk_loop_S];
    rewrite H; reflexivity.
Qed.

(** X21. A text whose normal form is not empty and has at most
    [chunk_size - chunk_overlap] characters makes exactly one chunk, after
    one iteration: the whole normal form, numbered 0, from offset 0 to
    offset [chunk_size] (which may lie beyond the end of the text). *)
Theorem short_text_is_one_chunk (fuel : nat) (P : PDFProcessor) (t : text) (pg : Z) :
  0 <= chunk_overlap P ->
  normalize t <> [] ->
  len (normalize t) <= chunk_size P - chunk_overlap P ->
  chunk_text (S fuel) P t pg
  = Some [ {| c_text := normalize t; c_page_number := pg; c_chunk_index := 0;
              c_start_char := 0; c_end_char := chunk_size P |} ].
Proof.
  intros Ho Hne Hlen. unfold chunk_text. rewrite chunk_loop_S.
  assert (0 < len (normalize t)) as Hpos.
  { destruct (normalize t); [contradiction | unfold len; simpl; lia]. }
  cbn [ls_start initial_state].
  replace (0 <? len (normalize t)) with true by (symmetry; apply Z.ltb_lt; exact Hpos).
  assert (window_end P (normalize t) 0 = chunk_size P) as Hw.
  { unfold window_end. cbn [Z.add].
    replace (chunk_size P <? len (normalize t)) with false
      by (symmetry; apply Z.ltb_ge; lia).
    reflexivity. }
  unfold chunk_step. cbn [ls_start initial_state ls_chunks ls_chunk_index].
  rewrite Hw, slice_whole by lia. rewrite strip_normalize.
  destruct (normalize t) as [|x body] eqn:E; [contradiction|].
  rewrite chunk_loop_done; [reflexivity|].
  cbn [ls_start]. apply Z.ltb_ge. lia.
Qed.

Lemma short_text_is_one_chunk_witness :
  chunk_text 1 default_processor hello_text 1
  = Some [ {| c_text := normalize hello_text; c_page_number := 1; c_chunk_index := 0;
              c_start_char := 0; c_end_char := chunk_size default_processor |} ].
Proof.
  apply (short_text_is_one_chunk 0 default_processor hello_text 1).
  - simpl. lia.
  - vm_compute. discriminate.
  - vm_compute. discriminate.
Defined.

Lemma lstrip_empty (t : text) : lstrip t = [] -> forallb isspace t = true.
Proof.
  induction t as [|c t IH]; intro H; [reflexivity|].
  simpl in H. destruct (isspace c) eqn:E; [|discriminate].
  simpl. rewrite E. apply IH. exact H.
Qed.

Lemma forallb_rev {A} (f : A -> bool) (l : list A) :
  forallb f (rev l) = true -> forallb f l = true.
Proof.
  rewrite !forallb_forall. intros H x Hx. apply H. apply in_rev in Hx. exact Hx.
Qed.

Lemma strip_empty (t : text) : strip t = [] -> forallb isspace t = true.
Proof.
  unfold strip, rstrip. intro H.
  apply (f_equal (@rev char)) in H. rewrite rev_involutive in H. simpl in H.
  apply lstrip_empty, forallb_rev in H.
  destruct (lstrip t) as [|c r] eqn:E; [apply lstrip_empty; exact E|].
  exfalso. simpl in H. apply andb_true_iff in H. destruct H as [Hc _].
  assert (isspace c = false) as C by (apply (lstrip_head t); rewrite E; reflexivity).
  rewrite C in Hc. discriminate.
Qed.

Lemma collapse_from_keeps (t : text) (c : char) :
  forall b, In c t -> isspace c = false -> In c (collapse_from b t).
Proof.
  induction t as [|x t IH]; intros b Hin Hc; [contradiction|].
  simpl. destruct Hin as [E|Hin].
  - subst x. rewrite Hc. left. reflexivity.
  - destruct (isspace x); [destruct b|]; try right; apply IH; assumption.
Qed.

Lemma normalize_empty (t : text) : normalize t = [] -> forallb isspace t = true.
Proof.
  unfold normalize, re_sub_whitespace. intro H. apply strip_empty in H.
  rewrite forallb_forall in *. intros c Hc.
  destruct (isspace c) eqn:E; [reflexivity|].
  rewrite <- E. apply H. apply collapse_from_keeps; assumption.
Qed.

Lemma chunk_loop_extends (P : PDFProcessor) (t : text) (pg : Z) :
  forall fuel st cs,
    chunk_loop fuel P t pg st = Some cs -> exists more, cs = ls_chunks st ++ more.
Proof.
  induction fuel as [|fuel IH]; intros st cs H.
  - rewrite chunk_loop_O in H. destruct (ls_start st <? len t); [discriminate|].
    inversion H. exists []. rewrite app_nil_r. reflexivity.
  - rewrite chunk_loop_S in H. destruct (ls_start st <? len t).
    + destruct (IH _ _ H) as (more & E). unfold chunk_step in E.
      destruct (strip _) as [|x body] in E; cbn [ls_chunks] in E.
      * exists more. exact E.
      * rewrite <- app_assoc in E. eexists. exact E.
    + inversion H. exists []. rewrite app_nil_r. reflexivity.
Qed.

Lemma rstrip_nonempty (t : text) (c : char) :
  hd_error t = Some c -> isspace c = false -> rstrip t <> [].
Proof.
  intros Hh Hc H. unfold rstrip in H.
  apply (f_equal (@rev char)) in H. rewrite rev_involutive in H. simpl in H.
  apply lstrip_empty, forallb_rev in H.
  destruct t as [|x t]; [discriminate|]. inversion Hh; subst x.
  simpl in H. rewrite Hc in H. discriminate.
Qed.

(** The first window of a text that starts with a visible character is
    kept. *)
Lemma first_window_is_kept (P : PDFProcessor) (t : text) (pg : Z) (c : char) :
  0 < chunk_size P ->
  hd_error t = Some c -> isspace c = false ->
  ls_chunks (chunk_step P t pg initial_state) <> [].
Proof.
  intros Hz Hh Hc. unfold chunk_step. cbn [ls_start initial_state ls_chunks].
  assert (1 <= window_end P t 0) as Hw.
  { unfold window_end. cbn [Z.add].
    destruct (chunk_size P <? len t); [|lia].
    destruct (0 <? sentence_end_of t 0 (chunk_size P)) eqn:E; [|lia].
    apply Z.ltb_lt in E. lia. }
  assert (hd_error (slice t 0 (window_end P t 0)) = Some c) as Hs.
  { rewrite slice_prefix.
    replace (window_end P t 0 <? 0) with false by (symmetry; apply Z.ltb_ge; lia).
    destruct t as [|x t]; [discriminate|].
    destruct (Z.to_nat (window_end P (x :: t) 0)) eqn:En; [lia|]. exact Hh. }
  assert (strip (slice t 0 (window_end P t 0)) <> []) as Hne.
  { unfold strip. rewrite lstrip_fixed.
    - apply (rstrip_nonempty _ c Hs Hc).
    - intros x Hx. rewrite Hs in Hx. inversion Hx; subst. exact Hc. }
  destruct (strip (slice t 0 (window_end P t 0))); [contradiction|].
  intro H. apply (f_equal (@List.length chunk)) in H. simpl in H. discriminate.
Qed.

(** X22. A text makes no chunk exactly when it has no visible character:
    a text of whitespace only (or the empty text) gives the empty list at
    once, and any other text gives at least one chunk when the loop
    ends. *)
Theorem no_chunk_means_blank_text (fuel : nat) (P : PDFProcessor) (t : text) (pg : Z)
    (cs : list chunk) :
  0 < chunk_size P ->
  chunk_text fuel P t pg = Some cs ->
  (cs = [] <-> forallb isspace t = true) /\
  (forallb isspace t = true -> forall fuel', chunk_text fuel' P t pg = Some []).
Proof.
  intros Hz H.
  assert (forallb isspace t = true -> forall fuel', chunk_text fuel' P t pg = Some [])
    as Hblank.
  { intros Hb fuel'. unfold chunk_text. rewrite (normalize_blank t Hb).
    destruct fuel'; reflexivity. }
  split; [|exact Hblank]. split.
  - intro E. subst cs. destruct (normalize t) as [|c body] eqn:En;
      [apply normalize_empty; exact En|].
    exfalso. unfold chunk_text in H. rewrite En in H.
    destruct fuel as [|fuel]; [discriminate H|].
    rewrite chunk_loop_S in H. cbn [ls_start initial_state] in H.
    replace (0 <? len (c :: body)) with true in H by reflexivity.
    destruct (chunk_loop_extends _ _ _ _ _ _ H) as (more & E).
    assert (isspace c = false) as Hc.
    { destruct (normalize_is_collapsed_and_trimmed t) as (_ & _ & Hh & _).
      apply Hh. rewrite En. reflexivity. }
    apply (first_window_is_kept P (c :: body) pg c Hz eq_refl Hc).
    destruct (ls_chunks (chunk_step P (c :: body) pg initial_state));
      [reflexivity | discriminate E].
  - intro Hb. rewrite (Hblank Hb fuel) in H. inversion H. reflexivity.
Qed.

Lemma no_chunk_means_blank_text_witness :
  ([hello_chunk] = [] <-> forallb isspace hello_text = true) /\
  (forallb isspace hello_text = true ->
   forall fuel', chunk_text fuel' default_processor hello_text 1 = Some []).
Proof.
  apply (no_chunk_means_blank_text 1 default_processor hello_text 1 [hello_chunk]).
  - simpl. lia.
  - vm_compute. reflexivity.
Defined.

(* ===================================================================== *)
(** * Pages of a PDF                                                      *)
(* ===================================================================== *)

Lemma extract_pages_spec (R : Runtime) (pages : list text) :
  forall k txt p,
    In (txt, p) (extract_pages R k pages) <->
    exists i raw, nth_error pages i = Some raw /\ strip raw <> [] /\
                  p = k + Z.of_nat i + 1 /\ txt = clean_text R raw.
Proof.
  induction pages as [|raw pages IH]; intros k txt p.
  - simpl. split; [contradiction|]. intros ([|i] & raw & H & _); discriminate H.
  - cbn [extract_pages]. split.
    + intro H.
      assert (In (txt, p) (extract_pages R (k + 1) pages) ->
              exists i raw0, nth_error (raw :: pages) i = Some raw0 /\ strip raw0 <> [] /\
                             p = k + Z.of_nat i + 1 /\ txt = clean_text R raw0) as Hrest.
      { intro Hin. apply IH in Hin. destruct Hin as (i & raw0 & Hn & Hs & Hp & Ht).
        exists (S i), raw0. repeat split; try assumption.
        rewrite Nat2Z.inj_succ. lia. }
      destruct (strip raw) as [|x body] eqn:E; [apply Hrest; exact H|].
      destruct H as [H|H]; [|apply Hrest; exact H].
      inversion H; subst. exists O, raw. repeat split; try reflexivity.
      * rewrite E. discriminate.
      * simpl. lia.
    + intros (i & raw0 & Hn & Hs & Hp & Ht). destruct i as [|i].
      * simpl in Hn. inversion Hn; subst raw0.
        destruct (strip raw) as [|x body]; [contradiction|].
        left. subst. f_equal. simpl. lia.
      * simpl in Hn.
        assert (In (txt, p) (extract_pages R (k + 1) pages)) as Hin.
        { apply IH. exists i, raw0. repeat split; try assumption.
          rewrite Nat2Z.inj_succ in Hp. lia. }
        destruct (strip raw); [exact Hin | right; exact Hin].
Qed.

Lemma extract_pages_ascending (R : Runtime) (pages : list text) :
  forall k, StronglySorted Z.lt (map snd (extract_pages R k pages)).
Proof.
  induction pages as [|raw pages IH]; intro k; [constructor|].
  cbn [extract_pages]. destruct (strip raw); [apply IH|].
  simpl. constructor; [apply IH|].
  apply Forall_forall. intros p Hp. apply in_map_iff in Hp.
  destruct Hp as ([txt p'] & E & Hin). simpl in E. subst p'.
  apply extract_pages_spec in Hin. destruct Hin as (i & _ & _ & _ & Hp & _). lia.
Qed.

(** X23. The pages that [extract_text_from_pdf] returns are the pages of
    the file that are not blank, each cleaned and under its position in the
    file counted from 1, in ascending order: a blank page is left out but
    still counted.  A file that cannot be read gives no page. *)
Theorem extracted_pages_keep_their_position (R : Runtime) (pages : list text) :
  extract_text_from_pdf R Unreadable = [] /\
  StronglySorted Z.lt (map snd (extract_text_from_pdf R (Pages pages))) /\
  forall txt p,
    In (txt, p) (extract_text_from_pdf R (Pages pages)) <->
    exists i raw, nth_error pages i = Some raw /\ strip raw <> [] /\
                  p = Z.of_nat i + 1 /\ txt = clean_text R raw.
Proof.
  split; [reflexivity|]. split; [apply extract_pages_ascending|].
  intros txt p. unfold extract_text_from_pdf. rewrite extract_pages_spec.
  split; intros (i & raw & H1 & H2 & H3 & H4); exists i, raw; repeat split;
    try assumption; lia.
Qed.

(** X24. What [_clean_text] lets through: word characters, the eleven
    punctuation marks of the pattern and plain spaces; no other whitespace
    character is left, and there is no whitespace at either end. *)
Theorem clean_text_keeps_words_marks_and_spaces (R : Runtime) (t : text) :
  (forall c, In c (clean_text R t) ->
     (isword R c = true \/ ispunct_kept c = true \/ c = 32%N) /\
     (isspace c = true -> c = 32%N)) /\
  (forall c, hd_error (clean_text R t) = Some c -> isspace c = false) /\
  (forall c, hd_error (rev (clean_text R t)) = Some c -> isspace c = false).
Proof.
  unfold clean_text. split; [|split].
  - intros c Hc. apply In_strip in Hc. apply filter_In in Hc. destruct Hc as [Hc Hk].
    assert (isspace c = true -> c = 32%N) as Hsp.
    { apply (collapse_from_spaces (nfkd R t) false c). exact Hc. }
    split; [|exact Hsp].
    apply orb_true_iff in Hk. destruct Hk as [Hk|Hk]; [|tauto].
    apply orb_true_iff in Hk. destruct Hk as [Hk|Hk]; [tauto|].
    right. right. apply Hsp. exact Hk.
  - apply strip_head.
  - unfold strip. apply rstrip_last.
Qed.

(* ===================================================================== *)
(** * PDFs with text on more than one page                                *)
(* ===================================================================== *)

(** X26. A PDF with two pages that each give at least one chunk is never
    stored: the numbering of the chunks starts again at 0 on each page, and
    the second chunk 0 cannot be inserted.  The tables stay as they are,
    and the call can only return a document that was stored before. *)
Theorem pdf_with_text_on_two_pages_is_never_stored (fuel : nat)
    (rag : PolicyWordingRAG) (S : Server) (document_name : option text) (f : pdf)
    (metadata : option json) (w w' : world) (r : res (Z * Z))
    (l1 l2 l3 : list (text * Z)) (t1 t2 : text) (p1 p2 : Z)
    (c1 c2 : chunk) (cs1 cs2 : list chunk) :
  extract_text_from_pdf (runtime rag) f = l1 ++ (t1, p1) :: l2 ++ (t2, p2) :: l3 ->
  chunk_text fuel (pdf_processor rag) t1 p1 = Some (c1 :: cs1) ->
  chunk_text fuel (pdf_processor rag) t2 p2 = Some (c2 :: cs2) ->
  add_policy_document fuel rag S None document_name (Some f) metadata w = (r, w') ->
  stored (w_db w') = stored (w_db w) /\
  forall id n,
    r = Returned (id, n) ->
    exists row, In row (policy_documents (stored (w_db w))) /\
                d_id row = id /\ d_total_chunks row = n.
Proof.
  intros He H1 H2 Hadd.
  destruct (pdf_with_two_chunked_pages_is_never_stored fuel rag S document_name f
              metadata w w' r l1 l2 l3 t1 t2 p1 p2 c1 c2 cs1 cs2 He H1 H2 Hadd)
    as [(Hno & Hsame & _) | (cs & txt & row & _ & _ & Hfind & Hr & Hdb & _)].
  - split; [exact Hsame|]. intros id n E. exfalso. exact (Hno _ E).
  - split; [rewrite Hdb; reflexivity|].
    intros id n E. subst r. inversion E; subst. exists row.
    unfold document_with_hash in Hfind. apply find_some in Hfind. tauto.
Qed.

Lemma pdf_with_text_on_two_pages_is_never_stored_witness :
  let result := add_policy_document 1 example_rag healthy None (Some policy_name)
                  (Some two_page_pdf) None (at_rest empty_database) in
  stored (w_db (snd result)) = stored (w_db (at_rest empty_database)) /\
  forall id n,
    fst result = Returned (id, n) ->
    exists row, In row (policy_documents (stored (w_db (at_rest empty_database)))) /\
                d_id row = id /\ d_total_chunks row = n.
Proof.
  eapply (pdf_with_text_on_two_pages_is_never_stored 1 example_rag healthy
            (Some policy_name) two_page_pdf None (at_rest empty_database) _ _
            [] [] [] (str "A.") (str "B.") 1 2).
  - vm_compute. reflexivity.
  - vm_compute. reflexivity.
  - vm_compute. reflexivity.
  - vm_compute. reflexivity.
Defined.

(* ===================================================================== *)
(** * The analysis of a claim                                             *)
(* ===================================================================== *)

(** After an ingestion of a text has returned, the digest of the text
    leads to the document whose identifier and count were returned. *)
Lemma ingested_text_is_found (fuel : nat) (rag : PolicyWordingRAG) (S : Server)
    (c : char) (t : text) (document_name : option text) (metadata : option json)
    (w w' : world) (id n : Z) :
  add_policy_document fuel rag S (Some (c :: t)) document_name None metadata w
    = (Returned (id, n), w') ->
  exists row,
    document_with_hash (sha256 (runtime rag) (c :: t)) (stored (w_db w')) = Some row /\
    d_id row = id /\ d_total_chunks row = n.
Proof.
  intro Hadd.
  destruct (add_policy_document_cases _ _ _ _ _ _ _ _ _ _ Hadd)
    as [(Hno & _) | [(cs & txt & row & Hsrc & _ & Hfind & Hr & Hdb & _) | Hins]].
  - exfalso. exact (Hno _ eq_refl).
  - unfold source_chunks in Hsrc. simpl in Hsrc.
    destruct (chunk_text fuel (pdf_processor rag) (c :: t) 1); [|discriminate].
    inversion Hsrc; subst. inversion Hr; subst. exists row.
    rewrite Hdb. auto.
  - destruct Hins as (cs & txt & name & Hsrc & _ & Hfind & Hins). cbv zeta in Hins.
    destruct Hins as (Hr & _ & Hdocs & _).
    unfold source_chunks in Hsrc. simpl in Hsrc.
    destruct (chunk_text fuel (pdf_processor rag) (c :: t) 1); [|discriminate].
    inversion Hsrc; subst. inversion Hr; subst.
    eexists. split.
    + unfold document_with_hash in *. rewrite Hdocs, find_snoc, Hfind. simpl.
      rewrite N.eqb_refl. reflexivity.
    + split; reflexivity.
Qed.

Lemma ask_the_model_outcome (A : Assistant) (incident_desc context : text)
    (a : analysis) :
  ask_the_model A incident_desc context = Returned a ->
  a <> PolicyWordingEmpty /\ a <> PolicyWordingTooShort /\
  a <> NoIncidentDescription /\ a <> NoRelevantSections.
Proof.
  unfold ask_the_model.
  destruct (gemini_api_function A _) as [[response error]| e |]; [| |discriminate].
  - destruct (given error); [intro H; inversion H; repeat split; discriminate|].
    destruct response as [response|];
      [|intro H; inversion H; repeat split; discriminate].
    destruct (parse_response A response) as [[result|]| e |];
      intro H; inversion H; repeat split; discriminate.
  - intro H; inversion H; repeat split; discriminate.
Qed.

(** X27. What each outcome of [analyze_claim_with_rag] says about the
    store.  A policy wording that is empty, or shorter than 50 characters
    once trimmed, is refused before anything is sent to the database.  Every
    other outcome except "Analysis error" is reached only after the wording
    was ingested: also when the claim has no incident description, or no
    policy section is found, or the model fails, the wording is in the
    store afterwards, under its digest. *)
Theorem analysis_ingests_before_it_looks_at_the_claim (fuel : nat) (claim_json : json)
    (policy_wording_text : text) (rag_system : PolicyWordingRAG) (S S' : Server)
    (F : Formatter) (A : Assistant) (w w' : world) (a : analysis) :
  analyze_claim_with_rag fuel claim_json policy_wording_text rag_system S S' F A w
    = (Returned a, w') ->
  let stored_wording :=
    exists row,
      document_with_hash (sha256 (runtime rag_system) policy_wording_text)
        (stored (w_db w')) = Some row in
  match a with
  | PolicyWordingEmpty => policy_wording_text = [] /\ w' = w
  | PolicyWordingTooShort =>
      policy_wording_text <> [] /\ len (strip policy_wording_text) < 50 /\ w' = w
  | AnalysisError =>
      50 <= len (strip policy_wording_text) /\
      (stored (w_db w') = stored (w_db w) \/ stored_wording)
  | NoIncidentDescription =>
      50 <= len (strip policy_wording_text) /\ stored_wording /\
      dict_get claim_json (str "incident_description") [] = []
  | NoRelevantSections | GeminiError _ | NoJsonInResponse | Analysed _ =>
      50 <= len (strip policy_wording_text) /\ stored_wording /\
      dict_get claim_json (str "incident_description") [] <> []
  end.
Proof.
  cbv zeta. unfold analyze_claim_with_rag. intro H.
  destruct policy_wording_text as [|c t]; [inversion H; subst; auto|].
  destruct (len (strip (c :: t)) <? 50) eqn:E.
  { inversion H; subst. apply Z.ltb_lt in E. repeat split; [discriminate | exact E]. }
  apply Z.ltb_ge in E.
  match type of H with
  | context [add_policy_document ?f ?r ?s ?dt ?dn ?pb ?md w] =>
      destruct (add_policy_document f r s dt dn pb md w)
        as [[[doc_id chunks]| e |] w1] eqn:Hadd; [| |discriminate]
  end.
  2:{ inversion H; subst. split; [exact E|]. left.
      destruct (add_policy_document_cases _ _ _ _ _ _ _ _ _ _ Hadd)
        as [(_ & Hsame & _) | [(? & ? & ? & _ & _ & _ & Hr & _) | Hins]].
      - exact Hsame.
      - discriminate Hr.
      - destruct Hins as (? & ? & ? & _ & _ & _ & Hins). cbv zeta in Hins.
        destruct Hins as (Hr & _). discriminate Hr. }
  destruct (ingested_text_is_found _ _ _ _ _ _ _ _ _ _ _ Hadd) as (row & Hrow & _).
  destruct (dict_get claim_json (str "incident_description") []) as [|x incident] eqn:Ed.
  { inversion H; subst. repeat split; try assumption. exists row. exact Hrow. }
  destruct (get_context_for_query rag_system S' F (x :: incident) 5 (Some doc_id) (w_db w1))
    as [[|y context]| e |]; [| | |discriminate].
  - inversion H; subst. split; [exact E|]. split; [exists row; exact Hrow | discriminate].
  - inversion H as [[Hask Hw]]. subst w1.
    destruct (ask_the_model_outcome _ _ _ _ Hask) as (N1 & N2 & N3 & N4).
    destruct a; try contradiction;
      (split; [exact E|]);
      try (split; [exists row; exact Hrow | discriminate]).
    right. exists row. exact Hrow.
  - inversion H; subst. split; [exact E|]. right. exists row. exact Hrow.
Qed.

Lemma analysis_ingests_before_it_looks_at_the_claim_witness :
  50 <= len (strip wording_text) /\
  (exists row,
     document_with_hash (sha256 (runtime example_rag) wording_text)
       (stored (w_db wording_analysed)) = Some row) /\
  dict_get theft_claim (str "incident_description") [] <> [].
Proof.
  apply (analysis_ingests_before_it_looks_at_the_claim 1 theft_claim wording_text
           example_rag healthy healthy plain_formatter offline_assistant
           (at_rest empty_database) wording_analysed (GeminiError (str "offline"))).
  vm_compute. reflexivity.
Defined.

(* ===================================================================== *)
(** * Ingesting a text again after its document was deleted               *)
(* ===================================================================== *)

Lemma NoDup_map_injective {A B} (f : A -> B) (l : list A) (a b : A) :
  NoDup (map f l) -> In a l -> In b l -> f a = f b -> a = b.
Proof.
  induction l as [|x l IH]; intros Hnd Ha Hb E; [contradiction|].
  simpl in Hnd. inversion Hnd as [|? ? Hnotin Hnd']; subst.
  destruct Ha as [Ha|Ha], Hb as [Hb|Hb].
  - congruence.
  - subst x. exfalso. apply Hnotin. rewrite E. apply in_map. exact Hb.
  - subst x. exfalso. apply Hnotin. rewrite <- E. apply in_map. exact Ha.
  - apply IH; assumption.
Qed.

(** X28. Deleting makes room for the same text: after a text was ingested
    into a coherent store and the returned document was deleted, a further
    ingestion of the text does not find a digest any more, and when the
    server answers, the text and the name are strings that psycopg2 adapts
    (no NUL, no surrogate), the name fits the column and [jsonb] takes the
    metadata, it stores the text again, under an identifier that is greater
    than the one deleted: identifiers are not handed out twice. *)
Theorem deleted_text_can_be_ingested_again (fuel : nat) (rag : PolicyWordingRAG)
    (S1 S2 S3 : Server) (B : Backend) (c : char) (t name name' : text)
    (metadata metadata' : option json) (w w1 w2 : world) (id n : Z) (deleted : bool) :
  coherent (w_db w) ->
  add_policy_document fuel rag S1 (Some (c :: t)) (Some name) None metadata w
    = (Returned (id, n), w1) ->
  delete_document S2 B id w1 = (Returned deleted, w2) ->
  answers S3 ->
  adapt (c :: t) = None -> adapt name = None -> varchar 255 name = Some name' ->
  jsonb_object (match metadata' with Some m => m | None => [] end) <> None ->
  deleted = true /\
  document_with_hash (sha256 (runtime rag) (c :: t)) (stored (w_db w2)) = None /\
  id < documents_id_seq (w_db w2) /\
  exists n' w3,
    add_policy_document fuel rag S3 (Some (c :: t)) (Some name) None metadata'
      (at_rest (w_db w2))
    = (Returned (documents_id_seq (w_db w2), n'), w3).
Proof.
  intros Hco Hadd Hdel Hans Htext Hadapt Hname Hjson.
  pose proof (add_policy_document_coherent _ _ _ _ _ _ _ _ _ _ Hco Hadd) as Hco1.
  pose proof (proj1 (deletion_coherent S2 B id w1 Hco1)) as Hco2.
  rewrite Hdel in Hco2. cbn [snd] in Hco2.
  destruct (ingested_text_is_found _ _ _ _ _ _ _ _ _ _ _ Hadd) as (row & Hrow & Hid & _).
  unfold document_with_hash in Hrow. apply find_some in Hrow.
  destruct Hrow as [Hin Hhash]. apply N.eqb_eq in Hhash.
  assert (exists cs, chunk_text fuel (pdf_processor rag) (c :: t) 1 = Some cs /\
                     utf8_encodable (c :: t) = true) as (cs & Hchunk & Hutf).
  { destruct (add_policy_document_cases _ _ _ _ _ _ _ _ _ _ Hadd)
      as [(Hno & _) | [(cs & txt & ? & Hsrc & Hutf & _) | Hins]].
    - exfalso. exact (Hno _ eq_refl).
    - unfold source_chunks in Hsrc. simpl in Hsrc.
      destruct (chunk_text fuel (pdf_processor rag) (c :: t) 1) as [cs'|];
        [|discriminate].
      inversion Hsrc; subst. exists cs. auto.
    - destruct Hins as (cs & txt & ? & Hsrc & Hutf & _).
      unfold source_chunks in Hsrc. simpl in Hsrc.
      destruct (chunk_text fuel (pdf_processor rag) (c :: t) 1) as [cs'|];
        [|discriminate].
      inversion Hsrc; subst. exists cs. auto. }
  rewrite delete_document_run in Hdel.
  destruct (connect_fails S2); [discriminate|].
  destruct (delete_fails B); [discriminate|].
  destruct (commit_fails S2); [discriminate|].
  cbv zeta in Hdel. injection Hdel as Hd Hw2. subst deleted w2.
  cbn [w_db stored policy_documents documents_id_seq] in *.
  assert (existsb (fun d => d_id d =? id) (policy_documents (stored (w_db w1))) = true)
    as Hex.
  { apply existsb_exists. exists row. split; [exact Hin | apply Z.eqb_eq; exact Hid]. }
  split; [exact Hex|].
  destruct Hco1 as ((Hcd & _) & _ & Hnh & _).
  match goal with
  | |- ?G /\ _ => assert G as Hnone
  end.
  { unfold document_with_hash. cbn [policy_documents].
    destruct (find _ (filter _ _)) as [row2|] eqn:Hf; [|reflexivity].
    exfalso. apply find_some in Hf. destruct Hf as [Hin2 Hhash2].
    apply N.eqb_eq in Hhash2. apply filter_In in Hin2. destruct Hin2 as [Hin2 Hne].
    assert (row2 = row) as E
      by (apply (NoDup_map_injective d_document_hash _ _ _ Hnh Hin2 Hin); congruence).
    subst row2. rewrite Hid, Z.eqb_refl in Hne. discriminate. }
  split; [exact Hnone|].
  split; [rewrite <- Hid; apply (Hcd row Hin)|].
  match type of Hco2 with
  | coherent ?db =>
      destruct (plain_text_ingestion_succeeds fuel rag S3 c t name name' metadata'
                  db cs Hans (proj1 Hco2) Hchunk Htext Hnone Hadapt Hname Hjson)
        as (w3 & H3)
  end.
  exists (len cs), w3. exact H3.
Qed.

Lemma deleted_text_can_be_ingested_again_witness :
  true = true /\
  document_with_hash (sha256 (runtime example_rag) (72%N :: str "ello. World."))
    (stored (w_db hello_deleted)) = None /\
  1 < documents_id_seq (w_db hello_deleted) /\
  exists n' w3,
    add_policy_document 1 example_rag healthy (Some (72%N :: str "ello. World."))
      (Some policy_name) None None (at_rest (w_db hello_deleted))
    = (Returned (documents_id_seq (w_db hello_deleted), n'), w3).
Proof.
  apply (deleted_text_can_be_ingested_again 1 example_rag healthy healthy healthy
           plain_backend 72%N (str "ello. World.") policy_name policy_name None None
           (at_rest empty_database) hello_ingested hello_deleted 1 1 true).
  - unfold coherent, consistent. simpl.
    repeat split; try apply NoDup_nil; try (intros ? []); try contradiction.
  - vm_compute. reflexivity.
  - vm_compute. reflexivity.
  - repeat split.
  - reflexivity.
  - reflexivity.
  - reflexivity.
  - discriminate.
Defined.

(* ===================================================================== *)
(** * A call without input                                                *)
(* ===================================================================== *)

(** X29. A call that is given no PDF and no text, or the empty text, is
    refused, whatever the name, the metadata, the server and the database:
    it returns nothing and leaves the database as it was, rows and
    sequences; once the connection is open it raises the exception of the
    [else] branch and the only call it makes is the rollback. *)
Theorem call_without_input_is_refused (fuel : nat) (rag : PolicyWordingRAG) (S : Server)
    (document_text document_name : option text) (metadata : option json) (w : world) :
  document_text = None \/ document_text = Some [] ->
  let result := add_policy_document fuel rag S document_text document_name None
                  metadata w in
  (forall v, fst result <> Returned v) /\
  w_db (snd result) = w_db w /\
  (connect_fails S = false ->
   fst result
     = Raised (PlainException "Either document_text or pdf_bytes must be provided") /\
   w_trace (snd result) = w_trace w ++ [EvRollback]).
Proof.
  intros Hnone. cbv zeta. unfold add_policy_document.
  destruct (connect_fails S).
  - simpl. split; [discriminate|]. split; [reflexivity | discriminate].
  - unfold add_policy_document_body, bind, chunk_source.
    destruct Hnone as [E|E]; subst document_text; simpl;
      (split; [discriminate|]); (split; [reflexivity|]); intros _;
      (split; reflexivity).
Qed.

Lemma call_without_input_is_refused_witness :
  let result := add_policy_document 1 example_rag healthy (Some []) (Some policy_name)
                  None None (at_rest empty_database) in
  (forall v, fst result <> Returned v) /\
  w_db (snd result) = w_db (at_rest empty_database) /\
  (connect_fails healthy = false ->
   fst result
     = Raised (PlainException "Either document_text or pdf_bytes must be provided") /\
   w_trace (snd result) = w_trace (at_rest empty_database) ++ [EvRollback]).
Proof.
  apply (call_without_input_is_refused 1 example_rag healthy (Some []) (Some policy_name)
           None (at_rest empty_database)).
  right. reflexivity.
Defined.
